(** * elastic-2-neo: the mapping-driven graph compiler of [source/neo.py]

    A shallow embedding of [GraphBuilder] (path resolver, node and
    relationship compilers, statement generator, document pipeline, [build]
    and statement executor), of [ElasticScroller] from [elastic.py], and of
    [_load_mapping], [_setup_objects], the option loop of [main] and
    [_execute] from [elastic2neo.py], followed by the properties established
    about them.

    Conventions.
    - A Python [dict] is an association list in insertion order (Python 3.7+
      dictionaries iterate in insertion order, and the generated statements
      depend on that order).  Keys of a dictionary are pairwise distinct.
    - A raised Python exception is the [Raise] branch of [Result]; every
      function that can raise returns a [Result].
    - Optional dictionary keys ([properties], [uniqueLabels], ...) are
      [option] fields; ['k' in d] is [isSome]. *)

From Stdlib Require Import String Ascii List ZArith Bool Lia.
Import ListNotations.
Open Scope string_scope.
Open Scope list_scope.

Set Implicit Arguments.
Set Warnings "-register-all".

(* ===================================================================== *)
(** * Exceptions *)
(* ===================================================================== *)

Inductive exn : Type :=
| KeyError (k : string)
| TypeError
| IndexError
| DriverError (code : string).

Inductive Result (A : Type) : Type :=
| Ok (a : A)
| Raise (e : exn).

Arguments Ok {A} a.
Arguments Raise {A} e.

Definition bind {A B : Type} (c : Result A) (k : A -> Result B) : Result B :=
  match c with
  | Ok a => k a
  | Raise e => Raise e
  end.

Declare Scope py_scope.
Delimit Scope py_scope with py.
Notation "x <- c ;; k" := (bind c (fun x => k))
  (at level 61, c at next level, right associativity) : py_scope.
Notation "' p <- c ;; k" := (bind c (fun x => match x with p => k end))
  (at level 61, p pattern, c at next level, right associativity) : py_scope.
Open Scope py_scope.

(* ===================================================================== *)
(** * Python values: documents as nested records *)
(* ===================================================================== *)

(** A decoded JSON document.  [VFloat] carries the IEEE-754 binary64 bit
    pattern of a non-integer number. *)
Inductive Value : Type :=
| VNone
| VBool (b : bool)
| VInt (z : Z)
| VFloat (bits : Z)
| VStr (s : string)
| VList (l : list Value)
| VDict (d : list (string * Value)).

(** ** Insertion-ordered dictionaries *)

Section Dict.
Variable V : Type.

Definition dict := list (string * V).

Fixpoint dict_lookup (k : string) (d : dict) : option V :=
  match d with
  | [] => None
  | (k', v) :: d' => if String.eqb k k' then Some v else dict_lookup k d'
  end.

Definition dict_mem (k : string) (d : dict) : bool :=
  match dict_lookup k d with Some _ => true | None => false end.

(** [d[k] = v]: overwrite in place, or append a new key at the end. *)
Fixpoint dict_set (k : string) (v : V) (d : dict) : dict :=
  match d with
  | [] => [(k, v)]
  | (k', v') :: d' =>
      if String.eqb k k' then (k', v) :: d' else (k', v') :: dict_set k v d'
  end.

(** [d[k]] as an expression. *)
Definition dict_get (k : string) (d : dict) : Result V :=
  match dict_lookup k d with
  | Some v => Ok v
  | None => Raise (KeyError k)
  end.
End Dict.

Arguments dict_lookup {V} k d.
Arguments dict_mem {V} k d.
Arguments dict_set {V} k v d.
Arguments dict_get {V} k d.

(** ** [str.split(".")] *)

Fixpoint split_dot (s : string) : list string :=
  match s with
  | EmptyString => [EmptyString]
  | String c s' =>
      if Ascii.eqb c "." then EmptyString :: split_dot s'
      else match split_dot s' with
           | [] => [String c EmptyString]
           | seg :: segs => String c seg :: segs
           end
  end.

(** ** The operators [in] and [[]] with a string on the left / as index *)

Fixpoint str_contains (needle hay : string) : bool :=
  String.prefix needle hay ||
  match hay with
  | EmptyString => false
  | String _ hay' => str_contains needle hay'
  end.

Definition is_str (k : string) (v : Value) : bool :=
  match v with
  | VStr s => String.eqb k s
  | _ => false
  end.

(** [k in item]: key membership for a dict, element membership for a list,
    substring test for a string, [TypeError] for anything else. *)
Definition py_in (k : string) (item : Value) : Result bool :=
  match item with
  | VDict d => Ok (dict_mem k d)
  | VList l => Ok (existsb (is_str k) l)
  | VStr s => Ok (str_contains k s)
  | VNone | VBool _ | VInt _ | VFloat _ => Raise TypeError
  end.

(** [item[k]] with a string index [k]. *)
Definition py_getitem (item : Value) (k : string) : Result Value :=
  match item with
  | VDict d => dict_get k d
  | _ => Raise TypeError
  end.

(** [for value in item]. *)
Fixpoint chars (s : string) : list Value :=
  match s with
  | EmptyString => []
  | String c s' => VStr (String c EmptyString) :: chars s'
  end.

Definition py_iter (item : Value) : Result (list Value) :=
  match item with
  | VList l => Ok l
  | VDict d => Ok (map (fun kv => VStr (fst kv)) d)
  | VStr s => Ok (chars s)
  | VNone | VBool _ | VInt _ | VFloat _ => Raise TypeError
  end.

(* ===================================================================== *)
(** * Path resolver *)
(* ===================================================================== *)

(** [GraphBuilder._recursive_key_check].  The source pops the head of
    [keys] before recursing; the list is always a fresh result of [split]. *)
Fixpoint _recursive_key_check (keys : list string) (item : Value) : Result bool :=
  match keys with
  | [] => Raise IndexError
  | [k] => py_in k item
  | k :: (_ :: _) as rest =>
      present <- py_in k item ;;
      if present then
        sub <- py_getitem item k ;;
        _recursive_key_check rest sub
      else Ok false
  end.

(** [GraphBuilder._recursive_get_value]; Python's [None] is [VNone]. *)
Fixpoint _recursive_get_value (keys : list string) (item : Value) : Result Value :=
  match keys with
  | [] => Raise IndexError
  | [k] =>
      present <- py_in k item ;;
      if present then py_getitem item k else Ok VNone
  | k :: (_ :: _) as rest =>
      present <- py_in k item ;;
      if present then
        sub <- py_getitem item k ;;
        _recursive_get_value rest sub
      else Ok VNone
  end.

(* ===================================================================== *)
(** * Data model *)
(* ===================================================================== *)

(** ** The mapping (one entry of [properties] is [{key, type}]) *)

Record PropDef : Type := {
  pd_key : string;
  pd_type : string
}.

Record NodeDef : Type := {
  nd_id : string;
  nd_nodeType : string;
  nd_labels : list string;
  nd_required : bool;
  nd_properties : option (dict PropDef);
  nd_uniqueProperties : option (list string);
  nd_requiredProperties : option (list string);
  nd_uniqueLabels : option (list string);
  nd_iterator : option string
}.

Record RelationshipDef : Type := {
  rd_type : string;
  rd_relationshipType : string;
  rd_directionality : string;
  rd_sourceNode : string;
  rd_destinationNode : string;
  rd_required : bool;
  rd_unique : option bool;
  rd_properties : option (dict PropDef);
  rd_uniqueProperties : option (list string);
  rd_requiredProperties : option (list string)
}.

Record Mapping : Type := {
  m_index : string;
  m_docType : string;
  m_nodes : list NodeDef;
  m_relationships : list RelationshipDef
}.

(** ** Compiled nodes and relationships *)

Record PropertyValue : Type := {
  pv_value : Value;
  pv_type : string
}.

Definition Props := dict PropertyValue.

Record NodeInstance : Type := {
  ni_labels : list string;
  ni_uniqueLabels : option (list string);
  ni_properties : option Props;
  ni_uniqueProperties : option Props
}.

Record CompiledNode : Type := {
  cn_nodeType : string;
  cn_labels : list string;
  cn_id : string;
  cn_properties : option Props;
  cn_uniqueProperties : option Props;
  cn_uniqueLabels : option (list string);
  cn_instances : option (list NodeInstance)
}.

Record RelInstance : Type := {
  ri_type : string;
  ri_directionality : string;
  ri_unique : option bool;
  ri_properties : option Props;
  ri_uniqueProperties : option Props
}.

Record CompiledRelationship : Type := {
  cr_type : string;
  cr_relationshipType : string;
  cr_directionality : option string;
  cr_unique : option bool;
  cr_sourceNode : option CompiledNode;
  cr_destinationNode : option CompiledNode;
  cr_properties : option Props;
  cr_uniqueProperties : option Props;
  cr_instances : option (list RelInstance)
}.

(** [d[k]] on an optional field. *)
Definition field {A : Type} (name : string) (o : option A) : Result A :=
  match o with
  | Some a => Ok a
  | None => Raise (KeyError name)
  end.

(** ['f' in d and k in d['f']] for a field holding a list of names. *)
Definition listed (k : string) (o : option (list string)) : bool :=
  match o with
  | Some names => existsb (String.eqb k) names
  | None => false
  end.

(** A dictionary is stored under its key only when [len(d.keys()) > 0]. *)
Definition nonempty {A : Type} (l : list A) : option (list A) :=
  match l with
  | [] => None
  | _ :: _ => Some l
  end.

(* ===================================================================== *)
(** * Loops *)
(* ===================================================================== *)

(** The outcome of one iteration of a [for] body: fall through to the next
    element or [break]. *)
Inductive ctl (S : Type) : Type :=
| Next (s : S)
| Break (s : S).

Arguments Next {S} s.
Arguments Break {S} s.

Definition ctl_state {S : Type} (r : ctl S) : S :=
  match r with Next s => s | Break s => s end.

Fixpoint for_each {A S : Type} (body : S -> A -> Result (ctl S))
    (l : list A) (s : S) : Result S :=
  match l with
  | [] => Ok s
  | a :: l' =>
      r <- body s a ;;
      match r with
      | Next s' => for_each body l' s'
      | Break s' => Ok s'
      end
  end.

(* ===================================================================== *)
(** * Node compiler *)
(* ===================================================================== *)

(** Loop state of a property loop: [properties], [unique_properties],
    [valid]. *)
Definition PropState : Type := Props * Props * bool.

Definition lookup_property (doc : Value) (pd : PropDef) : Result PropertyValue :=
  v <- _recursive_get_value (split_dot (pd_key pd)) doc ;;
  Ok {| pv_value := v; pv_type := pd_type pd |}.

(** Body of the property loop of [_gen_standard_node] (lines 616-625).
    A missing required property clears [valid]; the loop goes on. *)
Definition standard_node_property (doc : Value) (node : NodeDef)
    (st : PropState) (kd : string * PropDef) : Result (ctl PropState) :=
  let '(properties, unique_properties, valid) := st in
  let (key, pd) := kd in
  present <- _recursive_key_check (split_dot (pd_key pd)) doc ;;
  if present then
    pv <- lookup_property doc pd ;;
    let properties := dict_set key pv properties in
    if listed key (nd_uniqueProperties node)
    then Ok (Next (properties, dict_set key pv unique_properties, valid))
    else Ok (Next (properties, unique_properties, valid))
  else if listed key (nd_requiredProperties node)
  then Ok (Next (properties, unique_properties, false))
  else Ok (Next (properties, unique_properties, valid)).

Definition _gen_standard_node (doc : Value) (node : NodeDef)
    (new_node : CompiledNode) : Result (CompiledNode * bool) :=
  '(properties, unique_properties, valid) <-
    match nd_properties node with
    | Some props => for_each (standard_node_property doc node) props ([], [], true)
    | None => Ok ([], [], true)
    end ;;
  if valid then
    Ok ({| cn_nodeType := cn_nodeType new_node;
           cn_labels := cn_labels new_node;
           cn_id := cn_id new_node;
           cn_properties :=
             match properties with [] => cn_properties new_node | _ => Some properties end;
           cn_uniqueProperties :=
             match unique_properties with
             | [] => cn_uniqueProperties new_node
             | _ => Some unique_properties
             end;
           cn_uniqueLabels :=
             match nd_uniqueLabels node with
             | Some ul => Some ul
             | None => cn_uniqueLabels new_node
             end;
           cn_instances := cn_instances new_node |}, true)
  else Ok (new_node, false).

(** Body of the property loop of [_gen_iterative_node] (lines 654-670):
    the document is consulted first, then the [ITER!] sentinel binds the
    current element; a missing required property breaks out. *)
Definition iterative_node_property (doc : Value) (node : NodeDef) (value : Value)
    (st : PropState) (kd : string * PropDef) : Result (ctl PropState) :=
  let '(properties, unique_properties, valid) := st in
  let (key, pd) := kd in
  present <- _recursive_key_check (split_dot (pd_key pd)) doc ;;
  if present then
    pv <- lookup_property doc pd ;;
    let properties := dict_set key pv properties in
    if listed key (nd_uniqueProperties node)
    then Ok (Next (properties, dict_set key pv unique_properties, valid))
    else Ok (Next (properties, unique_properties, valid))
  else if String.eqb (pd_key pd) "ITER!" then
    let pv := {| pv_value := value; pv_type := pd_type pd |} in
    let properties := dict_set key pv properties in
    if listed key (nd_uniqueProperties node)
    then Ok (Next (properties, dict_set key pv unique_properties, valid))
    else Ok (Next (properties, unique_properties, valid))
  else if listed key (nd_requiredProperties node)
  then Ok (Break (properties, unique_properties, false))
  else Ok (Next (properties, unique_properties, valid)).

(** Body of the element loop of [_gen_iterative_node] (lines 646-676). *)
Definition iterative_node_instance (doc : Value) (node : NodeDef)
    (node_list : list NodeInstance) (value : Value)
    : Result (ctl (list NodeInstance)) :=
  '(properties, unique_properties, valid) <-
    match nd_properties node with
    | Some props =>
        for_each (iterative_node_property doc node value) props ([], [], true)
    | None => Ok ([], [], true)
    end ;;
  if valid then
    Ok (Next (node_list ++
              [{| ni_labels := nd_labels node;
                  ni_uniqueLabels := nd_uniqueLabels node;
                  ni_properties := nonempty properties;
                  ni_uniqueProperties := nonempty unique_properties |}]))
  else Ok (Next node_list).

Definition _gen_iterative_node (doc : Value) (node : NodeDef)
    (new_node : CompiledNode) : Result (CompiledNode * bool) :=
  path <- field "iterator" (nd_iterator node) ;;
  present <- _recursive_key_check (split_dot path) doc ;;
  node_list <-
    (if present then
       arr <- _recursive_get_value (split_dot path) doc ;;
       values <- py_iter arr ;;
       for_each (iterative_node_instance doc node) values []
     else Ok []) ;;
  match node_list with
  | [] => Ok (new_node, false)
  | _ :: _ =>
      Ok ({| cn_nodeType := cn_nodeType new_node;
             cn_labels := cn_labels new_node;
             cn_id := cn_id new_node;
             cn_properties := cn_properties new_node;
             cn_uniqueProperties := cn_uniqueProperties new_node;
             cn_uniqueLabels := cn_uniqueLabels new_node;
             cn_instances := Some node_list |}, true)
  end.

(** Body of the loop of [_gen_nodes] (lines 589-601); the state is
    [(nodes, valid_doc)]. *)
Definition gen_nodes_body (doc : Value) (st : list CompiledNode * bool)
    (node : NodeDef) : Result (ctl (list CompiledNode * bool)) :=
  let (nodes, valid_doc) := st in
  let new_node :=
    {| cn_nodeType := nd_nodeType node; cn_labels := nd_labels node;
       cn_id := nd_id node; cn_properties := None; cn_uniqueProperties := None;
       cn_uniqueLabels := None; cn_instances := None |} in
  '(new_node, valid) <-
    (if String.eqb (nd_nodeType node) "standard" then
       _gen_standard_node doc node new_node
     else if String.eqb (nd_nodeType node) "iterator" then
       _gen_iterative_node doc node new_node
     else Ok (new_node, false)) ;;
  if valid then Ok (Next (nodes ++ [new_node], valid_doc))
  else if nd_required node then Ok (Break (nodes, false))
  else Ok (Next (nodes, valid_doc)).

Definition _gen_nodes (mapping : Mapping) (doc : Value)
    : Result (list CompiledNode * bool) :=
  for_each (gen_nodes_body doc) (m_nodes mapping) ([], true).

(* ===================================================================== *)
(** * Relationship compiler *)
(* ===================================================================== *)

(** Body of the property loop shared, word for word, by
    [_gen_standard_relationship] (lines 734-745) and
    [_gen_iterative_relationship] (lines 792-803).  The unique-property copy
    sits after the [if]/[elif], outside the "path present" branch: it reads
    [properties[key]] whether or not the key was just stored. *)
Definition relationship_property (doc : Value) (relationship : RelationshipDef)
    (st : PropState) (kd : string * PropDef) : Result (ctl PropState) :=
  let '(properties, unique_properties, valid) := st in
  let (key, pd) := kd in
  present <- _recursive_key_check (split_dot (pd_key pd)) doc ;;
  r <- (if present then
          pv <- lookup_property doc pd ;;
          Ok (Next (dict_set key pv properties))
        else if listed key (rd_requiredProperties relationship)
        then Ok (Break properties)
        else Ok (Next properties)) ;;
  match r with
  | Break properties => Ok (Break (properties, unique_properties, false))
  | Next properties =>
      if listed key (rd_uniqueProperties relationship) then
        pv <- dict_get key properties ;;
        Ok (Next (properties, dict_set key pv unique_properties, valid))
      else Ok (Next (properties, unique_properties, valid))
  end.

Definition relationship_properties (doc : Value) (relationship : RelationshipDef)
    : Result PropState :=
  match rd_properties relationship with
  | Some props => for_each (relationship_property doc relationship) props ([], [], true)
  | None => Ok ([], [], true)
  end.

(** The inner [for node in nodes] of the endpoint loop of
    [_gen_standard_relationship]: the last node with the wanted id wins. *)
Definition find_node (target : string) (nodes : list CompiledNode)
    : option CompiledNode :=
  fold_left
    (fun found node => if String.eqb (cn_id node) target then Some node else found)
    nodes None.

Definition _gen_standard_relationship (doc : Value) (relationship : RelationshipDef)
    (nodes : list CompiledNode) (new_relationship : CompiledRelationship)
    : Result (CompiledRelationship * bool) :=
  let source := find_node (rd_sourceNode relationship) nodes in
  let destination := find_node (rd_destinationNode relationship) nodes in
  let new_relationship :=
    {| cr_type := cr_type new_relationship;
       cr_relationshipType := cr_relationshipType new_relationship;
       cr_directionality := Some (rd_directionality relationship);
       cr_unique :=
         match rd_unique relationship with
         | Some u => Some u
         | None => cr_unique new_relationship
         end;
       cr_sourceNode :=
         match source with Some n => Some n | None => cr_sourceNode new_relationship end;
       cr_destinationNode :=
         match destination with
         | Some n => Some n
         | None => cr_destinationNode new_relationship
         end;
       cr_properties := cr_properties new_relationship;
       cr_uniqueProperties := cr_uniqueProperties new_relationship;
       cr_instances := cr_instances new_relationship |} in
  match source, destination with
  | Some _, Some _ =>
      '(properties, unique_properties, valid) <-
        relationship_properties doc relationship ;;
      if valid then
        Ok ({| cr_type := cr_type new_relationship;
               cr_relationshipType := cr_relationshipType new_relationship;
               cr_directionality := cr_directionality new_relationship;
               cr_unique := cr_unique new_relationship;
               cr_sourceNode := cr_sourceNode new_relationship;
               cr_destinationNode := cr_destinationNode new_relationship;
               cr_properties :=
                 match properties with
                 | [] => cr_properties new_relationship
                 | _ => Some properties
                 end;
               cr_uniqueProperties :=
                 match unique_properties with
                 | [] => cr_uniqueProperties new_relationship
                 | _ => Some unique_properties
                 end;
               cr_instances := cr_instances new_relationship |}, true)
      else Ok (new_relationship, false)
  | _, _ => Ok (new_relationship, false)
  end.

(** The inner [for node in nodes] of the endpoint loop of
    [_gen_iterative_relationship] (lines 767-773); the state is
    [(new_relationship[rel_node], iterative_nodes, iterative_node)]. *)
Definition IterScan : Type := option CompiledNode * nat * option CompiledNode.

Definition scan_node (target : string) (st : IterScan) (node : CompiledNode)
    : IterScan :=
  let '(found, iterative_nodes, iterative_node) := st in
  if String.eqb (cn_id node) target then
    if String.eqb (cn_nodeType node) "iterator"
    then (Some node, S iterative_nodes, Some node)
    else (Some node, iterative_nodes, iterative_node)
  else st.

Definition scan_nodes (target : string) (nodes : list CompiledNode)
    (iterative_nodes : nat) (iterative_node : option CompiledNode) : IterScan :=
  fold_left (scan_node target) nodes (None, iterative_nodes, iterative_node).

(** Body of [for i in range(0, len(iterative_node['instances']))]
    (lines 784-809). *)
Definition iterative_relationship_instance (doc : Value)
    (relationship : RelationshipDef) (instances : list RelInstance) (i : nat)
    : Result (ctl (list RelInstance)) :=
  '(properties, unique_properties, valid) <-
    relationship_properties doc relationship ;;
  if valid then
    Ok (Next (instances ++
              [{| ri_type := rd_type relationship;
                  ri_directionality := rd_directionality relationship;
                  ri_unique := rd_unique relationship;
                  ri_properties := nonempty properties;
                  ri_uniqueProperties := nonempty unique_properties |}]))
  else Ok (Next instances).

Definition _gen_iterative_relationship (doc : Value) (relationship : RelationshipDef)
    (nodes : list CompiledNode) (new_relationship : CompiledRelationship)
    : Result (CompiledRelationship * bool) :=
  let '(source, iterative_nodes, iterative_node) :=
    scan_nodes (rd_sourceNode relationship) nodes 0 None in
  let '(destination, iterative_nodes, iterative_node) :=
    scan_nodes (rd_destinationNode relationship) nodes iterative_nodes iterative_node in
  let new_relationship :=
    {| cr_type := cr_type new_relationship;
       cr_relationshipType := cr_relationshipType new_relationship;
       cr_directionality := cr_directionality new_relationship;
       cr_unique := cr_unique new_relationship;
       cr_sourceNode :=
         match source with Some n => Some n | None => cr_sourceNode new_relationship end;
       cr_destinationNode :=
         match destination with
         | Some n => Some n
         | None => cr_destinationNode new_relationship
         end;
       cr_properties := cr_properties new_relationship;
       cr_uniqueProperties := cr_uniqueProperties new_relationship;
       cr_instances := cr_instances new_relationship |} in
  let valid_iter :=
    match source, destination with
    | Some _, Some _ => Nat.eqb iterative_nodes 1
    | _, _ => false
    end in
  instances <-
    (if valid_iter then
       node <- match iterative_node with
               | Some n => Ok n
               | None => Raise TypeError
               end ;;
       node_instances <- field "instances" (cn_instances node) ;;
       for_each (iterative_relationship_instance doc relationship)
         (seq 0 (length node_instances)) []
     else Ok []) ;;
  match instances with
  | [] => Ok (new_relationship, false)
  | _ :: _ =>
      Ok ({| cr_type := cr_type new_relationship;
             cr_relationshipType := cr_relationshipType new_relationship;
             cr_directionality := cr_directionality new_relationship;
             cr_unique := cr_unique new_relationship;
             cr_sourceNode := cr_sourceNode new_relationship;
             cr_destinationNode := cr_destinationNode new_relationship;
             cr_properties := cr_properties new_relationship;
             cr_uniqueProperties := cr_uniqueProperties new_relationship;
             cr_instances := Some instances |}, valid_iter)
  end.

(** Body of the loop of [_gen_relationships] (lines 692-706). *)
Definition gen_relationships_body (doc : Value) (nodes : list CompiledNode)
    (st : list CompiledRelationship * bool) (relationship : RelationshipDef)
    : Result (ctl (list CompiledRelationship * bool)) :=
  let (relationships, valid_doc) := st in
  let new_relationship :=
    {| cr_type := rd_type relationship;
       cr_relationshipType := rd_relationshipType relationship;
       cr_directionality := None; cr_unique := None;
       cr_sourceNode := None; cr_destinationNode := None;
       cr_properties := None; cr_uniqueProperties := None;
       cr_instances := None |} in
  '(new_relationship, valid) <-
    (if String.eqb (rd_relationshipType relationship) "standard" then
       _gen_standard_relationship doc relationship nodes new_relationship
     else if String.eqb (rd_relationshipType relationship) "iterator" then
       _gen_iterative_relationship doc relationship nodes new_relationship
     else Ok (new_relationship, false)) ;;
  if valid then Ok (Next (relationships ++ [new_relationship], valid_doc))
  else if rd_required relationship then Ok (Break (relationships, false))
  else Ok (Next (relationships, valid_doc)).

Definition _gen_relationships (mapping : Mapping) (doc : Value)
    (nodes : list CompiledNode) : Result (list CompiledRelationship * bool) :=
  for_each (gen_relationships_body doc nodes) (m_relationships mapping) ([], true).

(* ===================================================================== *)
(** * Statement generator *)
(* ===================================================================== *)

Open Scope string_scope.

Definition dquote : string := String (Ascii.ascii_of_nat 34) EmptyString.

Fixpoint join (sep : string) (parts : list string) : string :=
  match parts with
  | [] => EmptyString
  | [p] => p
  | p :: (_ :: _) as rest => p ++ sep ++ join sep rest
  end.

(** [_get_missing_labels]. *)
Definition _get_missing_labels (labels unique_labels : list string) : list string :=
  filter (fun label => negb (existsb (String.eqb label) unique_labels)) labels.

(** [_get_missing_props], and the identical loop written inline in
    [_gen_standard_node_statements] (lines 136-139). *)
Definition _get_missing_props (properties unique_properties : Props) : Props :=
  fold_left
    (fun need_to_set kv =>
       if dict_mem (fst kv) unique_properties then need_to_set
       else dict_set (fst kv) (snd kv) need_to_set)
    properties [].

(** The loop of [_gen_iterator_node_statements] (lines 177-180): the value
    is read from [instance['uniqueProperties']], under the test that the key
    is not there. *)
Definition iterator_need_to_set (properties unique_properties : Props)
    : Result Props :=
  for_each
    (fun need_to_set kv =>
       if dict_mem (fst kv) unique_properties then Ok (Next need_to_set)
       else
         v <- dict_get (fst kv) unique_properties ;;
         Ok (Next (dict_set (fst kv) v need_to_set)))
    properties [].

(** [_gen_label_string]. *)
Definition _gen_label_string (labels : list string) : string :=
  fold_left (fun label_string label => label_string ++ ":" ++ label)
    labels EmptyString.

(** What the match and set clauses need of a node or of a node instance. *)
Record Endpoint : Type := {
  ep_labels : list string;
  ep_uniqueLabels : option (list string);
  ep_properties : option Props;
  ep_uniqueProperties : option Props
}.

Definition endpoint_of_node (n : CompiledNode) : Endpoint :=
  {| ep_labels := cn_labels n; ep_uniqueLabels := cn_uniqueLabels n;
     ep_properties := cn_properties n;
     ep_uniqueProperties := cn_uniqueProperties n |}.

Definition endpoint_of_instance (i : NodeInstance) : Endpoint :=
  {| ep_labels := ni_labels i; ep_uniqueLabels := ni_uniqueLabels i;
     ep_properties := ni_properties i;
     ep_uniqueProperties := ni_uniqueProperties i |}.

(** What the edge clause needs of a relationship or relationship instance. *)
Record Edge : Type := {
  ed_type : string;
  ed_directionality : string;
  ed_unique : option bool;
  ed_properties : option Props;
  ed_uniqueProperties : option Props
}.

Definition edge_of_instance (i : RelInstance) : Edge :=
  {| ed_type := ri_type i; ed_directionality := ri_directionality i;
     ed_unique := ri_unique i; ed_properties := ri_properties i;
     ed_uniqueProperties := ri_uniqueProperties i |}.

Definition match_labels (e : Endpoint) : list string :=
  match ep_uniqueLabels e with
  | Some unique_labels => unique_labels
  | None => ep_labels e
  end.

Section Statements.

(** Python's builtin [str] on a value that is not already a string (the
    text [format] substitutes for [{}]); a string is substituted as is. *)
Variable str_other : Value -> string.

Definition py_str (v : Value) : string :=
  match v with
  | VStr s => s
  | _ => str_other v
  end.

(** [_get_property_value], followed by the [format] of its result. *)
Definition _get_property_value (prop : PropertyValue) : string :=
  if String.eqb (pv_type prop) "number" then py_str (pv_value prop)
  else if String.eqb (pv_type prop) "datetime" then
    "datetime(" ++ dquote ++ py_str (pv_value prop) ++ dquote ++ ")"
  else if String.eqb (pv_type prop) "list" then py_str (pv_value prop)
  else dquote ++ py_str (pv_value prop) ++ dquote.

(** [_gen_properties_string]. *)
Definition _gen_properties_string (properties : Props)
    (dict_style match_logic : bool) (variable : string)
    (opening_statement : bool) : string :=
  if dict_style then
    " {" ++
    join ", "
      (map (fun kv => fst kv ++ ": " ++ _get_property_value (snd kv)) properties)
    ++ "}"
  else
    match properties with
    | [] => EmptyString
    | _ :: _ =>
        if match_logic
        then if opening_statement then " WHERE " else EmptyString
        else " SET "
    end ++
    join (if match_logic then " AND " else ", ")
      (map (fun kv =>
              variable ++ "." ++ fst kv ++ " = " ++ _get_property_value (snd kv))
         properties).

(** The trailing label clause of a node statement. *)
Definition set_labels (not_in_unique : list string) (after_set : bool) : string :=
  match not_in_unique with
  | [] => EmptyString
  | _ :: _ =>
      (if after_set then ", n" else "SET n") ++ _gen_label_string not_in_unique
  end.

Definition missing_labels (e : Endpoint) : list string :=
  match ep_uniqueLabels e with
  | Some unique_labels => _get_missing_labels (ep_labels e) unique_labels
  | None => []
  end.

(** The branch without [uniqueProperties], the same in
    [_gen_standard_node_statements] (lines 148-157) and
    [_gen_iterator_node_statements] (lines 190-199). *)
Definition plain_node_statement (e : Endpoint) : string :=
  (match ep_uniqueLabels e with
   | Some unique_labels => "MERGE (n" ++ _gen_label_string unique_labels
   | None => "CREATE (n" ++ _gen_label_string (ep_labels e)
   end) ++
  (match ep_properties e with
   | Some properties => _gen_properties_string properties true false "n" true
   | None => EmptyString
   end) ++ ")" ++ set_labels (missing_labels e) false.

(** The branch with [uniqueProperties], once [need_to_set] is known. *)
Definition merge_node_statement (e : Endpoint) (unique_properties need_to_set : Props)
    : string :=
  "MERGE (n" ++ _gen_label_string (match_labels e) ++
  _gen_properties_string unique_properties true false "n" true ++ ")" ++
  match need_to_set with
  | [] => set_labels (missing_labels e) false
  | _ :: _ =>
      _gen_properties_string need_to_set false false "n" true ++
      set_labels (missing_labels e) true
  end.

Definition _gen_standard_node_statements (node : CompiledNode)
    : Result (list string) :=
  match cn_uniqueProperties node with
  | Some unique_properties =>
      properties <- field "properties" (cn_properties node) ;;
      Ok [merge_node_statement (endpoint_of_node node) unique_properties
            (_get_missing_props properties unique_properties)]
  | None => Ok [plain_node_statement (endpoint_of_node node)]
  end.

Definition iterator_node_statement (statements : list string)
    (instance : NodeInstance) : Result (ctl (list string)) :=
  match ni_uniqueProperties instance with
  | Some unique_properties =>
      properties <- field "properties" (ni_properties instance) ;;
      need_to_set <- iterator_need_to_set properties unique_properties ;;
      Ok (Next (statements ++
                [merge_node_statement (endpoint_of_instance instance)
                   unique_properties need_to_set])%list)
  | None =>
      Ok (Next (statements ++
                [plain_node_statement (endpoint_of_instance instance)])%list)
  end.

Definition _gen_iterator_node_statements (node : CompiledNode)
    : Result (list string) :=
  instances <- field "instances" (cn_instances node) ;;
  for_each iterator_node_statement instances [].

Definition _gen_node_statements (nodes : list CompiledNode)
    : Result (list string) :=
  for_each
    (fun node_statements node =>
       statements <-
         (if String.eqb (cn_nodeType node) "iterator"
          then _gen_iterator_node_statements node
          else _gen_standard_node_statements node) ;;
       Ok (Next (node_statements ++ statements)%list))
    nodes [].

(** ** Relationship statements

    The three copies of the statement text in
    [_gen_standard_relationship_statements] and in the two branches of
    [_gen_iterative_relationship_statements] differ only in where the
    source endpoint, the destination endpoint and the edge come from. *)

(** The [WHERE] part for the source endpoint and [first_has_props]. *)
Definition source_where (s : Endpoint) : string * bool :=
  match ep_uniqueProperties s, ep_properties s with
  | Some unique_properties, _ =>
      (_gen_properties_string unique_properties false true "s" true, true)
  | None, Some properties =>
      (_gen_properties_string properties false true "s" true, true)
  | None, None => (EmptyString, false)
  end.

(** The [WHERE] part for the destination endpoint: with
    [uniqueProperties] present it is [properties] that is read. *)
Definition destination_where (d : Endpoint) (first_has_props : bool)
    : Result string :=
  match ep_uniqueProperties d, ep_properties d with
  | Some _, o =>
      properties <- field "properties" o ;;
      Ok (_gen_properties_string properties false true "d" (negb first_has_props))
  | None, Some properties =>
      Ok (_gen_properties_string properties false true "d" (negb first_has_props))
  | None, None => Ok EmptyString
  end.

Definition edge_clause (r : Edge) : Result string :=
  let unique :=
    match ed_unique r with Some u => u | None => false end
    || match ed_uniqueProperties r with Some _ => true | None => false end in
  let forward := String.eqb (ed_directionality r) ">" in
  '(need_to_set, arrow) <-
    match ed_uniqueProperties r with
    | Some unique_properties =>
        properties <- field "properties" (ed_properties r) ;;
        Ok (_get_missing_props properties unique_properties,
            (if forward then "-[r:" else "<-[r:") ++ ed_type r ++
            _gen_properties_string unique_properties true false "n" true ++
            (if forward then "]->(d)" else "]-(d)"))
    | None =>
        Ok ([],
            (if forward then "-[r:" else "<-[r:") ++ ed_type r ++
            (if forward then "]->(d)" else "]-(d)"))
    end ;;
  Ok ((if unique then " MERGE (s)" else " CREATE (s)") ++ arrow ++
      match need_to_set, unique, ed_properties r with
      | _ :: _, _, _ => _gen_properties_string need_to_set false false "r" true
      | [], false, Some properties =>
          _gen_properties_string properties false false "r" true
      | [], _, _ => EmptyString
      end).

Definition relationship_statement (s d : Endpoint) (r : Edge) : Result string :=
  let (s_where, first_has_props) := source_where s in
  d_where <- destination_where d first_has_props ;;
  edge <- edge_clause r ;;
  Ok ("MATCH " ++
      "(s" ++ _gen_label_string (match_labels s) ++ "), " ++
      "(d" ++ _gen_label_string (match_labels d) ++ ") " ++
      s_where ++ (if first_has_props then " AND " else EmptyString) ++
      d_where ++ edge).

Definition _gen_standard_relationship_statements
    (relationship : CompiledRelationship) : Result (list string) :=
  source <- field "sourceNode" (cr_sourceNode relationship) ;;
  destination <- field "destinationNode" (cr_destinationNode relationship) ;;
  directionality <- field "directionality" (cr_directionality relationship) ;;
  statement <-
    relationship_statement (endpoint_of_node source) (endpoint_of_node destination)
      {| ed_type := cr_type relationship;
         ed_directionality := directionality;
         ed_unique := cr_unique relationship;
         ed_properties := cr_properties relationship;
         ed_uniqueProperties := cr_uniqueProperties relationship |} ;;
  Ok [statement].

(** Statement of one zipped pair when the source node is the iterator. *)
Definition source_iterator_statement (relationship : CompiledRelationship)
    (pair : NodeInstance * RelInstance) : Result string :=
  let (node_instance, rel_instance) := pair in
  destination <- field "destinationNode" (cr_destinationNode relationship) ;;
  relationship_statement (endpoint_of_instance node_instance)
    (endpoint_of_node destination) (edge_of_instance rel_instance).

(** Statement of one zipped pair when the destination node is the
    iterator. *)
Definition destination_iterator_statement (relationship : CompiledRelationship)
    (pair : NodeInstance * RelInstance) : Result string :=
  let (node_instance, rel_instance) := pair in
  source <- field "sourceNode" (cr_sourceNode relationship) ;;
  relationship_statement (endpoint_of_node source)
    (endpoint_of_instance node_instance) (edge_of_instance rel_instance).

Definition append_statement {A : Type} (gen : A -> Result string)
    (statements : list string) (a : A) : Result (ctl (list string)) :=
  statement <- gen a ;;
  Ok (Next (statements ++ [statement])%list).

Definition _gen_iterative_relationship_statements
    (relationship : CompiledRelationship) : Result (list string) :=
  source <- field "sourceNode" (cr_sourceNode relationship) ;;
  if String.eqb (cn_nodeType source) "iterator" then
    node_instances <- field "instances" (cn_instances source) ;;
    rel_instances <- field "instances" (cr_instances relationship) ;;
    for_each (append_statement (source_iterator_statement relationship))
      (combine node_instances rel_instances) []
  else
    destination <- field "destinationNode" (cr_destinationNode relationship) ;;
    node_instances <- field "instances" (cn_instances destination) ;;
    rel_instances <- field "instances" (cr_instances relationship) ;;
    for_each (append_statement (destination_iterator_statement relationship))
      (combine node_instances rel_instances) [].

Definition _gen_relationship_statements (relationships : list CompiledRelationship)
    : Result (list string) :=
  for_each
    (fun relationship_statements relationship =>
       statements <-
         (if String.eqb (cr_relationshipType relationship) "iterator"
          then _gen_iterative_relationship_statements relationship
          else _gen_standard_relationship_statements relationship) ;;
       Ok (Next (relationship_statements ++ statements)%list))
    relationships [].

Definition _gen_statements (nodes : list CompiledNode)
    (relationships : list CompiledRelationship)
    : Result (list string * list string) :=
  node_statements <- _gen_node_statements nodes ;;
  relationship_statements <- _gen_relationship_statements relationships ;;
  Ok (node_statements, relationship_statements).
End Statements.

Open Scope list_scope.

(* ===================================================================== *)
(** * Document pipeline *)
(* ===================================================================== *)

Section Pipeline.

Variable mapping : Mapping.

(** The processor modules found at construction time, in registration
    order: [module.pre_process_doc], [module.post_process_nodes] and
    [module.post_process_relationships].  A module is taken as a function
    of its argument that returns or raises; the [deepcopy] handed to it is
    the value itself. *)
Variable pre_modules : list (Value -> Result Value).
Variable post_node_modules :
  list (list CompiledNode -> Result (list CompiledNode)).
Variable post_relationship_modules :
  list (list CompiledRelationship -> Result (list CompiledRelationship)).

Definition run_modules {A : Type} (modules : list (A -> Result A)) (x : A)
    : Result A :=
  for_each (fun x module => y <- module x ;; Ok (Next y)) modules x.

Definition _pre_process_doc (doc : Value) : Result Value :=
  run_modules pre_modules doc.

Definition _post_process_nodes (nodes : list CompiledNode)
    : Result (list CompiledNode) :=
  run_modules post_node_modules nodes.

Definition _post_process_relationships (relationships : list CompiledRelationship)
    : Result (list CompiledRelationship) :=
  run_modules post_relationship_modules relationships.

(** Body of [for doc in data] of [_process] (lines 529-542); the state is
    [(nodes, relationships)]. *)
Definition process_doc (st : list CompiledNode * list CompiledRelationship)
    (hit : Value)
    : Result (ctl (list CompiledNode * list CompiledRelationship)) :=
  let (nodes, relationships) := st in
  source <- py_getitem hit "_source" ;;
  doc <- _pre_process_doc source ;;
  '(doc_nodes, nodes_valid) <- _gen_nodes mapping doc ;;
  if nodes_valid then
    doc_nodes <- _post_process_nodes doc_nodes ;;
    '(doc_relationships, rels_valid) <- _gen_relationships mapping doc doc_nodes ;;
    if rels_valid then
      doc_relationships <- _post_process_relationships doc_relationships ;;
      Ok (Next (nodes ++ doc_nodes, relationships ++ doc_relationships))
    else Ok (Next (nodes, relationships))
  else Ok (Next (nodes, relationships)).

Definition _process (data : list Value)
    : Result (list CompiledNode * list CompiledRelationship) :=
  for_each process_doc data ([], []).

End Pipeline.

(* ===================================================================== *)
(** * Statement executor *)
(* ===================================================================== *)

Inductive Level : Type := DEBUG | INFO | ERROR.

Section Executor.

(** The graph store behind [session.write_transaction(self._run_statement,
    statement)]: a state, and one call that either returns a result row or
    raises. *)
Variable Sink : Type.
Variable Row : Type.
Variable write_transaction : Sink -> string -> Sink * Result Row.

Inductive Message : Type :=
| Executing (node_statements relationship_statements : nat)
| ExecutingStatement (statement : string)
| ExecutionResult (result : Row).

Record ExecState : Type := {
  sink : Sink;
  log : list (Level * Message)
}.

Definition logger (level : Level) (m : Message) (st : ExecState) : ExecState :=
  {| sink := sink st; log := log st ++ [(level, m)] |}.

(** One of the two [for statement in ...] loops of [_execute_statements];
    there is no [try] around the call. *)
Fixpoint execute_loop (statements : list string) (st : ExecState)
    : ExecState * Result unit :=
  match statements with
  | [] => (st, Ok tt)
  | statement :: rest =>
      let st := logger DEBUG (ExecutingStatement statement) st in
      let (sink', result) := write_transaction (sink st) statement in
      let st := {| sink := sink'; log := log st |} in
      match result with
      | Ok row => execute_loop rest (logger DEBUG (ExecutionResult row) st)
      | Raise e => (st, Raise e)
      end
  end.

Definition _execute_statements (node_statements relationship_statements : list string)
    (st : ExecState) : ExecState * Result unit :=
  let st :=
    logger INFO
      (Executing (length node_statements) (length relationship_statements)) st in
  match execute_loop node_statements st with
  | (st, Ok _) => execute_loop relationship_statements st
  | (st, Raise e) => (st, Raise e)
  end.

(** The statements handed to the sink, in order, as the log records
    them. *)
Definition submitted (l : list (Level * Message)) : list string :=
  flat_map
    (fun r => match snd r with ExecutingStatement s => [s] | _ => [] end) l.

Definition reported (l : list (Level * Message)) : bool :=
  existsb (fun r => match fst r with ERROR => true | _ => false end) l.

End Executor.

Arguments ExecutingStatement {Row} statement.
Arguments Executing {Row} node_statements relationship_statements.

(* ===================================================================== *)
(** * Mapping loader ([elastic2neo.py]) *)
(* ===================================================================== *)

(** What [full_load(open(mapping_file).read())] comes to. *)
Inductive FileContents : Type :=
| Parsed (mapping : Mapping)
| IOError
| YAMLError.

Inductive Loaded : Type :=
| Returned (mapping : Mapping)
| Exit (code : Z).

(** [_load_mapping]: between the parse and the [return] stands only
    [# TODO: mapping file validation]. *)
Definition _load_mapping (mapping_file : FileContents) : Loaded :=
  match mapping_file with
  | Parsed mapping => Returned mapping
  | IOError => Exit 1
  | YAMLError => Exit 1
  end.

(* ===================================================================== *)
(** * Vocabulary of the properties *)
(* ===================================================================== *)


Definition keys {V : Type} (d : dict V) : list string := map fst d.

(** ** Documents declared invalid *)

(** Node compilation returned [valid_doc = False], or it succeeded and
    relationship compilation, run on the post-processed nodes, returned
    [valid_doc = False]. *)
Definition declared_invalid (mapping : Mapping)
    (post_node_modules : list (list CompiledNode -> Result (list CompiledNode)))
    (doc : Value) : Prop :=
  (exists nodes, _gen_nodes mapping doc = Ok (nodes, false)) \/
  (exists nodes nodes' relationships,
      _gen_nodes mapping doc = Ok (nodes, true) /\
      _post_process_nodes post_node_modules nodes = Ok nodes' /\
      _gen_relationships mapping doc nodes' = Ok (relationships, false)).

(** ** Paths that do not lead to a value *)

Inductive fault : Type :=
| Missing          (* a segment is not a key of the record reached so far *)
| NotTraversable.  (* the value reached so far is null, a boolean or a number *)

(** The first obstacle met when walking [path] down [item] through nested
    records, if the walk stops at a missing key or on a scalar. *)
Fixpoint path_fault (path : list string) (item : Value) : option fault :=
  match path with
  | [] => None
  | k :: rest =>
      match item with
      | VDict d =>
          match dict_lookup k d with
          | None => Some Missing
          | Some sub => path_fault rest sub
          end
      | VNone | VBool _ | VInt _ | VFloat _ => Some NotTraversable
      | VStr _ | VList _ => None
      end
  end.

(** ** Node references of a mapping *)

Definition node_ids (mapping : Mapping) : list string :=
  map nd_id (m_nodes mapping).

Definition defined_in (mapping : Mapping) (node_id : string) : bool :=
  existsb (String.eqb node_id) (node_ids mapping).

Definition dangling (mapping : Mapping) (relationship : RelationshipDef) : bool :=
  negb (defined_in mapping (rd_sourceNode relationship)) ||
  negb (defined_in mapping (rd_destinationNode relationship)).

Definition has_dangling_reference (mapping : Mapping) : bool :=
  existsb (dangling mapping) (m_relationships mapping).

(** ** A node declaring what a relationship declares *)

Definition node_like (relationship : RelationshipDef) : NodeDef :=
  {| nd_id := rd_type relationship; nd_nodeType := "standard";
     nd_labels := []; nd_required := rd_required relationship;
     nd_properties := rd_properties relationship;
     nd_uniqueProperties := rd_uniqueProperties relationship;
     nd_requiredProperties := rd_requiredProperties relationship;
     nd_uniqueLabels := None; nd_iterator := None |}.

(** ** Merge statements as the specification words them *)

(** A node statement uses MERGE when uniqueness metadata exists. *)
Definition uses_merge (e : Endpoint) : bool :=
  match ep_uniqueProperties e, ep_uniqueLabels e with
  | None, None => false
  | _, _ => true
  end.

Definition non_unique (properties unique_properties : Props) : Props :=
  filter (fun kv => negb (dict_mem (fst kv) unique_properties)) properties.

Definition or_empty {A : Type} (o : option (list A)) : list A :=
  match o with
  | Some l => l
  | None => []
  end.

Open Scope string_scope.

(** The statement as specified: the pattern holds [uniqueLabels] (else all
    labels) and [uniqueProperties] only; every other property follows in a
    SET clause, then the labels outside [uniqueLabels]. *)
Definition specified_merge_statement (str_other : Value -> string) (e : Endpoint)
    : string :=
  let unique_properties := or_empty (ep_uniqueProperties e) in
  let need_to_set := non_unique (or_empty (ep_properties e)) unique_properties in
  "MERGE (n" ++ _gen_label_string (match_labels e) ++
  _gen_properties_string str_other unique_properties true false "n" true ++ ")" ++
  _gen_properties_string str_other need_to_set false false "n" true ++
  set_labels (missing_labels e)
    (match need_to_set with [] => false | _ :: _ => true end).

(** The statement as generated: as specified when [uniqueProperties] is
    there; merged on [uniqueLabels] with every property inside the pattern
    when it is not. *)
Definition designed_merge_statement (str_other : Value -> string) (e : Endpoint)
    : string :=
  match ep_uniqueProperties e with
  | Some _ => specified_merge_statement str_other e
  | None =>
      "MERGE (n" ++ _gen_label_string (match_labels e) ++
      match ep_properties e with
      | Some properties =>
          _gen_properties_string str_other properties true false "n" true
      | None => EmptyString
      end ++ ")" ++ set_labels (missing_labels e) false
  end.

Open Scope list_scope.

(** ** ITER! binding as the specification words it *)

(** Instance [i] carries [key] bound to element [i]. *)
Definition bound_to_elements (key : string) (elements : list Value)
    (instances : list RelInstance) : Prop :=
  Forall2
    (fun element instance =>
       exists pv,
         dict_lookup key (or_empty (ri_properties instance)) = Some pv /\
         pv_value pv = element)
    elements instances.

(** ** Statement [i] of an iterator relationship *)

Definition is_iterator (node : CompiledNode) : bool :=
  String.eqb (cn_nodeType node) "iterator".




Open Scope string_scope.






Open Scope list_scope.

(** The instance every iteration of [_gen_iterative_relationship] builds. *)
Definition instance_of (relationship : RelationshipDef)
    (properties unique_properties : Props) : RelInstance :=
  {| ri_type := rd_type relationship;
     ri_directionality := rd_directionality relationship;
     ri_unique := rd_unique relationship;
     ri_properties := nonempty properties;
     ri_uniqueProperties := nonempty unique_properties |}.

(* ===================================================================== *)
(** * Sample mappings and documents *)
(* ===================================================================== *)

From Stdlib Require Import DecimalString.

(** [str] on null, booleans and integers, for the samples below (which hold
    no other non-string value). *)
Definition str_scalar (v : Value) : string :=
  match v with
  | VNone => "None"
  | VBool true => "True"
  | VBool false => "False"
  | VInt z => NilZero.string_of_int (Z.to_int z)
  | _ => EmptyString
  end.

Definition prop (key type : string) : PropDef :=
  {| pd_key := key; pd_type := type |}.

Definition text (s : string) : PropertyValue :=
  {| pv_value := VStr s; pv_type := "string" |}.

Definition hit (source : list (string * Value)) : Value :=
  VDict [("_source", VDict source)].

Definition blank_node (node : NodeDef) : CompiledNode :=
  {| cn_nodeType := nd_nodeType node; cn_labels := nd_labels node;
     cn_id := nd_id node; cn_properties := None; cn_uniqueProperties := None;
     cn_uniqueLabels := None; cn_instances := None |}.

Definition blank_relationship (relationship : RelationshipDef)
    : CompiledRelationship :=
  {| cr_type := rd_type relationship;
     cr_relationshipType := rd_relationshipType relationship;
     cr_directionality := None; cr_unique := None;
     cr_sourceNode := None; cr_destinationNode := None;
     cr_properties := None; cr_uniqueProperties := None;
     cr_instances := None |}.

(** A person with a required name and an optional city at [address.city]. *)
Definition person_def : NodeDef :=
  {| nd_id := "person"; nd_nodeType := "standard"; nd_labels := ["Person"];
     nd_required := true;
     nd_properties :=
       Some [("name", prop "name" "string"); ("city", prop "address.city" "string")];
     nd_uniqueProperties := Some ["name"];
     nd_requiredProperties := Some ["name"];
     nd_uniqueLabels := None; nd_iterator := None |}.

(** One tag node per element of [tags], each bound to its element. *)
Definition tag_def : NodeDef :=
  {| nd_id := "tag"; nd_nodeType := "iterator"; nd_labels := ["Tag"];
     nd_required := false;
     nd_properties := Some [("tag", prop "ITER!" "string")];
     nd_uniqueProperties := Some ["tag"];
     nd_requiredProperties := None;
     nd_uniqueLabels := None; nd_iterator := Some "tags" |}.

(** person -[TAGGED]-> tag, one per tag, declaring the same [ITER!]
    property as the tag node. *)
Definition tagged_def : RelationshipDef :=
  {| rd_type := "TAGGED"; rd_relationshipType := "iterator";
     rd_directionality := ">"; rd_sourceNode := "person";
     rd_destinationNode := "tag"; rd_required := false; rd_unique := Some true;
     rd_properties := Some [("tag", prop "ITER!" "string")];
     rd_uniqueProperties := None; rd_requiredProperties := None |}.

(** person -[WORKS_AT]-> company; no node of the mapping is called
    [company]. *)
Definition dangling_def : RelationshipDef :=
  {| rd_type := "WORKS_AT"; rd_relationshipType := "standard";
     rd_directionality := ">"; rd_sourceNode := "person";
     rd_destinationNode := "company"; rd_required := false; rd_unique := None;
     rd_properties := None;
     rd_uniqueProperties := None; rd_requiredProperties := None |}.

(** person -[KNOWS]-> person, with [since] declared unique and not
    required. *)
Definition knows_def : RelationshipDef :=
  {| rd_type := "KNOWS"; rd_relationshipType := "standard";
     rd_directionality := ">"; rd_sourceNode := "person";
     rd_destinationNode := "person"; rd_required := false; rd_unique := None;
     rd_properties := Some [("since", prop "since" "number")];
     rd_uniqueProperties := Some ["since"]; rd_requiredProperties := None |}.

(** The node declaring what [knows_def] declares. *)
Definition since_def : NodeDef :=
  {| nd_id := "since"; nd_nodeType := "standard"; nd_labels := ["Since"];
     nd_required := false;
     nd_properties := Some [("since", prop "since" "number")];
     nd_uniqueProperties := Some ["since"];
     nd_requiredProperties := None;
     nd_uniqueLabels := None; nd_iterator := None |}.

Definition tags_mapping : Mapping :=
  {| m_index := "people"; m_docType := "_doc";
     m_nodes := [person_def; tag_def]; m_relationships := [tagged_def] |}.

Definition dangling_mapping : Mapping :=
  {| m_index := "people"; m_docType := "_doc";
     m_nodes := [person_def]; m_relationships := [dangling_def] |}.

Definition ann : list (string * Value) :=
  [("name", VStr "Ann"); ("tags", VList [VStr "x"; VStr "y"])].

Definition bob : list (string * Value) :=
  [("name", VStr "Bob"); ("tags", VList [VStr "z"])].

(** No [name]: the required person node cannot be compiled. *)
Definition nameless : list (string * Value) :=
  [("tags", VList [VStr "x"])].

(** No [name], and [address] is a number, not a record. *)
Definition nameless_flat_address : list (string * Value) :=
  [("address", VInt 5)].

Definition ann_person : CompiledNode :=
  {| cn_nodeType := "standard"; cn_labels := ["Person"]; cn_id := "person";
     cn_properties := Some [("name", text "Ann")];
     cn_uniqueProperties := Some [("name", text "Ann")];
     cn_uniqueLabels := None; cn_instances := None |}.

Definition tag_instance (t : string) : NodeInstance :=
  {| ni_labels := ["Tag"]; ni_uniqueLabels := None;
     ni_properties := Some [("tag", text t)];
     ni_uniqueProperties := Some [("tag", text t)] |}.

Definition ann_tags : CompiledNode :=
  {| cn_nodeType := "iterator"; cn_labels := ["Tag"]; cn_id := "tag";
     cn_properties := None; cn_uniqueProperties := None;
     cn_uniqueLabels := None;
     cn_instances := Some [tag_instance "x"; tag_instance "y"] |}.

(** A person merged on the label [Person] alone. *)
Definition labelled_person : CompiledNode :=
  {| cn_nodeType := "standard"; cn_labels := ["Person"; "Employee"];
     cn_id := "person";
     cn_properties := Some [("name", text "Ann")];
     cn_uniqueProperties := None;
     cn_uniqueLabels := Some ["Person"]; cn_instances := None |}.

(** A person merged on [name], with [city] to be set. *)
Definition located_person : CompiledNode :=
  {| cn_nodeType := "standard"; cn_labels := ["Person"]; cn_id := "person";
     cn_properties := Some [("name", text "Ann"); ("city", text "Oslo")];
     cn_uniqueProperties := Some [("name", text "Ann")];
     cn_uniqueLabels := None; cn_instances := None |}.

(** The same, as an instance of an iterator node. *)
Definition located_instance : NodeInstance :=
  {| ni_labels := ["Person"]; ni_uniqueLabels := None;
     ni_properties := Some [("name", text "Ann"); ("city", text "Oslo")];
     ni_uniqueProperties := Some [("name", text "Ann")] |}.

(** What [tagged_def] compiles to for Ann. *)
Definition tagged_instance : RelInstance :=
  {| ri_type := "TAGGED"; ri_directionality := ">"; ri_unique := Some true;
     ri_properties := None; ri_uniqueProperties := None |}.

Definition ann_tagged : CompiledRelationship :=
  {| cr_type := "TAGGED"; cr_relationshipType := "iterator";
     cr_directionality := None; cr_unique := None;
     cr_sourceNode := Some ann_person; cr_destinationNode := Some ann_tags;
     cr_properties := None; cr_uniqueProperties := None;
     cr_instances := Some [tagged_instance; tagged_instance] |}.

(** A sink that records what it ran and refuses the statement [B]. *)
Definition refusing_sink (ran : list string) (statement : string)
    : list string * Result unit :=
  if String.eqb statement "B" then (ran, Raise (DriverError "SyntaxError"))
  else (ran ++ [statement], Ok tt).

(* ===================================================================== *)
(** * More of Python: [len] and truth values *)
(* ===================================================================== *)

(** [len(item)]. *)
Definition py_len (item : Value) : Result nat :=
  match item with
  | VList l => Ok (length l)
  | VDict d => Ok (length d)
  | VStr s => Ok (String.length s)
  | VNone | VBool _ | VInt _ | VFloat _ => Raise TypeError
  end.

(** The truth value [if item:] tests; a float is false when it is [0.0] or
    [-0.0]. *)
Definition py_truthy (item : Value) : bool :=
  match item with
  | VNone => false
  | VBool b => b
  | VInt z => negb (Z.eqb z 0)
  | VFloat bits => negb (Z.eqb bits 0 || Z.eqb bits (2 ^ 63))
  | VStr s => negb (String.eqb s EmptyString)
  | VList l => match l with [] => false | _ :: _ => true end
  | VDict d => match d with [] => false | _ :: _ => true end
  end.

(** [all(k in item for k in names)], left to right, stopping at the first
    [False]. *)
Fixpoint all_in (names : list string) (item : Value) : Result bool :=
  match names with
  | [] => Ok true
  | k :: names' =>
      present <- py_in k item ;;
      if present then all_in names' item else Ok false
  end.

(* ===================================================================== *)
(** * [GraphBuilder.build] *)
(* ===================================================================== *)

Section Build.

Variable mapping : Mapping.
Variable pre_modules : list (Value -> Result Value).
Variable post_node_modules :
  list (list CompiledNode -> Result (list CompiledNode)).
Variable post_relationship_modules :
  list (list CompiledRelationship -> Result (list CompiledRelationship)).
Variable str_other : Value -> string.
Variable Sink : Type.
Variable Row : Type.
Variable write_transaction : Sink -> string -> Sink * Result Row.

(** The statements of a batch: [_process], then [_gen_statements].
    [data] is what [scroll] returned; [for doc in data] iterates it. *)
Definition batch_statements (data : Value) : Result (list string * list string) :=
  docs <- py_iter data ;;
  ' (nodes, relationships) <-
    _process mapping pre_modules post_node_modules post_relationship_modules docs ;;
  _gen_statements str_other nodes relationships.

(** [build], on a builder that owns a driver. *)
Definition build (data : Value) (execute : bool) (st : ExecState Sink Row)
    : ExecState Sink Row * Result unit :=
  match batch_statements data with
  | Raise e => (st, Raise e)
  | Ok (node_statements, relationship_statements) =>
      if execute
      then _execute_statements write_transaction node_statements
             relationship_statements st
      else (st, Ok tt)
  end.

End Build.

(* ===================================================================== *)
(** * The index scroller ([elastic.py]) *)
(* ===================================================================== *)

Record ElasticScroller : Type := {
  es_index : string;
  es_doc_type : Value;
  es_size : Value;
  es_body : Value;
  es_sid : Value
}.

Inductive ScrollMessage : Type :=
| IndexDoesNotExist (index : string)
| HitsOnScroll (hits : nat) (index : string)
| NoScrollId
| LoggedResponse (data : Value).

Section Scroller.

(** The search service behind [self._es]: a state and the three calls made
    on it.  [search] receives the index, the document type when one is set,
    the size and the body; [scroll_api] receives the scroll id. *)
Variable Es : Type.
Variable indices_exists : Es -> string -> Es * Result bool.
Variable search : Es -> string -> option Value -> Value -> Value -> Es * Result Value.
Variable scroll_api : Es -> Value -> Es * Result Value.

Record ScrollState : Type := {
  client : Es;
  scroller : ElasticScroller;
  scroll_log : list (Level * ScrollMessage)
}.

Definition scroll_logger (level : Level) (m : ScrollMessage) (st : ScrollState)
    : ScrollState :=
  {| client := client st; scroller := scroller st;
     scroll_log := scroll_log st ++ [(level, m)] |}.

Definition with_client (c : Es) (st : ScrollState) : ScrollState :=
  {| client := c; scroller := scroller st; scroll_log := scroll_log st |}.

Definition with_sid (sid : Value) (st : ScrollState) : ScrollState :=
  {| client := client st;
     scroller :=
       {| es_index := es_index (scroller st);
          es_doc_type := es_doc_type (scroller st);
          es_size := es_size (scroller st);
          es_body := es_body (scroller st);
          es_sid := sid |};
     scroll_log := scroll_log st |}.

(** [ElasticScroller._init_scroll]. *)
Definition _init_scroll (st : ScrollState) : ScrollState * Result Value :=
  let (c, found) := indices_exists (client st) (es_index (scroller st)) in
  let st := with_client c st in
  match found with
  | Raise e => (st, Raise e)
  | Ok false =>
      (scroll_logger ERROR (IndexDoesNotExist (es_index (scroller st))) st, Ok VNone)
  | Ok true =>
      let (c, data) :=
        search (client st) (es_index (scroller st))
          (if py_truthy (es_doc_type (scroller st))
           then Some (es_doc_type (scroller st)) else None)
          (es_size (scroller st)) (es_body (scroller st)) in
      (with_client c st, data)
  end.

(** [ElasticScroller.scroll]. *)
Definition scroll (st : ScrollState) : ScrollState * Result Value :=
  let (st, response) :=
    if negb (py_truthy (es_sid (scroller st))) then _init_scroll st
    else
      let (c, data) := scroll_api (client st) (es_sid (scroller st)) in
      (with_client c st, data) in
  match response with
  | Raise e => (st, Raise e)
  | Ok data =>
      match py_in "_scroll_id" data with
      | Raise e => (st, Raise e)
      | Ok true =>
          match py_getitem data "_scroll_id" with
          | Raise e => (st, Raise e)
          | Ok sid =>
              let st := with_sid sid st in
              match (outer <- py_getitem data "hits" ;;
                     hits <- py_getitem outer "hits" ;;
                     n <- py_len hits ;;
                     Ok (hits, n)) with
              | Raise e => (st, Raise e)
              | Ok (hits, n) =>
                  (scroll_logger DEBUG (HitsOnScroll n (es_index (scroller st))) st,
                   Ok hits)
              end
          end
      | Ok false =>
          (with_sid VNone
             (scroll_logger DEBUG (LoggedResponse data)
                (scroll_logger ERROR NoScrollId st)),
           Ok VNone)
      end
  end.

End Scroller.

(* ===================================================================== *)
(** * The polling loop ([elastic2neo._execute]) *)
(* ===================================================================== *)

Inductive RunEvent : Type :=
| ScrollingIndex
| BuildingGraph
| ScrollWasEmpty (minutes : Z)
| Slept (seconds : Z)
| Complete.

Section Execute.

Variable mapping : Mapping.
Variable pre_modules : list (Value -> Result Value).
Variable post_node_modules :
  list (list CompiledNode -> Result (list CompiledNode)).
Variable post_relationship_modules :
  list (list CompiledRelationship -> Result (list CompiledRelationship)).
Variable str_other : Value -> string.
Variable Sink : Type.
Variable Row : Type.
Variable write_transaction : Sink -> string -> Sink * Result Row.
Variable close_driver : Sink -> Sink.
Variable Es : Type.
Variable indices_exists : Es -> string -> Es * Result bool.
Variable search : Es -> string -> option Value -> Value -> Value -> Es * Result Value.
Variable scroll_api : Es -> Value -> Es * Result Value.

Record Run : Type := {
  run_scroller : ScrollState Es;
  run_builder : ExecState Sink Row;
  run_events : list RunEvent
}.

Definition event (e : RunEvent) (r : Run) : Run :=
  {| run_scroller := run_scroller r; run_builder := run_builder r;
     run_events := run_events r ++ [e] |}.

Definition scroller_scroll (r : Run) : Run * Result Value :=
  let (s, data) := scroll indices_exists search scroll_api (run_scroller r) in
  ({| run_scroller := s; run_builder := run_builder r;
      run_events := run_events r |}, data).

Definition builder_build (data : Value) (execute : bool) (r : Run)
    : Run * Result unit :=
  let (b, outcome) :=
    build mapping pre_modules post_node_modules post_relationship_modules
      str_other write_transaction data execute (run_builder r) in
  ({| run_scroller := run_scroller r; run_builder := b;
      run_events := run_events r |}, outcome).

(** [builder.close()], then [logger.info("complete")]: the [finally]. *)
Definition finally (r : Run) : Run :=
  event Complete
    {| run_scroller := run_scroller r;
       run_builder :=
         {| sink := close_driver (sink (run_builder r));
            log := log (run_builder r) |};
       run_events := run_events r |}.

(** [while 1:] of [_execute]; [None] when [fuel] iterations did not reach
    the end of the loop. *)
Fixpoint polling (fuel : nat) (execute : bool) (sleep_delay : Z)
    (end_after_empty : bool) (r : Run) : option (Run * Result unit) :=
  match fuel with
  | O => None
  | S fuel' =>
      let (r, scrolled) := scroller_scroll (event ScrollingIndex r) in
      match scrolled with
      | Raise e => Some (r, Raise e)
      | Ok data =>
          match py_len data with
          | Raise e => Some (r, Raise e)
          | Ok (S _) =>
              let (r, built) := builder_build data execute (event BuildingGraph r) in
              match built with
              | Raise e => Some (r, Raise e)
              | Ok _ => polling fuel' execute sleep_delay end_after_empty r
              end
          | Ok O =>
              if end_after_empty then Some (r, Ok tt)
              else
                polling fuel' execute sleep_delay end_after_empty
                  (event (Slept (sleep_delay * 60))
                     (event (ScrollWasEmpty sleep_delay) r))
          end
      end
  end.

(** [_execute].  The interrupt signal is outside the model: no modelled call
    raises [KeyboardInterrupt], so its handler is never entered. *)
Definition _execute (fuel : nat) (scroll_forever execute : bool) (sleep_delay : Z)
    (end_after_empty : bool) (r : Run) : option (Run * Result unit) :=
  match
    (if scroll_forever
     then polling fuel execute sleep_delay end_after_empty r
     else
       let (r, scrolled) := scroller_scroll (event ScrollingIndex r) in
       match scrolled with
       | Raise e => Some (r, Raise e)
       | Ok data => Some (builder_build data execute (event BuildingGraph r))
       end)
  with
  | None => None
  | Some (r, outcome) => Some (finally r, outcome)
  end.

End Execute.

(* ===================================================================== *)
(** * Start-up ([elastic2neo.py]) *)
(* ===================================================================== *)

Definition REQUIRED_CONFIG_VALUES : list string := ["elastic"; "neo"].
Definition REQUIRED_ES_CONFIG_VALUES : list string :=
  ["host"; "port"; "protocol"; "scrollSize"; "sleepMin"].
Definition REQUIRED_NEO_CONFIG_VALUES : list string :=
  ["host"; "port"; "protocol"; "user"; "password"].

(** The arguments [_setup_objects] hands to [ElasticScroller(...)] and to
    [GraphBuilder(...)]; the mapping is what the YAML loader returned. *)
Record ScrollerArgs : Type := {
  sa_host : Value;
  sa_port : Value;
  sa_index : Value;
  sa_doc_type : Value;
  sa_https : bool;
  sa_http_auth : option (Value * Value);
  sa_size : Value
}.

Record BuilderArgs : Type := {
  ba_uri : string;
  ba_user : Value;
  ba_password : Value;
  ba_mapping : Value;
  ba_execute : bool
}.

(** How [_setup_objects] ends: with the two objects, with [exit(code)], or
    with an exception. *)
Inductive Setup (S B : Type) : Type :=
| Objects (scroller : S) (builder : B)
| SystemExit (code : Z)
| SetupRaised (e : exn).

Arguments Objects {S B} scroller builder.
Arguments SystemExit {S B} code.
Arguments SetupRaised {S B} e.

Definition setup_bind {A S B : Type} (c : Result A) (k : A -> Setup S B)
    : Setup S B :=
  match c with
  | Ok a => k a
  | Raise e => SetupRaised e
  end.

Section Setup.

Variable str_other : Value -> string.

(** The classes [ElasticScroller] and [GraphBuilder] as [_setup_objects]
    uses them: a call returns the object or raises (the search client and
    the graph driver are created there, and the processor modules
    loaded). *)
Variable ScrollerObject : Type.
Variable BuilderObject : Type.
Variable new_ElasticScroller : ScrollerArgs -> Result ScrollerObject.
Variable new_GraphBuilder : BuilderArgs -> Result BuilderObject.

Open Scope string_scope.

(** [_setup_objects].  The arguments of a call are evaluated from left to
    right before the call; the scroller is built before the [neo] section
    is looked at.  The records written to the logger before each [exit(1)]
    are left out. *)
Definition _setup_objects (config mapping : Value) (execute : bool)
    : Setup ScrollerObject BuilderObject :=
  setup_bind (all_in REQUIRED_CONFIG_VALUES config) (fun sections =>
  if sections then
    setup_bind (py_getitem config "elastic") (fun elastic =>
    setup_bind (all_in REQUIRED_ES_CONFIG_VALUES elastic) (fun es_keys =>
    if es_keys then
      setup_bind (py_getitem elastic "protocol") (fun es_protocol =>
      let https := is_str "https" es_protocol in
      setup_bind (all_in ["user"; "password"] elastic) (fun auth_required =>
      setup_bind (py_getitem elastic "host") (fun es_host =>
      setup_bind (py_getitem elastic "port") (fun es_port =>
      setup_bind (py_getitem mapping "index") (fun index =>
      setup_bind (py_getitem mapping "docType") (fun doc_type =>
      setup_bind
        (if auth_required then
           user <- py_getitem elastic "user" ;;
           password <- py_getitem elastic "password" ;;
           Ok (Some (user, password))
         else Ok None) (fun http_auth =>
      setup_bind (py_getitem elastic "scrollSize") (fun size =>
      setup_bind
        (new_ElasticScroller
           {| sa_host := es_host; sa_port := es_port;
              sa_index := index; sa_doc_type := doc_type;
              sa_https := https; sa_http_auth := http_auth;
              sa_size := size |}) (fun scroller =>
      setup_bind (py_getitem config "neo") (fun neo =>
      setup_bind (all_in REQUIRED_NEO_CONFIG_VALUES neo) (fun neo_keys =>
      if neo_keys then
        setup_bind (py_getitem neo "protocol") (fun protocol =>
        setup_bind (py_getitem neo "host") (fun host =>
        setup_bind (py_getitem neo "port") (fun port =>
        setup_bind (py_getitem neo "user") (fun user =>
        setup_bind (py_getitem neo "password") (fun password =>
        setup_bind
          (new_GraphBuilder
             {| ba_uri :=
                  py_str str_other protocol ++ "://" ++ py_str str_other host ++
                  ":" ++ py_str str_other port;
                ba_user := user; ba_password := password;
                ba_mapping := mapping; ba_execute := execute |}) (fun builder =>
        Objects scroller builder))))))
      else SystemExit 1)))))))))))
    else SystemExit 1))
  else SystemExit 1).

End Setup.

Open Scope list_scope.

(** The settings [main] keeps while it reads the options. *)
Record Settings : Type := {
  debug : bool;
  enable_file : bool;
  log_file : string;
  config_file : string;
  mapping_file : string;
  scroll_forever : bool;
  execute_statements : bool;
  end_after_empty : bool
}.

Definition default_settings : Settings :=
  {| debug := false; enable_file := false; log_file := "e2n.log";
     config_file := "config.yaml"; mapping_file := "mapping.yaml";
     scroll_forever := true; execute_statements := true;
     end_after_empty := false |}.

(** The options [getopt] can return for the option string of [main]. *)
Definition MAIN_SHORT_OPTIONS : string := "dfF:C:M:onh".

Inductive Read : Type :=
| Settled (s : Settings)
| Exits (code : Z).

(** Body of [for opt, arg in opts] of [main] (lines 202-225). *)
Definition read_option (s : Settings) (opt arg : string) : Read :=
  if String.eqb opt "-h" then Exits 0
  else if String.eqb opt "-d" then
    Settled {| debug := true; enable_file := enable_file s; log_file := log_file s;
               config_file := config_file s; mapping_file := mapping_file s;
               scroll_forever := scroll_forever s;
               execute_statements := execute_statements s;
               end_after_empty := end_after_empty s |}
  else if String.eqb opt "-f" then
    Settled {| debug := debug s; enable_file := true; log_file := log_file s;
               config_file := config_file s; mapping_file := mapping_file s;
               scroll_forever := scroll_forever s;
               execute_statements := execute_statements s;
               end_after_empty := end_after_empty s |}
  else if String.eqb opt "-F" then
    if enable_file s then
      Settled {| debug := debug s; enable_file := enable_file s;
                 log_file := log_file s;
                 config_file := config_file s; mapping_file := arg;
                 scroll_forever := scroll_forever s;
                 execute_statements := execute_statements s;
                 end_after_empty := end_after_empty s |}
    else Exits 1
  else if String.eqb opt "-C" then
    Settled {| debug := debug s; enable_file := enable_file s;
               log_file := log_file s;
               config_file := arg; mapping_file := mapping_file s;
               scroll_forever := scroll_forever s;
               execute_statements := execute_statements s;
               end_after_empty := end_after_empty s |}
  else if String.eqb opt "-M" then
    Settled {| debug := debug s; enable_file := enable_file s;
               log_file := log_file s;
               config_file := config_file s; mapping_file := arg;
               scroll_forever := scroll_forever s;
               execute_statements := execute_statements s;
               end_after_empty := end_after_empty s |}
  else if String.eqb opt "-o" then
    Settled {| debug := debug s; enable_file := enable_file s;
               log_file := log_file s;
               config_file := config_file s; mapping_file := mapping_file s;
               scroll_forever := false;
               execute_statements := execute_statements s;
               end_after_empty := end_after_empty s |}
  else if String.eqb opt "-n" then
    Settled {| debug := debug s; enable_file := enable_file s;
               log_file := log_file s;
               config_file := config_file s; mapping_file := mapping_file s;
               scroll_forever := scroll_forever s;
               execute_statements := false;
               end_after_empty := end_after_empty s |}
  else if String.eqb opt "-e" then
    Settled {| debug := debug s; enable_file := enable_file s;
               log_file := log_file s;
               config_file := config_file s; mapping_file := mapping_file s;
               scroll_forever := scroll_forever s;
               execute_statements := execute_statements s;
               end_after_empty := true |}
  else Settled s.

(** The option loop of [main], on the pairs [getopt] returned. *)
Fixpoint read_options (opts : list (string * string)) (s : Settings) : Read :=
  match opts with
  | [] => Settled s
  | (opt, arg) :: opts' =>
      match read_option s opt arg with
      | Settled s' => read_options opts' s'
      | Exits code => Exits code
      end
  end.

(* ===================================================================== *)
(** * Vocabulary of the further properties *)
(* ===================================================================== *)

(** The value met by walking [path] down nested records. *)
Fixpoint reach (path : list string) (item : Value) : option Value :=
  match path with
  | [] => Some item
  | k :: rest =>
      match item with
      | VDict d =>
          match dict_lookup k d with
          | Some sub => reach rest sub
          | None => None
          end
      | _ => None
      end
  end.

(** [k in item] holds and [item] is a list or a string. *)
Definition member_of_sequence (k : string) (item : Value) : bool :=
  match item with
  | VList l => existsb (is_str k) l
  | VStr s => str_contains k s
  | _ => false
  end.

(** Every entry of [unique] is an entry of [properties]. *)
Definition within (unique properties : option Props) : Prop :=
  forall k pv,
    dict_lookup k (or_empty unique) = Some pv ->
    dict_lookup k (or_empty properties) = Some pv.

Definition node_unique_within (n : CompiledNode) : Prop :=
  within (cn_uniqueProperties n) (cn_properties n) /\
  forall i, In i (or_empty (cn_instances n)) ->
            within (ni_uniqueProperties i) (ni_properties i).

Definition relationship_unique_within (r : CompiledRelationship) : Prop :=
  within (cr_uniqueProperties r) (cr_properties r) /\
  forall i, In i (or_empty (cr_instances r)) ->
            within (ri_uniqueProperties i) (ri_properties i).

(** Loop invariant of the property loops: what [unique_properties] holds
    is listed as unique and is what [properties] holds under that name. *)
Definition copies_listed (names : option (list string)) (st : PropState) : Prop :=
  forall k pv,
    dict_lookup k (snd (fst st)) = Some pv ->
    listed k names = true /\ dict_lookup k (fst (fst st)) = Some pv.

(** What [gen_nodes_body] compiles for one node definition. *)
Definition compile_node (doc : Value) (node : NodeDef)
    : Result (CompiledNode * bool) :=
  if String.eqb (nd_nodeType node) "standard" then
    _gen_standard_node doc node (blank_node node)
  else if String.eqb (nd_nodeType node) "iterator" then
    _gen_iterative_node doc node (blank_node node)
  else Ok (blank_node node, false).

Definition with_nodes (mapping : Mapping) (nodes : list NodeDef) : Mapping :=
  {| m_index := m_index mapping; m_docType := m_docType mapping;
     m_nodes := nodes; m_relationships := m_relationships mapping |}.

Definition without_properties (r : CompiledRelationship) : CompiledRelationship :=
  {| cr_type := cr_type r; cr_relationshipType := cr_relationshipType r;
     cr_directionality := cr_directionality r; cr_unique := cr_unique r;
     cr_sourceNode := cr_sourceNode r;
     cr_destinationNode := cr_destinationNode r;
     cr_properties := None; cr_uniqueProperties := cr_uniqueProperties r;
     cr_instances := cr_instances r |}.

(** The keyword a node statement opens with. *)
Definition opening (e : Endpoint) : string :=
  if uses_merge e then "MERGE (n" else "CREATE (n".

(** The property loop of one element of an iterator node. *)
Definition instance_properties (doc : Value) (node : NodeDef) (value : Value)
    : Result PropState :=
  match nd_properties node with
  | Some props =>
      for_each (iterative_node_property doc node value) props ([], [], true)
  | None => Ok ([], [], true)
  end.

(** The response [scroll] works on: a first search when no scroll id is
    stored, the next page of the stored scroll otherwise. *)
Definition fetch {Es : Type}
    (indices_exists : Es -> string -> Es * Result bool)
    (search : Es -> string -> option Value -> Value -> Value -> Es * Result Value)
    (scroll_api : Es -> Value -> Es * Result Value)
    (st : ScrollState Es) : ScrollState Es * Result Value :=
  if negb (py_truthy (es_sid (scroller st))) then _init_scroll indices_exists search st
  else
    let (c, data) := scroll_api (client st) (es_sid (scroller st)) in
    (with_client c st, data).

(** The options an option string of single letters declares. *)
Fixpoint short_options (spec : string) : list string :=
  match spec with
  | EmptyString => []
  | String c spec' =>
      if Ascii.eqb c ":" then short_options spec'
      else String "-" (String c EmptyString) :: short_options spec'
  end.

(** A record-shaped section of the configuration holding every name. *)
Definition has_all (names : list string) (section : list (string * Value)) : bool :=
  forallb (fun k => dict_mem k section) names.

(** ** More samples *)

(** A search service that knows no index. *)
Definition no_index (calls : list string) (index : string)
    : list string * Result bool :=
  (calls ++ ["exists"], Ok false).

Definition canned_search (response : Value) (calls : list string)
    (index : string) (doc_type : option Value) (size body : Value)
    : list string * Result Value :=
  (calls ++ ["search"], Ok response).

Definition canned_scroll (response : Value) (calls : list string) (sid : Value)
    : list string * Result Value :=
  (calls ++ ["scroll"], Ok response).

Definition people_scroller : ElasticScroller :=
  {| es_index := "people"; es_doc_type := VStr "_doc"; es_size := VInt 1000;
     es_body := VDict []; es_sid := VNone |}.

Definition fresh_scroll : ScrollState (list string) :=
  {| client := []; scroller := people_scroller; scroll_log := [] |}.

(** A response carrying a scroll id and Ann's document. *)
Definition first_page : Value :=
  VDict [("_scroll_id", VStr "c2Nyb2xs");
         ("hits", VDict [("hits", VList [hit ann])])].

(** A response carrying Ann's document and no scroll id. *)
Definition page_without_id : Value :=
  VDict [("hits", VDict [("hits", VList [hit ann])])].

Definition accepting_sink (ran : list string) (statement : string)
    : list string * Result unit :=
  (ran ++ [statement], Ok tt).

(** The mapping file as loaded: a record with [index] and [docType]. *)
Definition people_mapping_file : Value :=
  VDict [("index", VStr "people"); ("docType", VStr "_doc");
         ("nodes", VList []); ("relationships", VList [])].

Definition full_config : Value :=
  VDict
    [("elastic",
      VDict [("host", VStr "es"); ("port", VInt 9200); ("protocol", VStr "https");
             ("scrollSize", VInt 500); ("sleepMin", VInt 15)]);
     ("neo",
      VDict [("host", VStr "db"); ("port", VInt 7687); ("protocol", VStr "bolt");
             ("user", VStr "neo4j"); ("password", VStr "secret")])].

(** Ann with [address] a record: the person node carries [city] too. *)
Definition ann_in_oslo : list (string * Value) :=
  [("name", VStr "Ann"); ("address", VDict [("city", VStr "Oslo")])].

(** One tag node per element of [tags], unique on the tag, carrying the
    name of the document as [owner]. *)
Definition owned_tag_def : NodeDef :=
  {| nd_id := "tag"; nd_nodeType := "iterator"; nd_labels := ["Tag"];
     nd_required := false;
     nd_properties :=
       Some [("tag", prop "ITER!" "string"); ("owner", prop "name" "string")];
     nd_uniqueProperties := Some ["tag"];
     nd_requiredProperties := None;
     nd_uniqueLabels := None; nd_iterator := Some "tags" |}.

Definition owned_tags_mapping : Mapping :=
  {| m_index := "people"; m_docType := "_doc";
     m_nodes := [owned_tag_def]; m_relationships := [] |}.

Definition owned_tag_instance (t : string) : NodeInstance :=
  {| ni_labels := ["Tag"]; ni_uniqueLabels := None;
     ni_properties := Some [("tag", text t); ("owner", text "Ann")];
     ni_uniqueProperties := Some [("tag", text t)] |}.

Definition ann_owned_tags : CompiledNode :=
  {| cn_nodeType := "iterator"; cn_labels := ["Tag"]; cn_id := "tag";
     cn_properties := None; cn_uniqueProperties := None;
     cn_uniqueLabels := None;
     cn_instances := Some [owned_tag_instance "x"; owned_tag_instance "y"] |}.

(** person -[KNOWS]-> person, unique by flag, with a [since] property. *)
Definition flagged_knows : CompiledRelationship :=
  {| cr_type := "KNOWS"; cr_relationshipType := "standard";
     cr_directionality := Some ">"; cr_unique := Some true;
     cr_sourceNode := Some ann_person; cr_destinationNode := Some ann_person;
     cr_properties :=
       Some [("since", {| pv_value := VInt 2020; pv_type := "number" |})];
     cr_uniqueProperties := None; cr_instances := None |}.

(** Ann's document with [since], and what [knows_def] compiles to for it. *)
Definition ann_since : list (string * Value) :=
  [("name", VStr "Ann"); ("since", VInt 2020)].

Definition ann_knows : CompiledRelationship :=
  {| cr_type := "KNOWS"; cr_relationshipType := "standard";
     cr_directionality := Some ">"; cr_unique := None;
     cr_sourceNode := Some ann_person; cr_destinationNode := Some ann_person;
     cr_properties :=
       Some [("since", {| pv_value := VInt 2020; pv_type := "number" |})];
     cr_uniqueProperties :=
       Some [("since", {| pv_value := VInt 2020; pv_type := "number" |})];
     cr_instances := None |}.

(** person -[KNOWS]-> person, declared between two standard nodes but typed
    as an iterator relationship. *)
Definition knows_iterator_def : RelationshipDef :=
  {| rd_type := "KNOWS"; rd_relationshipType := "iterator";
     rd_directionality := ">"; rd_sourceNode := "person";
     rd_destinationNode := "person"; rd_required := false; rd_unique := None;
     rd_properties := None;
     rd_uniqueProperties := None; rd_requiredProperties := None |}.

(** Ann's document with tags and [since]. *)
Definition ann_tagging : list (string * Value) :=
  [("name", VStr "Ann"); ("since", VInt 2020);
   ("tags", VList [VStr "x"; VStr "y"])].

(** person -[TAGGED]-> tag, one per tag, carrying the name of the document
    as [by], unique on it, and [since]. *)
Definition tagged_by_def : RelationshipDef :=
  {| rd_type := "TAGGED"; rd_relationshipType := "iterator";
     rd_directionality := ">"; rd_sourceNode := "person";
     rd_destinationNode := "tag"; rd_required := false; rd_unique := None;
     rd_properties :=
       Some [("by", prop "name" "string"); ("since", prop "since" "number")];
     rd_uniqueProperties := Some ["by"]; rd_requiredProperties := None |}.

Definition tagged_by_instance : RelInstance :=
  {| ri_type := "TAGGED"; ri_directionality := ">"; ri_unique := None;
     ri_properties :=
       Some [("by", text "Ann");
             ("since", {| pv_value := VInt 2020; pv_type := "number" |})];
     ri_uniqueProperties := Some [("by", text "Ann")] |}.

Definition ann_tagged_by : CompiledRelationship :=
  {| cr_type := "TAGGED"; cr_relationshipType := "iterator";
     cr_directionality := None; cr_unique := None;
     cr_sourceNode := Some ann_person; cr_destinationNode := Some ann_tags;
     cr_properties := None; cr_uniqueProperties := None;
     cr_instances := Some [tagged_by_instance; tagged_by_instance] |}.

Definition acquaintance_mapping : Mapping :=
  {| m_index := "people"; m_docType := "_doc";
     m_nodes := [person_def; tag_def];
     m_relationships := [knows_def; tagged_by_def] |}.




(* ===================================================================== *)
(** * Basic facts *)
(* ===================================================================== *)

Unset Implicit Arguments.

Lemma bind_Ok {A B : Type} (c : Result A) (k : A -> Result B) (b : B) :
  bind c k = Ok b -> exists a, c = Ok a /\ k a = Ok b.
Proof.
  destruct c as [a|e]; simpl; intros H; [eauto | discriminate].
Qed.

(** Split a hypothesis [x <- c ;; k = Ok b] into its two runs. *)
Ltac bind_inv H :=
  let a := fresh "a" in
  let Ha := fresh "Ha" in
  apply bind_Ok in H; destruct H as (a & Ha & H).

Tactic Notation "bind_split" hyp(H) "as" ident(a) ident(Ha) :=
  apply bind_Ok in H; destruct H as (a & Ha & H).

Lemma for_each_app_Next {A S : Type} (body : S -> A -> Result (ctl S))
    (l1 l2 : list A) (s : S) :
  (forall s a, In a l1 -> forall s', body s a <> Ok (Break s')) ->
  for_each body (l1 ++ l2) s = (s' <- for_each body l1 s ;; for_each body l2 s').
Proof.
  revert s; induction l1 as [|a l1 IH]; intros s Hnb; simpl; [reflexivity|].
  destruct (body s a) as [[s'|s']|e] eqn:E; simpl.
  - apply IH. intros; apply Hnb; right; assumption.
  - exfalso. apply (Hnb s a (or_introl eq_refl) s'). exact E.
  - reflexivity.
Qed.

Lemma dict_mem_false {V : Type} (k : string) (d : dict V) :
  dict_mem k d = false <-> dict_lookup k d = None.
Proof.
  unfold dict_mem. destruct (dict_lookup k d); split; congruence.
Qed.

Lemma dict_lookup_In {V : Type} (k : string) (v : V) (d : dict V) :
  dict_lookup k d = Some v -> In (k, v) d.
Proof.
  induction d as [|[k' v'] d IH]; simpl; [discriminate|].
  destruct (String.eqb_spec k k') as [->|Hne]; intros H.
  - injection H as ->. left; reflexivity.
  - right; apply IH; assumption.
Qed.

Lemma dict_lookup_not_key {V : Type} (k : string) (d : dict V) :
  ~ In k (keys d) -> dict_lookup k d = None.
Proof.
  induction d as [|[k' v'] d IH]; simpl; [reflexivity|]. intros Hn.
  destruct (String.eqb_spec k k') as [->|Hne]; [exfalso; apply Hn; left; reflexivity|].
  apply IH. intros Hin; apply Hn; right; exact Hin.
Qed.

Lemma dict_lookup_key {V : Type} (k : string) (d : dict V) :
  dict_lookup k d <> None -> In k (keys d).
Proof.
  intros H. destruct (in_dec string_dec k (keys d)) as [Hin|Hn]; [exact Hin|].
  exfalso; apply H, dict_lookup_not_key; exact Hn.
Qed.

Lemma dict_lookup_NoDup {V : Type} (k : string) (v : V) (d : dict V) :
  NoDup (keys d) -> In (k, v) d -> dict_lookup k d = Some v.
Proof.
  induction d as [|[k' v'] d IH]; simpl; [intros _ []|].
  intros Hnd [Heq|Hin]; inversion Hnd as [|? ? Hnotin Hnd']; subst.
  - injection Heq as -> ->. rewrite String.eqb_refl. reflexivity.
  - destruct (String.eqb_spec k k') as [->|Hne].
    + exfalso. apply Hnotin. change (In (fst (k', v)) (map fst d)).
      apply in_map. exact Hin.
    + apply IH; assumption.
Qed.

Lemma dict_set_fresh {V : Type} (k : string) (v : V) (d : dict V) :
  ~ In k (keys d) -> dict_set k v d = d ++ [(k, v)].
Proof.
  induction d as [|[k' v'] d IH]; simpl; [reflexivity|]. intros Hn.
  destruct (String.eqb_spec k k') as [->|Hne]; [exfalso; apply Hn; left; reflexivity|].
  rewrite IH; [reflexivity|]. intros Hin; apply Hn; right; exact Hin.
Qed.

Lemma dict_lookup_set {V : Type} (k k' : string) (v : V) (d : dict V) :
  dict_lookup k' (dict_set k v d) =
  if String.eqb k' k then Some v else dict_lookup k' d.
Proof.
  induction d as [|[k0 v0] d IH]; simpl.
  - destruct (String.eqb k' k); reflexivity.
  - destruct (String.eqb_spec k k0) as [->|Hne]; simpl.
    + destruct (String.eqb k' k0); reflexivity.
    + rewrite IH. destruct (String.eqb_spec k' k0) as [->|Hne'].
      * destruct (String.eqb_spec k0 k) as [->|_]; [contradiction Hne|]; reflexivity.
      * reflexivity.
Qed.

(* ===================================================================== *)
(** * Path resolver *)
(* ===================================================================== *)

Lemma path_fault_nonempty (path : list string) (item : Value) (f : fault) :
  path_fault path item = Some f -> path <> [].
Proof. destruct path; simpl; [discriminate | intros _; discriminate]. Qed.

(** A path that stops at a key missing from the record reached so far
    makes [_recursive_key_check] return [False] and [_recursive_get_value]
    return [None], and neither raises; a path that runs into null, a boolean
    or a number makes both raise [TypeError]. *)
Lemma path_fault_outcome (path : list string) (item : Value) (f : fault) :
  path_fault path item = Some f ->
  _recursive_key_check path item =
    match f with Missing => Ok false | NotTraversable => Raise TypeError end /\
  _recursive_get_value path item =
    match f with Missing => Ok VNone | NotTraversable => Raise TypeError end.
Proof.
  revert item; induction path as [|k rest IH]; intros item H; [discriminate|].
  destruct item as [| b | z | bits | s | l | d];
    try (injection H as <-; destruct rest; split; reflexivity);
    try discriminate.
  simpl in H. destruct (dict_lookup k d) as [sub|] eqn:L.
  - pose proof (path_fault_nonempty _ _ _ H) as Hne.
    destruct rest as [|k2 rest']; [contradiction Hne; reflexivity|].
    specialize (IH sub H).
    change (_recursive_key_check (k :: k2 :: rest') (VDict d))
      with (present <- py_in k (VDict d) ;;
            if present then sub <- py_getitem (VDict d) k ;;
                            _recursive_key_check (k2 :: rest') sub
            else Ok false).
    change (_recursive_get_value (k :: k2 :: rest') (VDict d))
      with (present <- py_in k (VDict d) ;;
            if present then sub <- py_getitem (VDict d) k ;;
                            _recursive_get_value (k2 :: rest') sub
            else Ok VNone).
    simpl. unfold dict_mem, dict_get. rewrite L. simpl. exact IH.
  - injection H as <-.
    destruct rest as [|k2 rest']; simpl; unfold dict_mem; rewrite L; split; reflexivity.
Qed.

(** C6, at the failing input.  With [address] a number, the intermediate
    segment of [address.city] is not a record: the existence check and the
    retrieval both raise [TypeError], where their docstrings promise a bool
    and the value or [None].  With [address] absent, or a string, they
    return [False] and [None] as claimed. *)
Theorem key_check_raises_on_scalar :
  _recursive_key_check (split_dot "address.city") (VDict nameless_flat_address)
    = Raise TypeError /\
  _recursive_get_value (split_dot "address.city") (VDict nameless_flat_address)
    = Raise TypeError /\
  _recursive_key_check (split_dot "address.city") (VDict ann) = Ok false /\
  _recursive_get_value (split_dot "address.city") (VDict ann) = Ok VNone /\
  _recursive_key_check (split_dot "name.city") (VDict ann) = Ok false /\
  _recursive_get_value (split_dot "name.city") (VDict ann) = Ok VNone.
Proof. repeat split; reflexivity. Qed.

(* ===================================================================== *)
(** * Loop invariants *)
(* ===================================================================== *)

Lemma for_each_invariant {A S : Type} (P : S -> Prop)
    (body : S -> A -> Result (ctl S)) (l : list A) :
  (forall s a r, In a l -> P s -> body s a = Ok r -> P (ctl_state r)) ->
  forall s s', P s -> for_each body l s = Ok s' -> P s'.
Proof.
  induction l as [|a l IH]; intros Hbody s s' Hs H; simpl in H.
  - injection H as <-. exact Hs.
  - bind_inv H.
    pose proof (Hbody s a a0 (or_introl eq_refl) Hs Ha) as Hstep.
    destruct a0 as [s1|s1]; simpl in Hstep.
    + apply (IH (fun s a r Hin => Hbody s a r (or_intror Hin)) s1 s' Hstep H).
    + injection H as <-. exact Hstep.
Qed.

(* ===================================================================== *)
(** * Node compiler *)
(* ===================================================================== *)

Lemma standard_node_property_never_breaks doc node st kd st' :
  standard_node_property doc node st kd <> Ok (Break st').
Proof.
  destruct st as [[p u] v], kd as [key pd]. unfold standard_node_property.
  destruct (_recursive_key_check (split_dot (pd_key pd)) doc) as [[|]|e]; simpl;
    try discriminate.
  - destruct (lookup_property doc pd); simpl; [|discriminate].
    destruct (listed key (nd_uniqueProperties node)); discriminate.
  - destruct (listed key (nd_requiredProperties node)); discriminate.
Qed.

(** Every declared property of a standard node is evaluated, in order,
    whatever the earlier ones came to. *)
Lemma standard_node_properties_all_evaluated doc node props1 props2 st :
  for_each (standard_node_property doc node) (props1 ++ props2) st =
  (st' <- for_each (standard_node_property doc node) props1 st ;;
   for_each (standard_node_property doc node) props2 st').
Proof.
  apply for_each_app_Next. intros s a _ s'.
  apply standard_node_property_never_breaks.
Qed.

(** C2, at the failing input.  [name] is required and absent, yet the
    standard node compiler goes on to [address.city] and raises there; the
    property loop of the iterator node compiler stops at [name] on the same
    declarations and document. *)
Theorem standard_node_keeps_evaluating :
  _recursive_key_check (split_dot "name") (VDict nameless_flat_address) = Ok false /\
  listed "name" (nd_requiredProperties person_def) = true /\
  _gen_standard_node (VDict nameless_flat_address) person_def (blank_node person_def)
    = Raise TypeError /\
  for_each (iterative_node_property (VDict nameless_flat_address) person_def VNone)
    (or_empty (nd_properties person_def)) ([], [], true)
    = Ok ([], [], false).
Proof. repeat split; reflexivity. Qed.

Lemma gen_standard_node_id doc node new_node n valid :
  _gen_standard_node doc node new_node = Ok (n, valid) -> cn_id n = cn_id new_node.
Proof.
  unfold _gen_standard_node. intros H. bind_inv H.
  destruct a as [[p u] [|]]; injection H as <- _; reflexivity.
Qed.

Lemma gen_iterative_node_id doc node new_node n valid :
  _gen_iterative_node doc node new_node = Ok (n, valid) -> cn_id n = cn_id new_node.
Proof.
  unfold _gen_iterative_node. intros H. do 3 bind_inv H.
  destruct a1; injection H as <- _; reflexivity.
Qed.

(** The nodes compiled from a document carry ids of the mapping. *)
Lemma gen_nodes_ids mapping doc nodes valid :
  _gen_nodes mapping doc = Ok (nodes, valid) ->
  forall n, In n nodes -> In (cn_id n) (node_ids mapping).
Proof.
  unfold _gen_nodes. intros H.
  refine (for_each_invariant
            (fun st => forall n, In n (fst st) -> In (cn_id n) (node_ids mapping))
            (gen_nodes_body doc) (m_nodes mapping) _ ([], true) (nodes, valid) _ H).
  - intros [ns vd] node r Hin Hinv Hbody. unfold gen_nodes_body in Hbody.
    bind_inv Hbody. destruct a as [n' [|]].
    + injection Hbody as <-. simpl. intros n Hn. apply in_app_or in Hn.
      destruct Hn as [Hn|[<-|[]]]; [apply Hinv; exact Hn|].
      assert (cn_id n' = nd_id node) as ->.
      { destruct (String.eqb (nd_nodeType node) "standard").
        - apply gen_standard_node_id in Ha. exact Ha.
        - destruct (String.eqb (nd_nodeType node) "iterator").
          + apply gen_iterative_node_id in Ha. exact Ha.
          + injection Ha as <-. reflexivity. }
      unfold node_ids. apply in_map. exact Hin.
    + destruct (nd_required node); injection Hbody as <-; exact Hinv.
  - intros n [].
Qed.

(** Pairwise distinct node ids in the mapping give pairwise distinct ids
    among the nodes compiled from a document. *)
Lemma gen_nodes_ids_NoDup mapping doc nodes valid :
  NoDup (node_ids mapping) ->
  _gen_nodes mapping doc = Ok (nodes, valid) ->
  NoDup (map cn_id nodes).
Proof.
  unfold _gen_nodes, node_ids. intros Hnd.
  assert (NoDup (map cn_id (@nil CompiledNode) ++ map nd_id (m_nodes mapping)))
    as Hinv by exact Hnd.
  revert Hinv. clear Hnd. generalize (@nil CompiledNode). generalize true.
  induction (m_nodes mapping) as [|a l IH]; intros vd ns Hinv H; simpl in H.
  - injection H as <- _. rewrite app_nil_r in Hinv. exact Hinv.
  - bind_split H as step Hstep. unfold gen_nodes_body in Hstep.
    bind_split Hstep as compiled Hcompiled. destruct compiled as [n v].
    assert (NoDup (map cn_id ns ++ map nd_id l)) as Hdrop.
    { simpl in Hinv. apply NoDup_remove_1 in Hinv. exact Hinv. }
    assert (NoDup (map cn_id ns)) as Hns.
    { apply NoDup_app_remove_r in Hdrop. exact Hdrop. }
    destruct v.
    + injection Hstep as <-. refine (IH _ _ _ H).
      assert (cn_id n = nd_id a) as Hid.
      { destruct (String.eqb (nd_nodeType a) "standard").
        - apply gen_standard_node_id in Hcompiled. exact Hcompiled.
        - destruct (String.eqb (nd_nodeType a) "iterator").
          + apply gen_iterative_node_id in Hcompiled. exact Hcompiled.
          + injection Hcompiled as <-. reflexivity. }
      rewrite map_app, <- app_assoc. simpl. rewrite Hid. exact Hinv.
    + destruct (nd_required a); injection Hstep as <-.
      * injection H as <- _. exact Hns.
      * apply (IH _ _ Hdrop H).
Qed.

(* ===================================================================== *)
(** * Endpoint resolution *)
(* ===================================================================== *)

Lemma find_node_none_aux target nodes found :
  (forall n, In n nodes -> cn_id n <> target) ->
  fold_left
    (fun found node => if String.eqb (cn_id node) target then Some node else found)
    nodes found = found.
Proof.
  revert found; induction nodes as [|a nodes IH]; intros found Hn; simpl; [reflexivity|].
  destruct (String.eqb_spec (cn_id a) target) as [E|_].
  - exfalso. exact (Hn a (or_introl eq_refl) E).
  - apply IH. intros n Hin. apply Hn. right; exact Hin.
Qed.

Lemma find_node_none target nodes :
  (forall n, In n nodes -> cn_id n <> target) -> find_node target nodes = None.
Proof. apply find_node_none_aux. Qed.

Lemma scan_no_match target nodes st :
  (forall n, In n nodes -> cn_id n <> target) ->
  fold_left (scan_node target) nodes st = st.
Proof.
  revert st; induction nodes as [|a nodes IH]; intros st Hn; simpl; [reflexivity|].
  assert (scan_node target st a = st) as ->.
  { unfold scan_node. destruct st as [[f c] it].
    destruct (String.eqb_spec (cn_id a) target) as [E|_]; [|reflexivity].
    exfalso. exact (Hn a (or_introl eq_refl) E). }
  apply IH. intros n Hin. apply Hn. right; exact Hin.
Qed.

Lemma undefined_id_unmatched mapping target nodes :
  defined_in mapping target = false ->
  (forall n, In n nodes -> In (cn_id n) (node_ids mapping)) ->
  forall n, In n nodes -> cn_id n <> target.
Proof.
  intros Hdef Hids n Hin E. specialize (Hids n Hin). rewrite E in Hids.
  unfold defined_in in Hdef.
  assert (existsb (String.eqb target) (node_ids mapping) = true) as Ht.
  { apply existsb_exists. exists target. split; [exact Hids|apply String.eqb_refl]. }
  congruence.
Qed.


(* ===================================================================== *)
(** * Relationship compiler *)
(* ===================================================================== *)

Lemma iterative_instances_loop doc r (l : list nat) acc :
  for_each (iterative_relationship_instance doc r) l acc =
  match l with
  | [] => Ok acc
  | _ :: _ =>
      ' (p, u, v) <- relationship_properties doc r ;;
      Ok (if v then acc ++ repeat (instance_of r p u) (length l) else acc)
  end.
Proof.
  revert acc; induction l as [|i l IH]; intros acc; [reflexivity|].
  change (for_each (iterative_relationship_instance doc r) (i :: l) acc)
    with (step <- iterative_relationship_instance doc r acc i ;;
          match step with
          | Next s' => for_each (iterative_relationship_instance doc r) l s'
          | Break s' => Ok s'
          end).
  unfold iterative_relationship_instance at 1.
  destruct (relationship_properties doc r) as [[[p u] v]|e]; [|reflexivity].
  destruct v; cbn [bind]; rewrite IH; destruct l as [|j l]; try reflexivity.
  cbn [bind].
  change (instance_of r p u) with
    {| ri_type := rd_type r; ri_directionality := rd_directionality r;
       ri_unique := rd_unique r; ri_properties := nonempty p;
       ri_uniqueProperties := nonempty u |}.
  rewrite <- app_assoc. reflexivity.
Qed.

(** What a valid run of [_gen_iterative_relationship] went through. *)
Lemma gen_iterative_relationship_valid doc r nodes new rel :
  _gen_iterative_relationship doc r nodes new = Ok (rel, true) ->
  exists s c0 it0 d node nis p u,
    scan_nodes (rd_sourceNode r) nodes 0 None = (Some s, c0, it0) /\
    scan_nodes (rd_destinationNode r) nodes c0 it0 = (Some d, 1, Some node) /\
    cn_instances node = Some nis /\ nis <> [] /\
    relationship_properties doc r = Ok (p, u, true) /\
    cr_sourceNode rel = Some s /\ cr_destinationNode rel = Some d /\
    cr_instances rel = Some (repeat (instance_of r p u) (length nis)).
Proof.
  unfold _gen_iterative_relationship.
  destruct (scan_nodes (rd_sourceNode r) nodes 0 None) as [[src c0] it0] eqn:E1.
  destruct (scan_nodes (rd_destinationNode r) nodes c0 it0) as [[dst c1] it1] eqn:E2.
  intros H. bind_inv H. destruct a as [|i0 is0]; [discriminate|].
  injection H as <- Hvalid.
  destruct src as [s|]; [|discriminate]. destruct dst as [d|]; [|discriminate].
  apply Nat.eqb_eq in Hvalid. subst c1.
  simpl in Ha. destruct it1 as [node|]; [|discriminate]. simpl in Ha.
  destruct (cn_instances node) as [nis|] eqn:En; [|discriminate]. simpl in Ha.
  rewrite iterative_instances_loop in Ha.
  destruct nis as [|ni nis]; [discriminate|].
  simpl seq in Ha. cbv iota in Ha. bind_inv Ha. destruct a as [[p u] v].
  destruct v; injection Ha as Ha.
  - exists s, c0, it0, d, node, (ni :: nis), p, u. simpl.
    repeat split; try reflexivity; try assumption; try discriminate.
    rewrite <- Ha, <- H, length_seq. reflexivity.
  - discriminate.
Qed.




(** The instances of a valid iterator relationship are copies of one
    record, built from the definition and the properties of the document. *)
Lemma iterative_instances_shape doc r nodes new rel :
  _gen_iterative_relationship doc r nodes new = Ok (rel, true) ->
  exists p u instances,
    relationship_properties doc r = Ok (p, u, true) /\
    cr_instances rel = Some instances /\
    (forall a, In a instances -> a = instance_of r p u).
Proof.
  intros H.
  destruct (gen_iterative_relationship_valid _ _ _ _ _ H)
    as (s & c0 & it0 & d & node & nis & p & u & _ & _ & _ & _ & Hp & _ & _ & Hi).
  exists p, u, (repeat (instance_of r p u) (length nis)).
  split; [exact Hp|]. split; [exact Hi|].
  intros a Ha. apply repeat_spec in Ha. exact Ha.
Qed.

(** C10.  Every instance of a valid iterator relationship is the one record
    built from the relationship definition and the properties evaluated on
    the document; any two instances are equal. *)
Theorem iterative_instances_all_equal doc r nodes new rel :
  _gen_iterative_relationship doc r nodes new = Ok (rel, true) ->
  exists p u instances,
    relationship_properties doc r = Ok (p, u, true) /\
    cr_instances rel = Some instances /\
    (forall a, In a instances -> a = instance_of r p u) /\
    (forall a b, In a instances -> In b instances -> a = b).
Proof.
  intros H.
  destruct (iterative_instances_shape _ _ _ _ _ H)
    as (p & u & instances & Hp & Hi & Hall).
  exists p, u, instances. repeat (split; [assumption|]).
  intros a b Ha Hb. rewrite (Hall a Ha), (Hall b Hb). reflexivity.
Qed.

Lemma iterative_instances_all_equal_witness :
  exists p u instances,
    relationship_properties (VDict ann) tagged_def = Ok (p, u, true) /\
    cr_instances ann_tagged = Some instances /\
    (forall a, In a instances -> a = instance_of tagged_def p u) /\
    (forall a b, In a instances -> In b instances -> a = b).
Proof.
  exact (iterative_instances_all_equal (VDict ann) tagged_def
           [ann_person; ann_tags] (blank_relationship tagged_def) ann_tagged
           eq_refl).
Defined.

(** ** Dangling node references *)

Lemma standard_relationship_unresolved doc r nodes new :
  (forall n, In n nodes -> cn_id n <> rd_sourceNode r) \/
  (forall n, In n nodes -> cn_id n <> rd_destinationNode r) ->
  exists rel, _gen_standard_relationship doc r nodes new = Ok (rel, false).
Proof.
  intros [Hn|Hn]; unfold _gen_standard_relationship;
    rewrite (find_node_none _ _ Hn).
  - eexists; reflexivity.
  - destruct (find_node (rd_sourceNode r) nodes); eexists; reflexivity.
Qed.

Lemma iterative_relationship_unresolved doc r nodes new :
  (forall n, In n nodes -> cn_id n <> rd_sourceNode r) \/
  (forall n, In n nodes -> cn_id n <> rd_destinationNode r) ->
  exists rel, _gen_iterative_relationship doc r nodes new = Ok (rel, false).
Proof.
  intros [Hn|Hn]; unfold _gen_iterative_relationship.
  - unfold scan_nodes at 1. rewrite (scan_no_match _ _ _ Hn).
    destruct (scan_nodes (rd_destinationNode r) nodes 0 None) as [[dst c] it].
    eexists; reflexivity.
  - destruct (scan_nodes (rd_sourceNode r) nodes 0 None) as [[src c] it].
    unfold scan_nodes. rewrite (scan_no_match _ _ _ Hn).
    destruct src; eexists; reflexivity.
Qed.

(** C5, as the code has it.  The loader returns a mapping with a dangling
    node reference unchanged; the reference is met at compilation time, for
    each document: against the nodes compiled from the document, the
    relationship compiles as invalid, whichever its type. *)
Theorem dangling_reference_found_per_document mapping r doc nodes valid new :
  dangling mapping r = true ->
  _gen_nodes mapping doc = Ok (nodes, valid) ->
  _load_mapping (Parsed mapping) = Returned mapping /\
  (exists rel, _gen_standard_relationship doc r nodes new = Ok (rel, false)) /\
  (exists rel, _gen_iterative_relationship doc r nodes new = Ok (rel, false)).
Proof.
  intros Hd Hnodes. split; [reflexivity|].
  pose proof (gen_nodes_ids _ _ _ _ Hnodes) as Hids.
  assert ((forall n, In n nodes -> cn_id n <> rd_sourceNode r) \/
          (forall n, In n nodes -> cn_id n <> rd_destinationNode r)) as Hun.
  { unfold dangling in Hd. apply orb_true_iff in Hd.
    destruct Hd as [Hd|Hd]; apply negb_true_iff in Hd; [left|right];
      apply (undefined_id_unmatched mapping _ _ Hd Hids). }
  split.
  - apply standard_relationship_unresolved; exact Hun.
  - apply iterative_relationship_unresolved; exact Hun.
Qed.

Lemma dangling_reference_found_per_document_witness :
  _load_mapping (Parsed dangling_mapping) = Returned dangling_mapping /\
  (exists rel,
      _gen_standard_relationship (VDict ann) dangling_def [ann_person]
        (blank_relationship dangling_def) = Ok (rel, false)) /\
  (exists rel,
      _gen_iterative_relationship (VDict ann) dangling_def [ann_person]
        (blank_relationship dangling_def) = Ok (rel, false)).
Proof.
  exact (dangling_reference_found_per_document dangling_mapping dangling_def
           (VDict ann) [ann_person] true (blank_relationship dangling_def)
           eq_refl eq_refl).
Defined.

(** C5, as stated, fails: a mapping whose relationship names the undefined
    node [company] leaves the loader as it came in, not as an exit. *)
Lemma load_mapping_accepts_dangling :
  has_dangling_reference dangling_mapping = true /\
  _load_mapping (Parsed dangling_mapping) = Returned dangling_mapping /\
  (forall code, _load_mapping (Parsed dangling_mapping) <> Exit code).
Proof. repeat split; try reflexivity. intros code; discriminate. Qed.

(** ** Unique properties of a relationship *)

(** C7, at the failing input.  [since] is declared unique, is not required
    and is absent from Ann's document: relationship compilation raises
    [KeyError], where node compilation of the same declarations returns a
    valid node without [uniqueProperties]. *)
Theorem relationship_unique_absent_raises :
  _recursive_key_check (split_dot "since") (VDict ann) = Ok false /\
  _gen_standard_relationship (VDict ann) knows_def [ann_person]
    (blank_relationship knows_def) = Raise (KeyError "since") /\
  _gen_standard_node (VDict ann) since_def (blank_node since_def)
    = Ok (blank_node since_def, true).
Proof. repeat split; reflexivity. Qed.

(** On a run that does not raise and stays valid, the relationship loop
    stores what the node loop stores for the same declarations. *)
Lemma relationship_partition_agrees doc r props st p u :
  NoDup (keys props) ->
  (forall k, In k (keys props) -> dict_lookup k (fst (fst st)) = None) ->
  snd st = true ->
  for_each (relationship_property doc r) props st = Ok (p, u, true) ->
  for_each (standard_node_property doc (node_like r)) props st = Ok (p, u, true).
Proof.
  revert st; induction props as [|[key pd] props IH];
    intros [[p0 u0] v0] Hnd Hfresh Hv H; [exact H|].
  simpl in Hv. subst v0. inversion Hnd as [|? ? Hnotin Hnd']; subst.
  assert (forall pv k, In k (keys props) ->
            dict_lookup k (dict_set key pv p0) = None) as Hnext.
  { intros pv k Hk. rewrite dict_lookup_set.
    destruct (String.eqb_spec k key) as [->|_]; [contradiction|].
    apply (Hfresh k). right; exact Hk. }
  simpl in H. bind_split H as step Hstep.
  unfold relationship_property in Hstep. bind_split Hstep as present Hpresent.
  simpl for_each. unfold standard_node_property at 1. rewrite Hpresent.
  cbn [bind]. simpl nd_uniqueProperties. simpl nd_requiredProperties.
  destruct present.
  - bind_split Hstep as stored Hstored. bind_split Hstored as pv Hpv.
    injection Hstored as <-. rewrite Hpv. cbn [bind].
    destruct (listed key (rd_uniqueProperties r)).
    + unfold dict_get in Hstep. rewrite dict_lookup_set, String.eqb_refl in Hstep.
      injection Hstep as <-. cbn [bind]. apply IH; auto. apply Hnext.
    + injection Hstep as <-. cbn [bind]. apply IH; auto. apply Hnext.
  - destruct (listed key (rd_requiredProperties r)).
    + injection Hstep as <-. discriminate.
    + cbn [bind] in Hstep. destruct (listed key (rd_uniqueProperties r)).
      * pose proof (Hfresh key (or_introl eq_refl)) as Hkey. simpl in Hkey.
        unfold dict_get in Hstep. rewrite Hkey in Hstep. discriminate.
      * injection Hstep as <-. cbn [bind]. apply IH; auto.
        intros k Hk. apply (Hfresh k). right; exact Hk.
Qed.

(** ** The ITER! sentinel in relationships *)

Lemma relationship_property_step doc r p u v key pd step :
  relationship_property doc r (p, u, v) (key, pd) = Ok step ->
  fst (fst (ctl_state step)) = p \/
  (_recursive_key_check (split_dot (pd_key pd)) doc = Ok true /\
   exists pv, fst (fst (ctl_state step)) = dict_set key pv p).
Proof.
  unfold relationship_property. intros H. bind_inv H. bind_inv H.
  destruct a as [|].
  - bind_inv Ha0. injection Ha0 as <-. right. split; [exact Ha|]. exists a.
    destruct (listed key (rd_uniqueProperties r)).
    + bind_inv H. injection H as <-. reflexivity.
    + injection H as <-. reflexivity.
  - left. destruct (listed key (rd_requiredProperties r)); injection Ha0 as <-.
    + injection H as <-. reflexivity.
    + destruct (listed key (rd_uniqueProperties r)).
      * bind_inv H. injection H as <-. reflexivity.
      * injection H as <-. reflexivity.
Qed.

(** A key stored by the property loop was there before or belongs to a
    declaration whose path the document has. *)
Lemma relationship_properties_stored doc r props st st' :
  for_each (relationship_property doc r) props st = Ok st' ->
  forall k, dict_lookup k (fst (fst st')) <> None ->
    dict_lookup k (fst (fst st)) <> None \/
    exists pd, In (k, pd) props /\
               _recursive_key_check (split_dot (pd_key pd)) doc = Ok true.
Proof.
  revert st; induction props as [|[key pd] props IH]; intros st H k Hk; simpl in H.
  - injection H as <-. left; exact Hk.
  - bind_inv H. destruct st as [[p u] v].
    pose proof (relationship_property_step _ _ _ _ _ _ _ _ Ha) as Hstep.
    assert (dict_lookup k (fst (fst (ctl_state a))) <> None ->
            dict_lookup k p <> None \/
            exists pd0, In (k, pd0) ((key, pd) :: props) /\
                        _recursive_key_check (split_dot (pd_key pd0)) doc = Ok true)
      as Hhere.
    { intros Hk'. destruct Hstep as [E|(Hc & pv & E)]; rewrite E in Hk';
        [left; exact Hk'|].
      rewrite dict_lookup_set in Hk'.
      destruct (String.eqb_spec k key) as [->|_]; [|left; exact Hk'].
      right. exists pd. split; [left; reflexivity|exact Hc]. }
    destruct a as [s1|s1].
    + destruct (IH s1 H k Hk) as [Hk'|(pd0 & Hin & Hc)].
      * apply Hhere. exact Hk'.
      * right. exists pd0. split; [right; exact Hin|exact Hc].
    + injection H as <-. apply Hhere. exact Hk.
Qed.

(** C8, as the code has it.  In an iterator relationship [ITER!] is an
    ordinary path: the top-level key [ITER!] of the document.  When the
    document has no such key, a property declared with that path is absent
    from every instance. *)
Theorem iter_sentinel_is_a_document_key fields r nodes new rel :
  dict_lookup "ITER!" fields = None ->
  NoDup (keys (or_empty (rd_properties r))) ->
  _gen_iterative_relationship (VDict fields) r nodes new = Ok (rel, true) ->
  forall key pd instance,
    In (key, pd) (or_empty (rd_properties r)) ->
    pd_key pd = "ITER!" ->
    In instance (or_empty (cr_instances rel)) ->
    dict_lookup key (or_empty (ri_properties instance)) = None.
Proof.
  intros Hno Hnd H key pd instance Hin Hpath Hinst.
  destruct (iterative_instances_shape _ _ _ _ _ H)
    as (p & u & instances & Hp & Hi & Hall).
  rewrite Hi in Hinst. simpl in Hinst. rewrite (Hall _ Hinst). simpl.
  assert (or_empty (nonempty p) = p) as -> by (destruct p; reflexivity).
  destruct (dict_lookup key p) eqn:L; [exfalso|reflexivity].
  unfold relationship_properties in Hp.
  destruct (rd_properties r) as [props|]; simpl in Hin; [|contradiction].
  destruct (relationship_properties_stored _ _ _ _ _ Hp key) as [Hk|(pd' & Hin' & Hc)].
  - simpl. congruence.
  - apply Hk. reflexivity.
  - simpl in Hnd.
    pose proof (dict_lookup_NoDup _ _ _ Hnd Hin) as L1.
    pose proof (dict_lookup_NoDup _ _ _ Hnd Hin') as L2.
    assert (pd' = pd) as -> by congruence.
    rewrite Hpath in Hc. simpl in Hc. unfold dict_mem in Hc. rewrite Hno in Hc.
    discriminate.
Qed.

Lemma iter_sentinel_is_a_document_key_witness :
  dict_lookup "tag" (or_empty (ri_properties tagged_instance)) = None.
Proof.
  apply (iter_sentinel_is_a_document_key ann tagged_def [ann_person; ann_tags]
           (blank_relationship tagged_def) ann_tagged) with (pd := prop "ITER!" "string").
  - reflexivity.
  - constructor; [intros []|constructor].
  - reflexivity.
  - left; reflexivity.
  - reflexivity.
  - left; reflexivity.
Defined.

(** C8, as stated, fails.  The tag node binds [tag] to each element of
    [tags]; the relationship declaring the same [ITER!] property compiles to
    two instances without any property. *)
Lemma iter_sentinel_not_bound :
  _gen_nodes tags_mapping (VDict ann) = Ok ([ann_person; ann_tags], true) /\
  _gen_iterative_relationship (VDict ann) tagged_def [ann_person; ann_tags]
    (blank_relationship tagged_def) = Ok (ann_tagged, true) /\
  ~ bound_to_elements "tag" [VStr "x"; VStr "y"]
      (or_empty (cr_instances ann_tagged)).
Proof.
  split; [reflexivity|]. split; [reflexivity|].
  intros Hb. inversion Hb as [|? ? ? ? (pv & Hl & _) _]; subst.
  discriminate.
Qed.

(* ===================================================================== *)
(** * Statement generator *)
(* ===================================================================== *)

Lemma get_missing_props_from properties unique_properties acc :
  NoDup (keys properties) ->
  (forall k, In k (keys properties) -> ~ In k (keys acc)) ->
  fold_left
    (fun need_to_set kv =>
       if dict_mem (fst kv) unique_properties then need_to_set
       else dict_set (fst kv) (snd kv) need_to_set)
    properties acc
  = acc ++ non_unique properties unique_properties.
Proof.
  revert acc; induction properties as [|[k v] ps IH]; intros acc Hnd Hfresh; simpl.
  - rewrite app_nil_r. reflexivity.
  - inversion Hnd as [|? ? Hnotin Hnd']; subst.
    destruct (dict_mem k unique_properties); simpl.
    + apply IH; [exact Hnd'|]. intros k' Hin. apply Hfresh. right; exact Hin.
    + rewrite dict_set_fresh by (apply Hfresh; left; reflexivity).
      rewrite IH; [rewrite <- app_assoc; reflexivity|exact Hnd'|].
      intros k' Hin Hacc. unfold keys in Hacc. rewrite map_app in Hacc.
      apply in_app_or in Hacc. destruct Hacc as [Hacc|[<-|[]]].
      * apply (Hfresh k'); [right; exact Hin|exact Hacc].
      * apply Hnotin. exact Hin.
Qed.

(** [need_to_set] is [properties] without the unique ones, in order, with
    the values [properties] gives. *)
Lemma get_missing_props_non_unique properties unique_properties :
  NoDup (keys properties) ->
  _get_missing_props properties unique_properties =
  non_unique properties unique_properties.
Proof.
  intros Hnd. unfold _get_missing_props.
  rewrite get_missing_props_from; [reflexivity|exact Hnd|intros k _ []].
Qed.

Lemma iterator_need_to_set_all_unique properties unique_properties acc :
  non_unique properties unique_properties = [] ->
  for_each
    (fun need_to_set kv =>
       if dict_mem (fst kv) unique_properties then Ok (Next need_to_set)
       else
         v <- dict_get (fst kv) unique_properties ;;
         Ok (Next (dict_set (fst kv) v need_to_set)))
    properties acc = Ok acc.
Proof.
  induction properties as [|[k v] ps IH]; simpl; [reflexivity|].
  destruct (dict_mem k unique_properties); simpl; [exact IH|discriminate].
Qed.

(** The loop of the iterator statement generator cannot get past a property
    that is not unique: it reads it from [uniqueProperties]. *)
Lemma iterator_need_to_set_raises properties unique_properties k v rest :
  non_unique properties unique_properties = (k, v) :: rest ->
  iterator_need_to_set properties unique_properties = Raise (KeyError k).
Proof.
  unfold iterator_need_to_set. generalize (@nil (string * PropertyValue)).
  induction properties as [|[k0 v0] ps IH]; intros acc; simpl; [discriminate|].
  destruct (dict_mem k0 unique_properties) eqn:M; simpl.
  - apply IH.
  - intros [= -> _ _]. unfold dict_get.
    apply dict_mem_false in M. rewrite M. reflexivity.
Qed.

Lemma merge_node_statement_specified str_other e unique_properties properties :
  ep_uniqueProperties e = Some unique_properties ->
  ep_properties e = Some properties ->
  merge_node_statement str_other e unique_properties
    (non_unique properties unique_properties)
  = specified_merge_statement str_other e.
Proof.
  intros Hu Hp. unfold merge_node_statement, specified_merge_statement.
  rewrite Hu, Hp. simpl or_empty.
  destruct (non_unique properties unique_properties); reflexivity.
Qed.

(** C3, as the code has it.  A standard node carrying [uniqueProperties]
    gets the statement as specified: the pattern holds [uniqueLabels] (else
    all labels) and [uniqueProperties], every other property follows in a
    SET clause with its value from [properties].  So does an iterator
    instance whose properties are all unique.  A node or instance merged on
    [uniqueLabels] alone carries all its properties inside the pattern and
    sets none. *)
Theorem merge_statement_by_design str_other :
  (forall node,
      uses_merge (endpoint_of_node node) = true ->
      NoDup (keys (or_empty (cn_properties node))) ->
      (cn_uniqueProperties node <> None -> cn_properties node <> None) ->
      _gen_standard_node_statements str_other node =
        Ok [designed_merge_statement str_other (endpoint_of_node node)]) /\
  (forall statements instance,
      uses_merge (endpoint_of_instance instance) = true ->
      (ni_uniqueProperties instance <> None -> ni_properties instance <> None) ->
      (ni_uniqueProperties instance <> None ->
       non_unique (or_empty (ni_properties instance))
         (or_empty (ni_uniqueProperties instance)) = []) ->
      iterator_node_statement str_other statements instance =
        Ok (Next (statements ++
                  [designed_merge_statement str_other
                     (endpoint_of_instance instance)]))).
Proof.
  split.
  - intros node Hm Hnd Hp. unfold _gen_standard_node_statements.
    unfold designed_merge_statement. simpl ep_uniqueProperties.
    destruct (cn_uniqueProperties node) as [up|] eqn:Eu.
    + destruct (cn_properties node) as [ps|] eqn:Ep;
        [|exfalso; apply Hp; [discriminate|reflexivity]].
      simpl in Hnd. cbn [field bind].
      rewrite (get_missing_props_non_unique _ _ Hnd).
      rewrite (merge_node_statement_specified str_other _ up ps); auto.
    + unfold plain_node_statement, match_labels. simpl.
      unfold uses_merge in Hm. simpl in Hm. rewrite Eu in Hm.
      destruct (cn_uniqueLabels node); [reflexivity|discriminate].
  - intros statements instance Hm Hp Hall. unfold iterator_node_statement.
    unfold designed_merge_statement. simpl ep_uniqueProperties.
    destruct (ni_uniqueProperties instance) as [up|] eqn:Eu.
    + destruct (ni_properties instance) as [ps|] eqn:Ep;
        [|exfalso; apply Hp; [discriminate|reflexivity]].
      specialize (Hall ltac:(discriminate)). simpl in Hall. cbn [field bind].
      unfold iterator_need_to_set.
      rewrite (iterator_need_to_set_all_unique _ _ _ Hall). cbn [bind].
      rewrite <- (merge_node_statement_specified str_other _ up ps); auto.
      rewrite Hall. reflexivity.
    + unfold plain_node_statement, match_labels. simpl.
      unfold uses_merge in Hm. simpl in Hm. rewrite Eu in Hm.
      destruct (ni_uniqueLabels instance); [reflexivity|discriminate].
Qed.

Lemma merge_statement_by_design_witness :
  _gen_standard_node_statements str_scalar located_person =
    Ok [designed_merge_statement str_scalar (endpoint_of_node located_person)] /\
  _gen_standard_node_statements str_scalar labelled_person =
    Ok [designed_merge_statement str_scalar (endpoint_of_node labelled_person)] /\
  iterator_node_statement str_scalar [] (tag_instance "x") =
    Ok (Next [designed_merge_statement str_scalar
                (endpoint_of_instance (tag_instance "x"))]).
Proof.
  destruct (merge_statement_by_design str_scalar) as [Hnode Hinstance].
  split; [|split].
  - apply Hnode.
    + reflexivity.
    + constructor; [simpl; intros [E|[]]; discriminate|].
      constructor; [intros []|constructor].
    + discriminate.
  - apply Hnode.
    + reflexivity.
    + constructor; [intros []|constructor].
    + intros H; contradiction H; reflexivity.
  - apply (Hinstance [] (tag_instance "x")).
    + reflexivity.
    + discriminate.
    + reflexivity.
Defined.

(** C3, as stated, fails.  A person merged on the label [Person] alone has
    [name] inside the MERGE pattern and in no SET clause, though [name] is
    not a unique property. *)
Lemma merge_on_labels_inlines_properties :
  uses_merge (endpoint_of_node labelled_person) = true /\
  cn_uniqueProperties labelled_person = None /\
  _gen_standard_node_statements str_scalar labelled_person =
    Ok [("MERGE (n:Person {name: " ++ dquote ++ "Ann" ++ dquote ++
         "})SET n:Employee")%string] /\
  specified_merge_statement str_scalar (endpoint_of_node labelled_person) =
    ("MERGE (n:Person {}) SET n.name = " ++ dquote ++ "Ann" ++ dquote ++
     ", n:Employee")%string /\
  _gen_standard_node_statements str_scalar labelled_person <>
    Ok [specified_merge_statement str_scalar (endpoint_of_node labelled_person)].
Proof. repeat split; try reflexivity. discriminate. Qed.

(** The iterator statement generator on an instance with a property that is
    not unique: [KeyError], where the standard generator sets the property. *)
Lemma iterator_statement_raises_on_non_unique :
  iterator_node_statement str_scalar [] located_instance = Raise (KeyError "city") /\
  _gen_standard_node_statements str_scalar located_person =
    Ok [("MERGE (n:Person {name: " ++ dquote ++ "Ann" ++ dquote ++
         "}) SET n.city = " ++ dquote ++ "Oslo" ++ dquote)%string].
Proof. split; reflexivity. Qed.

(* ===================================================================== *)
(** * Document pipeline *)
(* ===================================================================== *)

(** A required property missing from the document leaves the property loop
    of a standard node with [valid] cleared. *)
Lemma standard_node_properties_invalid doc node props key pd :
  In (key, pd) props ->
  listed key (nd_requiredProperties node) = true ->
  _recursive_key_check (split_dot (pd_key pd)) doc = Ok false ->
  forall st p u v,
    for_each (standard_node_property doc node) props st = Ok (p, u, v) -> v = false.
Proof.
  intros Hin Hreq Hcheck.
  assert (forall l st p u v,
             snd st = false ->
             for_each (standard_node_property doc node) l st = Ok (p, u, v) ->
             v = false) as Hstays.
  { induction l as [|[k d] l IH]; intros [[p0 u0] v0] p u v Hv H; simpl in *.
    - injection H as _ _ <-. exact Hv.
    - subst v0. bind_inv H. unfold standard_node_property in Ha. bind_inv Ha.
      destruct a0 as [|].
      + bind_inv Ha.
        destruct (listed k (nd_uniqueProperties node)); injection Ha as <-;
          refine (IH _ _ _ _ _ H); reflexivity.
      + destruct (listed k (nd_requiredProperties node)); injection Ha as <-;
          refine (IH _ _ _ _ _ H); reflexivity. }
  induction props as [|[k d] props IH]; [contradiction|].
  intros [[p0 u0] v0] p u v H. simpl in H. bind_inv H.
  destruct Hin as [[= -> ->]|Hin].
  - unfold standard_node_property in Ha. rewrite Hcheck, Hreq in Ha.
    injection Ha as <-. refine (Hstays _ _ _ _ _ _ H). reflexivity.
  - destruct a as [s1|s1].
    + destruct s1 as [[p1 u1] v1]. apply (IH Hin _ _ _ _ H).
    + exfalso.
      apply (standard_node_property_never_breaks doc node (p0, u0, v0) (k, d) s1).
      exact Ha.
Qed.

(** Fail-closed: when a required standard node declares a required property
    whose path the document lacks, [_gen_nodes] declares the document
    invalid whenever it returns. *)
Lemma gen_nodes_fail_closed mapping doc node props key pd :
  In node (m_nodes mapping) ->
  nd_required node = true ->
  nd_nodeType node = "standard" ->
  nd_properties node = Some props ->
  In (key, pd) props ->
  listed key (nd_requiredProperties node) = true ->
  _recursive_key_check (split_dot (pd_key pd)) doc = Ok false ->
  forall nodes valid, _gen_nodes mapping doc = Ok (nodes, valid) -> valid = false.
Proof.
  intros Hin Hreq Hty Hprops Hkey Hlisted Hcheck. unfold _gen_nodes.
  generalize (@nil CompiledNode, true).
  induction (m_nodes mapping) as [|a l IH]; [contradiction|].
  intros [ns vd] nodes valid H. simpl in H. bind_split H as step Hstep.
  destruct Hin as [->|Hin].
  - clear IH. unfold gen_nodes_body in Hstep. rewrite Hty in Hstep.
    simpl in Hstep. bind_split Hstep as compiled Hcompiled.
    destruct compiled as [n v].
    assert (v = false) as ->.
    { unfold _gen_standard_node in Hcompiled. rewrite Hprops in Hcompiled.
      bind_split Hcompiled as st Hloop. destruct st as [[p u] v'].
      rewrite (standard_node_properties_invalid _ _ _ _ _ Hkey Hlisted Hcheck
                 _ _ _ _ Hloop) in Hcompiled.
      injection Hcompiled as _ <-. reflexivity. }
    rewrite Hreq in Hstep. injection Hstep as <-. injection H as _ <-.
    reflexivity.
  - destruct step as [s1|s1].
    + apply (IH Hin s1 nodes valid H).
    + injection H as ->. unfold gen_nodes_body in Hstep.
      bind_split Hstep as compiled Hcompiled.
      destruct compiled as [n [|]]; [discriminate|].
      destruct (nd_required a); [|discriminate].
      injection Hstep as _ <-. reflexivity.
Qed.

Section PipelineFacts.

Variable mapping : Mapping.
Variable pre_modules : list (Value -> Result Value).
Variable post_node_modules :
  list (list CompiledNode -> Result (list CompiledNode)).
Variable post_relationship_modules :
  list (list CompiledRelationship -> Result (list CompiledRelationship)).

Local Notation "'process_here'" :=
  (process_doc mapping pre_modules post_node_modules post_relationship_modules).
Local Notation "'_process_here'" :=
  (_process mapping pre_modules post_node_modules post_relationship_modules).

Lemma process_doc_invalid hit source doc :
  py_getitem hit "_source" = Ok source ->
  _pre_process_doc pre_modules source = Ok doc ->
  declared_invalid mapping post_node_modules doc ->
  forall st, process_here st hit = Ok (Next st).
Proof.
  intros Hs Hpre Hinv [nodes relationships].
  unfold process_doc. rewrite Hs. cbn [bind].
  rewrite Hpre. cbn [bind].
  destruct Hinv as [(ns & Hn)|(ns & ns' & rs & Hn & Hpost & Hr)];
    rewrite Hn; cbn [bind]; [reflexivity|].
  rewrite Hpost. cbn [bind]. rewrite Hr. reflexivity.
Qed.

Lemma for_each_skip (before after : list Value) hit :
  (forall st, process_here st hit = Ok (Next st)) ->
  forall st,
    for_each process_here (before ++ hit :: after) st =
    for_each process_here (before ++ after) st.
Proof.
  intros Hskip. induction before as [|a before IH]; intros st; simpl.
  - rewrite Hskip. reflexivity.
  - destruct (process_here st a) as [[s1|s1]|e]; simpl; [apply IH| |]; reflexivity.
Qed.

(** X30.  A document for which node compilation, or relationship
    compilation on the post-processed nodes, returns [valid_doc = False]
    leaves no trace in what [_process] returns: the batch comes out, or
    raises, as the batch without that document does. *)
Theorem invalid_document_is_dropped (before after : list Value) hit source doc :
  py_getitem hit "_source" = Ok source ->
  _pre_process_doc pre_modules source = Ok doc ->
  declared_invalid mapping post_node_modules doc ->
  _process_here (before ++ hit :: after) = _process_here (before ++ after).
Proof.
  intros Hs Hpre Hinv. unfold _process.
  apply for_each_skip. apply (process_doc_invalid hit source doc Hs Hpre Hinv).
Qed.

End PipelineFacts.

Lemma invalid_document_is_dropped_witness :
  _process tags_mapping [] [] [] ([hit ann] ++ hit nameless :: [hit bob]) =
  _process tags_mapping [] [] [] ([hit ann] ++ [hit bob]).
Proof.
  apply (invalid_document_is_dropped tags_mapping [] [] [] [hit ann] [hit bob]
           (hit nameless) (VDict nameless) (VDict nameless)).
  - reflexivity.
  - reflexivity.
  - left. eexists. reflexivity.
Defined.

(** C1, at the failing input.  The document [{'address': 5}] lacks [name],
    a required property of the required person node.  Node compilation does
    not declare it invalid: it raises, and the batch is lost with it, while
    the same batch without that document gives the nodes and relationships
    of Ann and Bob.  The document lacking [name] and holding no [address] is
    declared invalid and dropped. *)
Theorem lacking_required_path_loses_batch :
  nd_required person_def = true /\
  listed "name" (nd_requiredProperties person_def) = true /\
  _recursive_key_check (split_dot "name") (VDict nameless_flat_address)
    = Ok false /\
  _gen_nodes tags_mapping (VDict nameless_flat_address) = Raise TypeError /\
  _process tags_mapping [] [] []
    [hit ann; hit nameless_flat_address; hit bob] = Raise TypeError /\
  (exists nodes relationships,
      _process tags_mapping [] [] [] [hit ann; hit bob]
        = Ok (nodes, relationships) /\
      length nodes = 4 /\ length relationships = 2) /\
  _gen_nodes tags_mapping (VDict nameless) = Ok ([], false) /\
  _process tags_mapping [] [] [] [hit ann; hit nameless; hit bob] =
  _process tags_mapping [] [] [] [hit ann; hit bob].
Proof.
  repeat split; try reflexivity.
  do 2 eexists. repeat split; reflexivity.
Qed.

(* ===================================================================== *)
(** * Statement executor *)
(* ===================================================================== *)

Section ExecutorFacts.

Variable Sink : Type.
Variable Row : Type.
Variable write_transaction : Sink -> string -> Sink * Result Row.

Lemma execute_loop_app (l1 l2 : list string) (st : ExecState Sink Row) :
  execute_loop write_transaction (l1 ++ l2) st =
  match execute_loop write_transaction l1 st with
  | (st', Ok _) => execute_loop write_transaction l2 st'
  | (st', Raise e) => (st', Raise e)
  end.
Proof.
  revert st; induction l1 as [|s l1 IH]; intros st; simpl; [reflexivity|].
  destruct (write_transaction (sink st) s) as [sink' [row|e]]; [apply IH|reflexivity].
Qed.

(** The two loops of [_execute_statements] are one loop over the node
    statements followed by the relationship statements. *)
Lemma execute_statements_as_one_loop node_statements relationship_statements st :
  _execute_statements write_transaction node_statements relationship_statements st =
  execute_loop write_transaction (node_statements ++ relationship_statements)
    (logger INFO
       (Executing (length node_statements) (length relationship_statements)) st).
Proof.
  unfold _execute_statements. rewrite execute_loop_app.
  destruct (execute_loop write_transaction node_statements _) as [st' [[]|e]];
    reflexivity.
Qed.

Lemma submitted_app (l1 l2 : list (Level * Message Row)) :
  submitted (l1 ++ l2) = submitted l1 ++ submitted l2.
Proof. apply flat_map_app. Qed.

Lemma reported_app (l1 l2 : list (Level * Message Row)) :
  reported (l1 ++ l2) = reported l1 || reported l2.
Proof. apply existsb_app. Qed.

(** A loop that ran to its end handed every statement to the sink once, in
    order, and logged nothing at level ERROR. *)
Lemma execute_loop_completed (l : list string) (st st' : ExecState Sink Row) :
  execute_loop write_transaction l st = (st', Ok tt) ->
  submitted (log st') = submitted (log st) ++ l /\
  reported (log st') = reported (log st).
Proof.
  revert st; induction l as [|s l IH]; intros st H; simpl in H.
  - injection H as <-. rewrite app_nil_r. split; reflexivity.
  - destruct (write_transaction (sink st) s) as [sink' [row|e]]; [|discriminate].
    apply IH in H. destruct H as [Hs Hr]. simpl in Hs, Hr.
    rewrite !submitted_app in Hs. rewrite !reported_app in Hr.
    simpl in Hs, Hr. rewrite !app_nil_r in Hs. rewrite !orb_false_r in Hr.
    rewrite <- app_assoc in Hs. split; assumption.
Qed.

(** C9, as the code has it.  When the sink raises on a statement, the
    exception leaves [_execute_statements]: the statements before it were
    handed to the sink once each and stay executed, the failing statement was
    handed over once, no later statement of the batch is handed over, and
    nothing is logged at level ERROR. *)
Theorem failed_statement_aborts_batch node_statements relationship_statements
    before statement after st st1 sink' e :
  node_statements ++ relationship_statements = before ++ statement :: after ->
  execute_loop write_transaction before
    (logger INFO
       (Executing (length node_statements) (length relationship_statements)) st)
    = (st1, Ok tt) ->
  write_transaction (sink st1) statement = (sink', Raise e) ->
  exists st',
    _execute_statements write_transaction node_statements relationship_statements st
      = (st', Raise e) /\
    sink st' = sink' /\
    submitted (log st') = submitted (log st) ++ before ++ [statement] /\
    reported (log st') = reported (log st).
Proof.
  intros Hsplit Hbefore Hfail.
  rewrite execute_statements_as_one_loop, Hsplit, execute_loop_app, Hbefore.
  simpl. rewrite Hfail. eexists. split; [reflexivity|]. split; [reflexivity|].
  apply execute_loop_completed in Hbefore. destruct Hbefore as [Hs Hr].
  simpl in Hs, Hr. rewrite submitted_app in Hs. rewrite reported_app in Hr.
  simpl in Hs, Hr. rewrite app_nil_r in Hs. rewrite orb_false_r in Hr.
  simpl. rewrite submitted_app, reported_app, Hs, Hr. simpl.
  rewrite orb_false_r, <- app_assoc. split; reflexivity.
Qed.

End ExecutorFacts.

Lemma failed_statement_aborts_batch_witness :
  exists st',
    _execute_statements refusing_sink ["A"; "B"; "C"] ["D"] {| sink := []; log := [] |}
      = (st', Raise (DriverError "SyntaxError")) /\
    sink st' = ["A"] /\
    submitted (log st') =
      submitted (@nil (Level * Message unit)) ++ ["A"] ++ ["B"] /\
    reported (log st') = reported (@nil (Level * Message unit)).
Proof.
  apply (failed_statement_aborts_batch (list string) unit refusing_sink
           ["A"; "B"; "C"] ["D"] ["A"] "B" ["C"; "D"] {| sink := []; log := [] |}
           {| sink := ["A"];
              log := [(INFO, Executing 3 1); (DEBUG, ExecutingStatement "A");
                      (DEBUG, ExecutionResult tt)] |}).
  - reflexivity.
  - reflexivity.
  - reflexivity.
Defined.

(** C9, as stated, fails.  The sink refuses [B]: [C] and [D] are never
    handed to it, and the log has no ERROR record. *)
Lemma statements_after_failure_not_executed :
  let outcome :=
    _execute_statements refusing_sink ["A"; "B"; "C"] ["D"]
      {| sink := []; log := [] |} in
  snd outcome = Raise (DriverError "SyntaxError") /\
  sink (fst outcome) = ["A"] /\
  submitted (log (fst outcome)) = ["A"; "B"] /\
  ~ In "C" (submitted (log (fst outcome))) /\
  ~ In "D" (submitted (log (fst outcome))) /\
  reported (log (fst outcome)) = false.
Proof.
  cbv zeta. repeat split; try reflexivity;
    simpl; intros [E|[E|[]]]; discriminate.
Qed.

(* ===================================================================== *)
(** * Further properties: path resolver *)
(* ===================================================================== *)

Lemma key_check_cons k k2 rest item :
  _recursive_key_check (k :: k2 :: rest) item =
  (present <- py_in k item ;;
   if present then sub <- py_getitem item k ;; _recursive_key_check (k2 :: rest) sub
   else Ok false).
Proof. reflexivity. Qed.

Lemma get_value_cons k k2 rest item :
  _recursive_get_value (k :: k2 :: rest) item =
  (present <- py_in k item ;;
   if present then sub <- py_getitem item k ;; _recursive_get_value (k2 :: rest) sub
   else Ok VNone).
Proof. reflexivity. Qed.

Lemma split_dot_nonempty s : split_dot s <> [].
Proof.
  destruct s as [|c s]; simpl; [discriminate|].
  destruct (Ascii.eqb c "."); [discriminate|].
  destruct (split_dot s); discriminate.
Qed.

Lemma getitem_after_in k item e :
  py_in k item = Ok true -> py_getitem item k = Raise e -> e = TypeError.
Proof.
  destruct item; simpl; try discriminate; try (intros _ [= <-]; reflexivity).
  unfold dict_mem, dict_get. destruct (dict_lookup k d); discriminate.
Qed.

Lemma py_in_raises k item e : py_in k item = Raise e -> e = TypeError.
Proof. destruct item; simpl; try discriminate; intros [= <-]; reflexivity. Qed.

(** X1.  When walking the path down nested records reaches a value, the
    existence check returns [True] and the retrieval returns that value. *)
Theorem resolver_finds_value path item v :
  path <> [] ->
  reach path item = Some v ->
  _recursive_key_check path item = Ok true /\
  _recursive_get_value path item = Ok v.
Proof.
  revert item; induction path as [|k rest IH]; intros item Hne H;
    [contradiction Hne; reflexivity|].
  simpl in H. destruct item as [| | | | |l|d]; try discriminate.
  destruct (dict_lookup k d) as [sub|] eqn:L; [|discriminate].
  destruct rest as [|k2 rest'].
  - injection H as <-. simpl. unfold dict_mem, dict_get. rewrite L. split; reflexivity.
  - rewrite key_check_cons, get_value_cons. simpl py_in. simpl py_getitem.
    unfold dict_mem, dict_get. rewrite L. cbn [bind].
    apply IH; [discriminate|exact H].
Qed.

Lemma resolver_finds_value_witness :
  _recursive_key_check ["address"; "city"] (VDict ann_in_oslo) = Ok true /\
  _recursive_get_value ["address"; "city"] (VDict ann_in_oslo) = Ok (VStr "Oslo").
Proof.
  apply (resolver_finds_value ["address"; "city"] (VDict ann_in_oslo) (VStr "Oslo")).
  - discriminate.
  - reflexivity.
Defined.

(** X2.  Whenever the existence check returns [False], the retrieval
    returns [None] and does not raise. *)
Theorem absent_path_reads_none keys item :
  _recursive_key_check keys item = Ok false ->
  _recursive_get_value keys item = Ok VNone.
Proof.
  revert item; induction keys as [|k rest IH]; intros item H; [discriminate|].
  destruct rest as [|k2 rest'].
  - simpl in H. simpl. rewrite H. reflexivity.
  - rewrite key_check_cons in H. rewrite get_value_cons.
    destruct (py_in k item) as [[|]|e]; cbn [bind] in *; try discriminate;
      [|reflexivity].
    destruct (py_getitem item k) as [sub|e]; cbn [bind] in *; [|discriminate].
    apply IH. exact H.
Qed.

Lemma absent_path_reads_none_witness :
  _recursive_get_value ["address"; "city"] (VDict ann) = Ok VNone.
Proof.
  apply (absent_path_reads_none ["address"; "city"] (VDict ann)). reflexivity.
Defined.

Lemma resolver_raises_type_error keys item e :
  keys <> [] ->
  (_recursive_key_check keys item = Raise e -> e = TypeError) /\
  (_recursive_get_value keys item = Raise e -> e = TypeError).
Proof.
  revert item; induction keys as [|k rest IH]; intros item Hne;
    [contradiction Hne; reflexivity|].
  destruct rest as [|k2 rest'].
  - simpl. split.
    + apply py_in_raises.
    + destruct (py_in k item) as [[|]|e'] eqn:E; cbn [bind].
      * apply getitem_after_in. exact E.
      * discriminate.
      * intros [= <-]. apply (py_in_raises _ _ _ E).
  - rewrite key_check_cons, get_value_cons.
    destruct (py_in k item) as [[|]|e'] eqn:E; cbn [bind].
    + destruct (py_getitem item k) as [sub|e'] eqn:G; cbn [bind].
      * apply IH. discriminate.
      * split; intros [= <-]; apply (getitem_after_in _ _ _ E G).
    + split; discriminate.
    + split; intros [= <-]; apply (py_in_raises _ _ _ E).
Qed.

(** X3.  On a dotted path, whatever the document, the only exception the
    resolver raises is [TypeError]: never [KeyError], never [IndexError]. *)
Theorem resolver_only_type_error path item e :
  _recursive_key_check (split_dot path) item = Raise e \/
  _recursive_get_value (split_dot path) item = Raise e ->
  e = TypeError.
Proof.
  destruct (resolver_raises_type_error (split_dot path) item e
              (split_dot_nonempty path)) as [Hc Hg].
  intros [H|H]; [apply Hc|apply Hg]; exact H.
Qed.

Lemma resolver_only_type_error_witness : TypeError = TypeError.
Proof.
  apply (resolver_only_type_error "address.city" (VDict nameless_flat_address)).
  left. reflexivity.
Defined.

(** X4.  When the path leads to a list holding the last segment as an
    element, or to a string holding it as a substring, the existence check
    returns [True] and the retrieval raises [TypeError]. *)
Theorem sequence_member_checks_but_does_not_read prefix k item container :
  reach prefix item = Some container ->
  member_of_sequence k container = true ->
  _recursive_key_check (prefix ++ [k]) item = Ok true /\
  _recursive_get_value (prefix ++ [k]) item = Raise TypeError.
Proof.
  revert item; induction prefix as [|k0 rest IH]; intros item H Hm.
  - injection H as <-. simpl.
    destruct item as [| | | |s|l|d]; try discriminate; simpl in *; rewrite Hm;
      split; reflexivity.
  - simpl in H. destruct item as [| | | | |l|d]; try discriminate.
    destruct (dict_lookup k0 d) as [sub|] eqn:L; [|discriminate].
    specialize (IH sub H Hm).
    change ((k0 :: rest) ++ [k]) with (k0 :: (rest ++ [k])).
    destruct (rest ++ [k]) as [|k2 tail] eqn:E;
      [destruct rest; discriminate|].
    rewrite key_check_cons, get_value_cons. simpl py_in. simpl py_getitem.
    unfold dict_mem, dict_get. rewrite L. cbn [bind]. exact IH.
Qed.

Lemma sequence_member_checks_but_does_not_read_witness :
  _recursive_key_check (["tags"] ++ ["x"]) (VDict ann) = Ok true /\
  _recursive_get_value (["tags"] ++ ["x"]) (VDict ann) = Raise TypeError.
Proof.
  apply (sequence_member_checks_but_does_not_read ["tags"] "x" (VDict ann)
           (VList [VStr "x"; VStr "y"])); reflexivity.
Defined.

(* ===================================================================== *)
(** * Further properties: node compiler *)
(* ===================================================================== *)

Lemma lookup_property_Ok doc pd pv :
  lookup_property doc pd = Ok pv ->
  _recursive_get_value (split_dot (pd_key pd)) doc = Ok (pv_value pv) /\
  pv_type pv = pd_type pd.
Proof.
  unfold lookup_property. intros H. bind_split H as v Hv.
  injection H as <-. split; [exact Hv|reflexivity].
Qed.

(** One turn of the property loop of a standard node. *)
Lemma standard_node_property_step doc node p u v key pd step :
  standard_node_property doc node (p, u, v) (key, pd) = Ok step ->
  exists p1 u1 v1,
    step = Next (p1, u1, v1) /\
    ((_recursive_key_check (split_dot (pd_key pd)) doc = Ok true /\
      exists pv, lookup_property doc pd = Ok pv /\
                 p1 = dict_set key pv p /\
                 u1 = (if listed key (nd_uniqueProperties node)
                       then dict_set key pv u else u) /\
                 v1 = v) \/
     (_recursive_key_check (split_dot (pd_key pd)) doc = Ok false /\
      p1 = p /\ u1 = u /\
      v1 = (if listed key (nd_requiredProperties node) then false else v))).
Proof.
  unfold standard_node_property. intros H. bind_split H as present Hpresent.
  destruct present.
  - bind_split H as pv Hpv.
    destruct (listed key (nd_uniqueProperties node)); injection H as <-;
      do 3 eexists; (split; [reflexivity|]); left; (split; [assumption|]);
      exists pv; auto.
  - destruct (listed key (nd_requiredProperties node)); injection H as <-;
      do 3 eexists; (split; [reflexivity|]); right; auto.
Qed.

Lemma standard_loop_sound doc node props st p u v :
  for_each (standard_node_property doc node) props st = Ok (p, u, v) ->
  forall k pv, dict_lookup k p = Some pv ->
    dict_lookup k (fst (fst st)) = Some pv \/
    exists pd,
      In (k, pd) props /\
      _recursive_key_check (split_dot (pd_key pd)) doc = Ok true /\
      _recursive_get_value (split_dot (pd_key pd)) doc = Ok (pv_value pv) /\
      pv_type pv = pd_type pd.
Proof.
  revert st; induction props as [|[key pd] props IH]; intros [[p0 u0] v0] H k pv Hk;
    simpl in H.
  - injection H as <- _ _. left; exact Hk.
  - bind_split H as step Hstep.
    destruct (standard_node_property_step _ _ _ _ _ _ _ _ Hstep)
      as (p1 & u1 & v1 & -> & Hcase).
    destruct (IH _ H k pv Hk) as [Hk1|(pd' & Hin & Hrest)];
      [|right; exists pd'; split; [right; exact Hin|exact Hrest]].
    simpl in Hk1. simpl.
    destruct Hcase as [(Hc & pv0 & Hpv0 & -> & _ & _)|(_ & -> & _ & _)];
      [|left; exact Hk1].
    rewrite dict_lookup_set in Hk1.
    destruct (String.eqb_spec k key) as [->|_]; [|left; exact Hk1].
    injection Hk1 as <-. right. exists pd.
    destruct (lookup_property_Ok _ _ _ Hpv0) as [Hv Ht].
    split; [left; reflexivity|]. split; [exact Hc|]. split; assumption.
Qed.

Lemma standard_loop_required doc node props p0 u0 v0 p u :
  for_each (standard_node_property doc node) props (p0, u0, v0) = Ok (p, u, true) ->
  v0 = true /\
  (forall k, dict_lookup k p0 <> None -> dict_lookup k p <> None) /\
  (forall k pd, In (k, pd) props ->
                listed k (nd_requiredProperties node) = true ->
                dict_lookup k p <> None).
Proof.
  revert p0 u0 v0; induction props as [|[key pd] props IH]; intros p0 u0 v0 H;
    simpl in H.
  - injection H as <- _ <-. split; [reflexivity|]. split; [auto|intros k pd []].
  - bind_split H as step Hstep.
    destruct (standard_node_property_step _ _ _ _ _ _ _ _ Hstep)
      as (p1 & u1 & v1 & -> & Hcase).
    destruct (IH _ _ _ H) as (Hv1 & Hkeep & Hreq).
    destruct Hcase as [(_ & pv0 & _ & -> & _ & ->)|(_ & -> & _ & ->)].
    + split; [exact Hv1|]. split.
      * intros k Hk. apply Hkeep. rewrite dict_lookup_set.
        destruct (String.eqb k key); [discriminate|exact Hk].
      * intros k pd' [[= -> ->]|Hin] Hl; [|apply (Hreq _ _ Hin Hl)].
        apply Hkeep. rewrite dict_lookup_set, String.eqb_refl. discriminate.
    + destruct (listed key (nd_requiredProperties node)) eqn:Hl0; [discriminate|].
      split; [exact Hv1|]. split; [exact Hkeep|].
      intros k pd' [[= -> ->]|Hin] Hl; [congruence|apply (Hreq _ _ Hin Hl)].
Qed.

Lemma or_empty_stored {A : Type} (l : list A) (o : option (list A)) :
  o = None ->
  or_empty (match l with [] => o | _ :: _ => Some l end) = l.
Proof. intros ->. destruct l; reflexivity. Qed.

(** What a valid standard node compiled from a blank node holds. *)
Lemma gen_standard_node_valid doc node n :
  _gen_standard_node doc node (blank_node node) = Ok (n, true) ->
  exists p u,
    match nd_properties node with
    | Some props => for_each (standard_node_property doc node) props ([], [], true)
    | None => Ok ([], [], true)
    end = Ok (p, u, true) /\
    or_empty (cn_properties n) = p /\ or_empty (cn_uniqueProperties n) = u /\
    cn_instances n = None.
Proof.
  unfold _gen_standard_node. intros H. bind_split H as st Hst.
  destruct st as [[p u] [|]]; [|discriminate]. injection H as <-.
  exists p, u. split; [exact Hst|]. simpl.
  repeat split; apply or_empty_stored; reflexivity.
Qed.

(** X5.  Every property of a valid standard node is the value found in the
    document at the path declared under that name, with the declared
    type. *)
Theorem standard_node_properties_from_document doc node n :
  _gen_standard_node doc node (blank_node node) = Ok (n, true) ->
  forall k pv,
    dict_lookup k (or_empty (cn_properties n)) = Some pv ->
    exists pd,
      In (k, pd) (or_empty (nd_properties node)) /\
      _recursive_key_check (split_dot (pd_key pd)) doc = Ok true /\
      _recursive_get_value (split_dot (pd_key pd)) doc = Ok (pv_value pv) /\
      pv_type pv = pd_type pd.
Proof.
  intros H k pv Hk.
  destruct (gen_standard_node_valid _ _ _ H) as (p & u & Hloop & Hp & _ & _).
  rewrite Hp in Hk. destruct (nd_properties node) as [props|]; simpl.
  - destruct (standard_loop_sound _ _ _ _ _ _ _ Hloop k pv Hk) as [Hnil|Hpd];
      [discriminate|exact Hpd].
  - injection Hloop as <- _. discriminate.
Qed.

Lemma standard_node_properties_from_document_witness :
  exists pd,
    In ("city", pd) (or_empty (nd_properties person_def)) /\
    _recursive_key_check (split_dot (pd_key pd)) (VDict ann_in_oslo) = Ok true /\
    _recursive_get_value (split_dot (pd_key pd)) (VDict ann_in_oslo)
      = Ok (pv_value (text "Oslo")) /\
    pv_type (text "Oslo") = pd_type pd.
Proof.
  apply (standard_node_properties_from_document (VDict ann_in_oslo) person_def
           located_person eq_refl "city" (text "Oslo")).
  reflexivity.
Defined.

(** X6.  A valid standard node carries every property its definition lists
    as required. *)
Theorem valid_standard_node_has_required doc node n :
  _gen_standard_node doc node (blank_node node) = Ok (n, true) ->
  forall k pd,
    In (k, pd) (or_empty (nd_properties node)) ->
    listed k (nd_requiredProperties node) = true ->
    exists pv, dict_lookup k (or_empty (cn_properties n)) = Some pv.
Proof.
  intros H k pd Hin Hl.
  destruct (gen_standard_node_valid _ _ _ H) as (p & u & Hloop & Hp & _ & _).
  rewrite Hp. destruct (nd_properties node) as [props|]; simpl in Hin; [|contradiction].
  destruct (standard_loop_required _ _ _ _ _ _ _ _ Hloop) as (_ & _ & Hreq).
  specialize (Hreq k pd Hin Hl).
  destruct (dict_lookup k p) as [pv|]; [exists pv; reflexivity|contradiction].
Qed.

Lemma valid_standard_node_has_required_witness :
  exists pv, dict_lookup "name" (or_empty (cn_properties ann_person)) = Some pv.
Proof.
  apply (valid_standard_node_has_required (VDict ann) person_def ann_person eq_refl
           "name" (prop "name" "string")).
  - left; reflexivity.
  - reflexivity.
Defined.

(** ** Unique properties are properties *)

Lemma copies_listed_set names p u v v' key pv :
  copies_listed names (p, u, v) ->
  copies_listed names
    (dict_set key pv p, (if listed key names then dict_set key pv u else u), v').
Proof.
  intros Hinv k pv' Hk. simpl in *.
  destruct (listed key names) eqn:Hl.
  - rewrite dict_lookup_set in Hk. rewrite dict_lookup_set.
    destruct (String.eqb_spec k key) as [->|_].
    + split; [exact Hl|exact Hk].
    + apply (Hinv k pv' Hk).
  - destruct (Hinv k pv' Hk) as [Hlk Hp]. simpl in Hp. split; [exact Hlk|].
    rewrite dict_lookup_set. destruct (String.eqb_spec k key) as [->|_];
      [congruence|exact Hp].
Qed.

Lemma copies_listed_flag names p u v v' :
  copies_listed names (p, u, v) -> copies_listed names (p, u, v').
Proof. intros H k pv Hk. apply (H k pv Hk). Qed.

Lemma copies_listed_within names p u v :
  copies_listed names (p, u, v) -> within (nonempty u) (nonempty p).
Proof.
  intros H k pv Hk.
  assert (forall l : Props, or_empty (nonempty l) = l) as E by (destruct l; reflexivity).
  rewrite E in *. apply (H k pv Hk).
Qed.

Lemma standard_loop_copies doc node props st st' :
  copies_listed (nd_uniqueProperties node) st ->
  for_each (standard_node_property doc node) props st = Ok st' ->
  copies_listed (nd_uniqueProperties node) st'.
Proof.
  intros Hst H.
  refine (for_each_invariant (copies_listed (nd_uniqueProperties node))
            (standard_node_property doc node) props _ st st' Hst H).
  intros [[p u] v] [key pd] r _ Hinv Hbody.
  destruct (standard_node_property_step _ _ _ _ _ _ _ _ Hbody)
    as (p1 & u1 & v1 & -> & [(_ & pv & _ & -> & -> & ->)|(_ & -> & -> & ->)]); simpl.
  - apply (copies_listed_set _ p u v). exact Hinv.
  - apply (copies_listed_flag _ _ _ _ _ Hinv).
Qed.

(** One turn of the property loop of an iterator node. *)
Lemma iterative_node_property_step doc node value p u v key pd step :
  iterative_node_property doc node value (p, u, v) (key, pd) = Ok step ->
  (exists pv,
      ((_recursive_key_check (split_dot (pd_key pd)) doc = Ok true /\
        lookup_property doc pd = Ok pv) \/
       (_recursive_key_check (split_dot (pd_key pd)) doc = Ok false /\
        pd_key pd = "ITER!" /\
        pv = {| pv_value := value; pv_type := pd_type pd |})) /\
      step = Next (dict_set key pv p,
                   (if listed key (nd_uniqueProperties node)
                    then dict_set key pv u else u), v)) \/
  (_recursive_key_check (split_dot (pd_key pd)) doc = Ok false /\
   String.eqb (pd_key pd) "ITER!" = false /\
   step = if listed key (nd_requiredProperties node)
          then Break (p, u, false) else Next (p, u, v)).
Proof.
  unfold iterative_node_property. intros H. bind_split H as present Hpresent.
  destruct present.
  - bind_split H as pv Hpv. left. exists pv. split; [left; auto|].
    destruct (listed key (nd_uniqueProperties node)); injection H as <-; reflexivity.
  - destruct (String.eqb_spec (pd_key pd) "ITER!") as [E|E].
    + left. eexists. split; [right; split; [exact Hpresent|split; [exact E|reflexivity]]|].
      destruct (listed key (nd_uniqueProperties node)); injection H as <-; reflexivity.
    + right. split; [exact Hpresent|]. split; [reflexivity|].
      destruct (listed key (nd_requiredProperties node)); injection H as <-;
        reflexivity.
Qed.

Lemma iterative_loop_copies doc node value props st st' :
  copies_listed (nd_uniqueProperties node) st ->
  for_each (iterative_node_property doc node value) props st = Ok st' ->
  copies_listed (nd_uniqueProperties node) st'.
Proof.
  intros Hst H.
  refine (for_each_invariant (copies_listed (nd_uniqueProperties node))
            (iterative_node_property doc node value) props _ st st' Hst H).
  intros [[p u] v] [key pd] r _ Hinv Hbody.
  destruct (iterative_node_property_step _ _ _ _ _ _ _ _ _ Hbody)
    as [(pv & _ & ->)|(_ & _ & ->)]; simpl.
  - apply (copies_listed_set _ p u v). exact Hinv.
  - destruct (listed key (nd_requiredProperties node)); simpl;
      apply (copies_listed_flag _ _ _ _ _ Hinv).
Qed.

Lemma copies_listed_empty names : copies_listed names ([], [], true).
Proof. intros k pv Hk. discriminate. Qed.

Lemma gen_standard_node_within doc node n valid :
  _gen_standard_node doc node (blank_node node) = Ok (n, valid) ->
  node_unique_within n.
Proof.
  unfold _gen_standard_node. intros H. bind_split H as st Hst.
  assert (copies_listed (nd_uniqueProperties node) st) as Hinv.
  { destruct (nd_properties node) as [props|].
    - apply (standard_loop_copies _ _ _ _ _ (copies_listed_empty _) Hst).
    - injection Hst as <-. apply copies_listed_empty. }
  destruct st as [[p u] [|]]; injection H as <- _.
  - split; [|intros i []]. simpl.
    pose proof (copies_listed_within _ _ _ _ Hinv) as Hw.
    destruct p, u; exact Hw.
  - split; [intros k pv Hk; discriminate|intros i []].
Qed.

Lemma iterative_instances_within doc node values acc final :
  (forall i, In i acc -> within (ni_uniqueProperties i) (ni_properties i)) ->
  for_each (iterative_node_instance doc node) values acc = Ok final ->
  forall i, In i final -> within (ni_uniqueProperties i) (ni_properties i).
Proof.
  intros Hacc H.
  refine (for_each_invariant
            (fun l => forall i, In i l ->
                                within (ni_uniqueProperties i) (ni_properties i))
            (iterative_node_instance doc node) values _ acc final Hacc H).
  intros l value r _ Hinv Hbody. unfold iterative_node_instance in Hbody.
  bind_split Hbody as st Hst.
  assert (copies_listed (nd_uniqueProperties node) st) as Hst'.
  { destruct (nd_properties node) as [props|].
    - apply (iterative_loop_copies _ _ _ _ _ _ (copies_listed_empty _) Hst).
    - injection Hst as <-. apply copies_listed_empty. }
  destruct st as [[p u] [|]]; injection Hbody as <-; simpl; [|exact Hinv].
  intros i Hi. apply in_app_or in Hi. destruct Hi as [Hi|[<-|[]]]; [auto|].
  simpl. apply (copies_listed_within _ _ _ _ Hst').
Qed.

Lemma gen_iterative_node_within doc node n valid :
  _gen_iterative_node doc node (blank_node node) = Ok (n, valid) ->
  node_unique_within n.
Proof.
  unfold _gen_iterative_node. intros H. bind_split H as path Hpath.
  bind_split H as present Hpresent. bind_split H as node_list Hlist.
  assert (forall i, In i node_list ->
                    within (ni_uniqueProperties i) (ni_properties i)) as Hall.
  { destruct present.
    - bind_split Hlist as arr Harr. bind_split Hlist as values Hvalues.
      apply (iterative_instances_within _ _ _ _ _ (fun i (F : In i []) => match F with end)
               Hlist).
    - injection Hlist as <-. intros i []. }
  destruct node_list as [|i0 l]; injection H as <- _.
  - split; [intros k pv Hk; discriminate|intros i []].
  - split; [intros k pv Hk; discriminate|]. simpl. exact Hall.
Qed.

(** X7.  In every node [_gen_nodes] returns, and in every instance of an
    iterator node among them, each entry of [uniqueProperties] is an entry
    of [properties], with the same value and type. *)
Theorem compiled_nodes_unique_within mapping doc nodes valid :
  _gen_nodes mapping doc = Ok (nodes, valid) ->
  forall n, In n nodes -> node_unique_within n.
Proof.
  unfold _gen_nodes. intros H.
  refine (for_each_invariant
            (fun st => forall n, In n (fst st) -> node_unique_within n)
            (gen_nodes_body doc) (m_nodes mapping) _ ([], true) (nodes, valid) _ H).
  - intros [ns vd] node r _ Hinv Hbody. unfold gen_nodes_body in Hbody.
    bind_split Hbody as compiled Hcompiled. destruct compiled as [n' [|]].
    + injection Hbody as <-. simpl. intros n Hn. apply in_app_or in Hn.
      destruct Hn as [Hn|[<-|[]]]; [apply Hinv; exact Hn|].
      change {| cn_nodeType := nd_nodeType node; cn_labels := nd_labels node;
                cn_id := nd_id node; cn_properties := None;
                cn_uniqueProperties := None; cn_uniqueLabels := None;
                cn_instances := None |} with (blank_node node) in Hcompiled.
      destruct (String.eqb (nd_nodeType node) "standard").
      * apply (gen_standard_node_within _ _ _ _ Hcompiled).
      * destruct (String.eqb (nd_nodeType node) "iterator"); [|discriminate].
        apply (gen_iterative_node_within _ _ _ _ Hcompiled).
    + destruct (nd_required node); injection Hbody as <-; exact Hinv.
  - intros n [].
Qed.

Lemma compiled_nodes_unique_within_witness :
  node_unique_within ann_person /\ node_unique_within ann_tags.
Proof.
  split;
    apply (compiled_nodes_unique_within tags_mapping (VDict ann)
             [ann_person; ann_tags] true eq_refl); simpl; auto.
Defined.

(** ** Iterator nodes *)

(** Whether the property loop of an element ends valid does not depend on
    the element. *)
Lemma iterative_loop_validity doc node v1 v2 props st1 st2 r1 r2 :
  snd st1 = snd st2 ->
  for_each (iterative_node_property doc node v1) props st1 = Ok r1 ->
  for_each (iterative_node_property doc node v2) props st2 = Ok r2 ->
  snd r1 = snd r2.
Proof.
  revert st1 st2; induction props as [|[key pd] props IH];
    intros [[p1 u1] b1] [[p2 u2] b2] Hb H1 H2; simpl in Hb; subst b2; simpl in H1, H2.
  - injection H1 as <-. injection H2 as <-. reflexivity.
  - bind_split H1 as step1 Hstep1. bind_split H2 as step2 Hstep2.
    destruct (iterative_node_property_step _ _ _ _ _ _ _ _ _ Hstep1)
      as [(pv1 & Hc1 & ->)|(Hc1 & He1 & ->)];
    destruct (iterative_node_property_step _ _ _ _ _ _ _ _ _ Hstep2)
      as [(pv2 & Hc2 & ->)|(Hc2 & He2 & ->)].
    + refine (IH _ _ _ H1 H2). reflexivity.
    + exfalso. destruct Hc1 as [[Hc1 _]|(_ & Hc1 & _)]; [congruence|].
      rewrite Hc1 in He2. discriminate.
    + exfalso. destruct Hc2 as [[Hc2 _]|(_ & Hc2 & _)]; [congruence|].
      rewrite Hc2 in He1. discriminate.
    + destruct (listed key (nd_requiredProperties node)).
      * injection H1 as <-. injection H2 as <-. reflexivity.
      * refine (IH _ _ _ H1 H2). reflexivity.
Qed.

(** A property loop that ends valid went through every declaration; a name
    declared once with the path [ITER!], absent from the document, holds the
    element. *)
Lemma iterative_loop_binds doc node value props :
  NoDup (keys props) ->
  forall st p u,
    for_each (iterative_node_property doc node value) props st = Ok (p, u, true) ->
    (forall k, ~ In k (keys props) -> dict_lookup k p = dict_lookup k (fst (fst st))) /\
    (forall key pd,
        In (key, pd) props -> pd_key pd = "ITER!" ->
        _recursive_key_check (split_dot "ITER!") doc = Ok false ->
        dict_lookup key p = Some {| pv_value := value; pv_type := pd_type pd |}).
Proof.
  induction props as [|[key0 pd0] props IH]; intros Hnd [[p0 u0] v0] p u H;
    simpl in H.
  - injection H as <- _ _. split; [reflexivity|intros key pd []].
  - inversion Hnd as [|? ? Hnotin Hnd']; subst.
    bind_split H as step Hstep.
    destruct (iterative_node_property_step _ _ _ _ _ _ _ _ _ Hstep)
      as [(pv & Hc & ->)|(Hc & He & ->)].
    + destruct (IH Hnd' _ _ _ H) as [Hkeep Hbind]. simpl in Hkeep. split.
      * intros k Hk. rewrite Hkeep by (intros Hin; apply Hk; right; exact Hin).
        rewrite dict_lookup_set. simpl.
        destruct (String.eqb_spec k key0) as [->|_]; [|reflexivity].
        exfalso. apply Hk. left; reflexivity.
      * intros key pd [[= -> ->]|Hin] Hpath Hcheck; [|apply (Hbind _ _ Hin Hpath Hcheck)].
        rewrite (Hkeep key Hnotin), dict_lookup_set, String.eqb_refl.
        destruct Hc as [[Hc _]|(_ & _ & ->)]; [|reflexivity].
        rewrite Hpath in Hc. congruence.
    + destruct (listed key0 (nd_requiredProperties node)); [discriminate|].
      destruct (IH Hnd' _ _ _ H) as [Hkeep Hbind]. split.
      * intros k Hk. apply Hkeep. intros Hin; apply Hk; right; exact Hin.
      * intros key pd [[= -> ->]|Hin] Hpath Hcheck; [|apply (Hbind _ _ Hin Hpath Hcheck)].
        rewrite Hpath in He. discriminate.
Qed.

Lemma iterative_instances_all_valid doc node values acc final :
  (forall v, In v values ->
     forall p u b, instance_properties doc node v = Ok (p, u, b) -> b = true) ->
  for_each (iterative_node_instance doc node) values acc = Ok final ->
  exists added,
    final = acc ++ added /\
    Forall2
      (fun v i =>
         exists p u,
           instance_properties doc node v = Ok (p, u, true) /\
           ni_properties i = nonempty p)
      values added.
Proof.
  revert acc; induction values as [|v values IH]; intros acc Hall H; simpl in H.
  - injection H as <-. exists []. rewrite app_nil_r. split; constructor.
  - bind_split H as step Hstep. unfold iterative_node_instance in Hstep.
    bind_split Hstep as st Hst. destruct st as [[p u] b].
    change (instance_properties doc node v = Ok (p, u, b)) in Hst.
    pose proof (Hall v (or_introl eq_refl) _ _ _ Hst) as ->.
    injection Hstep as <-.
    destruct (IH _ (fun v' Hin => Hall v' (or_intror Hin)) H) as (added & -> & Hf).
    eexists. rewrite <- app_assoc. split; [reflexivity|].
    simpl. constructor; [|exact Hf]. exists p, u. split; [exact Hst|reflexivity].
Qed.

Lemma iterative_instances_none_valid doc node values acc final :
  (forall v, In v values ->
     forall p u b, instance_properties doc node v = Ok (p, u, b) -> b = false) ->
  for_each (iterative_node_instance doc node) values acc = Ok final ->
  final = acc.
Proof.
  revert acc; induction values as [|v values IH]; intros acc Hall H; simpl in H.
  - injection H as <-. reflexivity.
  - bind_split H as step Hstep. unfold iterative_node_instance in Hstep.
    bind_split Hstep as st Hst. destruct st as [[p u] b].
    change (instance_properties doc node v = Ok (p, u, b)) in Hst.
    pose proof (Hall v (or_introl eq_refl) _ _ _ Hst) as ->.
    injection Hstep as <-.
    apply (IH _ (fun v' Hin => Hall v' (or_intror Hin)) H).
Qed.

(** X8.  A valid iterator node whose document has no top-level key [ITER!]
    has one instance per element of the array at its iterator path, in
    order, and a property declared (once) with the path [ITER!] holds, in
    instance [i], element [i] with the declared type. *)
Theorem iterator_node_binds_elements fields node new path props key pd n :
  dict_lookup "ITER!" fields = None ->
  nd_iterator node = Some path ->
  nd_properties node = Some props ->
  NoDup (keys props) ->
  In (key, pd) props ->
  pd_key pd = "ITER!" ->
  _gen_iterative_node (VDict fields) node new = Ok (n, true) ->
  exists arr values instances,
    _recursive_get_value (split_dot path) (VDict fields) = Ok arr /\
    py_iter arr = Ok values /\
    cn_instances n = Some instances /\
    Forall2
      (fun v i =>
         dict_lookup key (or_empty (ni_properties i)) =
         Some {| pv_value := v; pv_type := pd_type pd |})
      values instances.
Proof.
  intros Hno Hpath Hprops Hnd Hin Hiter H.
  unfold _gen_iterative_node in H. rewrite Hpath in H. cbn [field bind] in H.
  bind_split H as present Hpresent. bind_split H as node_list Hlist.
  destruct node_list as [|i0 l]; [discriminate|]. injection H as <-.
  destruct present; [|discriminate].
  bind_split Hlist as arr Harr. bind_split Hlist as values Hvalues.
  exists arr, values, (i0 :: l). repeat (split; [assumption || reflexivity|]).
  assert (_recursive_key_check (split_dot "ITER!") (VDict fields) = Ok false) as Hcheck.
  { simpl. unfold dict_mem. rewrite Hno. reflexivity. }
  destruct values as [|v0 values]; [discriminate|].
  assert (exists p0 u0 b0, instance_properties (VDict fields) node v0 = Ok (p0, u0, b0))
    as (p0 & u0 & b0 & H0).
  { simpl in Hlist. bind_split Hlist as step Hstep.
    unfold iterative_node_instance in Hstep. bind_split Hstep as st Hst.
    destruct st as [[p0 u0] b0]. exists p0, u0, b0. exact Hst. }
  assert (forall v p u b,
             instance_properties (VDict fields) node v = Ok (p, u, b) -> b = b0)
    as Hsame.
  { intros v p u b Hv. unfold instance_properties in Hv, H0.
    rewrite Hprops in Hv, H0.
    refine (iterative_loop_validity _ _ _ _ _ _ _ _ _ _ Hv H0). reflexivity. }
  destruct b0.
  - destruct (iterative_instances_all_valid _ _ _ _ _
                (fun v _ p u b Hv => Hsame v p u b Hv) Hlist)
      as (added & Hadded & Hf).
    simpl in Hadded. subst added.
    refine (Forall2_impl _ _ Hf). intros v i (p & u & Hv & ->).
    assert (or_empty (nonempty p) = p) as -> by (destruct p; reflexivity).
    unfold instance_properties in Hv. rewrite Hprops in Hv.
    destruct (iterative_loop_binds _ _ _ _ Hnd _ _ _ Hv) as [_ Hbind].
    apply (Hbind key pd Hin Hiter Hcheck).
  - pose proof (iterative_instances_none_valid _ _ _ _ _
                  (fun v _ p u b Hv => Hsame v p u b Hv) Hlist).
    discriminate.
Qed.

Lemma iterator_node_binds_elements_witness :
  exists arr values instances,
    _recursive_get_value (split_dot "tags") (VDict ann) = Ok arr /\
    py_iter arr = Ok values /\
    cn_instances ann_tags = Some instances /\
    Forall2
      (fun v i =>
         dict_lookup "tag" (or_empty (ni_properties i)) =
         Some {| pv_value := v; pv_type := pd_type (prop "ITER!" "string") |})
      values instances.
Proof.
  apply (iterator_node_binds_elements ann tag_def (blank_node tag_def) "tags"
           [("tag", prop "ITER!" "string")] "tag" (prop "ITER!" "string") ann_tags).
  - reflexivity.
  - reflexivity.
  - reflexivity.
  - constructor; [intros []|constructor].
  - left; reflexivity.
  - reflexivity.
  - reflexivity.
Defined.

(** X9.  An iterator node whose path is absent from the document, or leads
    to an empty array, is invalid: the node comes back untouched, without
    instances, and nothing is raised. *)
Theorem iterator_node_without_elements doc node new path :
  nd_iterator node = Some path ->
  _recursive_key_check (split_dot path) doc = Ok false \/
  (_recursive_key_check (split_dot path) doc = Ok true /\
   exists arr, _recursive_get_value (split_dot path) doc = Ok arr /\
               py_iter arr = Ok []) ->
  _gen_iterative_node doc node new = Ok (new, false).
Proof.
  intros Hpath [Hc|(Hc & arr & Harr & Hit)]; unfold _gen_iterative_node;
    rewrite Hpath; cbn [field bind]; rewrite Hc; cbn [bind]; [reflexivity|].
  rewrite Harr. cbn [bind]. rewrite Hit. reflexivity.
Qed.

Lemma iterator_node_without_elements_witness :
  _gen_iterative_node (VDict ann_in_oslo) tag_def (blank_node tag_def)
    = Ok (blank_node tag_def, false).
Proof.
  apply (iterator_node_without_elements (VDict ann_in_oslo) tag_def
           (blank_node tag_def) "tags").
  - reflexivity.
  - left. reflexivity.
Defined.

(** ** The node loop *)

Lemma gen_standard_node_header doc node new_node n valid :
  _gen_standard_node doc node new_node = Ok (n, valid) ->
  cn_id n = cn_id new_node /\ cn_nodeType n = cn_nodeType new_node /\
  cn_labels n = cn_labels new_node.
Proof.
  unfold _gen_standard_node. intros H. bind_split H as st Hst.
  destruct st as [[p u] [|]]; injection H as <- _; auto.
Qed.

Lemma gen_iterative_node_header doc node new_node n valid :
  _gen_iterative_node doc node new_node = Ok (n, valid) ->
  cn_id n = cn_id new_node /\ cn_nodeType n = cn_nodeType new_node /\
  cn_labels n = cn_labels new_node.
Proof.
  unfold _gen_iterative_node. intros H. bind_split H as path Hpath.
  bind_split H as present Hpresent. bind_split H as node_list Hlist.
  destruct node_list; injection H as <- _; auto.
Qed.

Lemma compile_node_header doc node n valid :
  compile_node doc node = Ok (n, valid) ->
  cn_id n = nd_id node /\ cn_nodeType n = nd_nodeType node /\
  cn_labels n = nd_labels node.
Proof.
  unfold compile_node. intros H.
  destruct (String.eqb (nd_nodeType node) "standard").
  - apply (gen_standard_node_header _ _ _ _ _ H).
  - destruct (String.eqb (nd_nodeType node) "iterator").
    + apply (gen_iterative_node_header _ _ _ _ _ H).
    + injection H as <- _. auto.
Qed.

(** One turn of the loop of [_gen_nodes]. *)
Lemma gen_nodes_body_cases doc ns vd node step :
  gen_nodes_body doc (ns, vd) node = Ok step ->
  exists n v,
    compile_node doc node = Ok (n, v) /\
    step = if v then Next (ns ++ [n], vd)
           else if nd_required node then Break (ns, false) else Next (ns, vd).
Proof.
  intros H.
  change (gen_nodes_body doc (ns, vd) node)
    with (compiled <- compile_node doc node ;;
          let (new_node, valid) := compiled in
          if valid then Ok (Next (ns ++ [new_node], vd))
          else if nd_required node then Ok (Break (ns, false))
          else Ok (Next (ns, vd))) in H.
  bind_split H as compiled Hcompiled. destruct compiled as [n v].
  exists n, v. split; [exact Hcompiled|].
  destruct v; [|destruct (nd_required node)]; injection H as <-; reflexivity.
Qed.

Lemma gen_nodes_loop_valid doc l ns vd nodes :
  for_each (gen_nodes_body doc) l (ns, vd) = Ok (nodes, true) ->
  (forall n, In n ns -> In n nodes) /\
  (forall node, In node l -> nd_required node = true ->
     exists n, In n nodes /\ cn_id n = nd_id node /\
               cn_nodeType n = nd_nodeType node /\ cn_labels n = nd_labels node).
Proof.
  revert ns vd; induction l as [|a l IH]; intros ns vd H; simpl in H.
  - injection H as <- _. split; [auto|intros node []].
  - bind_split H as step Hstep.
    destruct (gen_nodes_body_cases _ _ _ _ _ Hstep) as (n & v & Hc & ->).
    destruct v.
    + destruct (IH _ _ H) as [Hkeep Hreq]. split.
      * intros n' Hn'. apply Hkeep. apply in_or_app. left; exact Hn'.
      * intros node [<-|Hin] Hr; [|apply (Hreq _ Hin Hr)].
        exists n. split; [apply Hkeep, in_or_app; right; left; reflexivity|].
        apply (compile_node_header _ _ _ _ Hc).
    + destruct (nd_required a) eqn:Hra; [discriminate|].
      destruct (IH _ _ H) as [Hkeep Hreq]. split; [exact Hkeep|].
      intros node [<-|Hin] Hr; [congruence|apply (Hreq _ Hin Hr)].
Qed.

(** X10.  When [_gen_nodes] declares a document valid, every node
    definition marked required has a compiled node with its id, node type
    and labels. *)
Theorem valid_document_has_required_nodes mapping doc nodes :
  _gen_nodes mapping doc = Ok (nodes, true) ->
  forall node, In node (m_nodes mapping) -> nd_required node = true ->
    exists n, In n nodes /\ cn_id n = nd_id node /\
              cn_nodeType n = nd_nodeType node /\ cn_labels n = nd_labels node.
Proof.
  intros H. apply (gen_nodes_loop_valid _ _ _ _ _ H).
Qed.

Lemma valid_document_has_required_nodes_witness :
  exists n, In n [ann_person; ann_tags] /\ cn_id n = nd_id person_def /\
            cn_nodeType n = nd_nodeType person_def /\
            cn_labels n = nd_labels person_def.
Proof.
  apply (valid_document_has_required_nodes tags_mapping (VDict ann)
           [ann_person; ann_tags] eq_refl person_def).
  - left; reflexivity.
  - reflexivity.
Defined.

Lemma gen_nodes_loop_stops doc before node after st ns bad :
  for_each (gen_nodes_body doc) before st = Ok (ns, true) ->
  nd_required node = true ->
  compile_node doc node = Ok (bad, false) ->
  for_each (gen_nodes_body doc) (before ++ node :: after) st = Ok (ns, false).
Proof.
  intros H Hreq Hbad. revert st H.
  induction before as [|a before IH]; intros st H; simpl in H |- *.
  - injection H as ->.
    change (gen_nodes_body doc (ns, true) node)
      with (compiled <- compile_node doc node ;;
            let (new_node, valid) := compiled in
            if valid then Ok (Next (ns ++ [new_node], true))
            else if nd_required node then Ok (Break (ns, false))
            else Ok (Next (ns, true))).
    rewrite Hbad. cbn [bind]. rewrite Hreq. reflexivity.
  - destruct st as [ns0 vd0]. bind_split H as step Hstep. rewrite Hstep. cbn [bind].
    destruct (gen_nodes_body_cases _ _ _ _ _ Hstep) as (n & v & Hc & ->).
    destruct v; [apply IH; exact H|].
    destruct (nd_required a); [discriminate|apply IH; exact H].
Qed.

(** X11.  When the node definitions before a required one compile and that
    one is invalid, [_gen_nodes] returns the nodes compiled so far with the
    document declared invalid, whatever definitions follow: they are not
    evaluated. *)
Theorem required_node_failure_stops_compilation mapping doc before node after
    nodes bad :
  m_nodes mapping = before ++ node :: after ->
  _gen_nodes (with_nodes mapping before) doc = Ok (nodes, true) ->
  nd_required node = true ->
  compile_node doc node = Ok (bad, false) ->
  _gen_nodes mapping doc = Ok (nodes, false).
Proof.
  unfold _gen_nodes. simpl. intros -> H Hreq Hbad.
  apply (gen_nodes_loop_stops _ _ _ _ _ _ _ H Hreq Hbad).
Qed.

Lemma required_node_failure_stops_compilation_witness :
  _gen_nodes tags_mapping (VDict nameless) = Ok ([], false).
Proof.
  apply (required_node_failure_stops_compilation tags_mapping (VDict nameless)
           [] person_def [tag_def] [] (blank_node person_def)); reflexivity.
Defined.

(* ===================================================================== *)
(** * Further properties: relationship compiler *)
(* ===================================================================== *)

Lemma find_node_Some_aux target nodes found n :
  fold_left
    (fun found node => if String.eqb (cn_id node) target then Some node else found)
    nodes found = Some n ->
  found = Some n \/ (In n nodes /\ cn_id n = target).
Proof.
  revert found; induction nodes as [|a nodes IH]; intros found H; simpl in H.
  - left; exact H.
  - destruct (IH _ H) as [Hf|[Hin Hid]]; [|right; split; [right; exact Hin|exact Hid]].
    destruct (String.eqb_spec (cn_id a) target) as [E|_]; [|left; exact Hf].
    injection Hf as <-. right. split; [left; reflexivity|exact E].
Qed.

Lemma find_node_Some target nodes n :
  find_node target nodes = Some n -> In n nodes /\ cn_id n = target.
Proof.
  intros H. destruct (find_node_Some_aux _ _ _ _ H) as [Hf|Hn]; [discriminate|exact Hn].
Qed.

(** X12.  A valid standard relationship refers to two nodes of the list it
    was compiled against, carrying the source and destination ids of its
    definition, and has the declared directionality. *)
Theorem valid_standard_relationship_endpoints doc r nodes new rel :
  _gen_standard_relationship doc r nodes new = Ok (rel, true) ->
  exists s d,
    cr_sourceNode rel = Some s /\ In s nodes /\ cn_id s = rd_sourceNode r /\
    cr_destinationNode rel = Some d /\ In d nodes /\
    cn_id d = rd_destinationNode r /\
    cr_directionality rel = Some (rd_directionality r).
Proof.
  unfold _gen_standard_relationship.
  destruct (find_node (rd_sourceNode r) nodes) as [s|] eqn:Es; [|discriminate].
  destruct (find_node (rd_destinationNode r) nodes) as [d|] eqn:Ed; [|discriminate].
  intros H. bind_split H as st Hst. destruct st as [[p u] [|]]; [|discriminate].
  injection H as <-. exists s, d. simpl.
  destruct (find_node_Some _ _ _ Es), (find_node_Some _ _ _ Ed). auto 10.
Qed.

Lemma valid_standard_relationship_endpoints_witness :
  exists s d,
    cr_sourceNode ann_knows = Some s /\ In s [ann_person] /\
    cn_id s = rd_sourceNode knows_def /\
    cr_destinationNode ann_knows = Some d /\ In d [ann_person] /\
    cn_id d = rd_destinationNode knows_def /\
    cr_directionality ann_knows = Some (rd_directionality knows_def).
Proof.
  exact (valid_standard_relationship_endpoints (VDict ann_since) knows_def
           [ann_person] (blank_relationship knows_def) ann_knows eq_refl).
Defined.

Lemma scan_nodes_found target nodes c it s :
  NoDup (map cn_id nodes) ->
  In s nodes ->
  cn_id s = target ->
  scan_nodes target nodes c it =
    (Some s, (if is_iterator s then S c else c),
     (if is_iterator s then Some s else it)).
Proof.
  unfold scan_nodes. intros Hnd Hin Hid.
  induction nodes as [|a nodes IH]; [contradiction|].
  inversion Hnd as [|? ? Hnotin Hnd']; subst. simpl.
  destruct Hin as [->|Hin].
  - rewrite String.eqb_refl. rewrite scan_no_match.
    + unfold is_iterator.
      destruct (String.eqb (cn_nodeType s) "iterator"); reflexivity.
    + intros n Hn En. apply Hnotin. rewrite <- En. apply in_map. exact Hn.
  - destruct (String.eqb_spec (cn_id a) (cn_id s)) as [E|_].
    + exfalso. apply Hnotin. rewrite E. apply in_map. exact Hin.
    + apply (IH Hnd' Hin).
Qed.

(** X13.  With pairwise distinct node ids, an iterator relationship whose
    two endpoints are both iterator nodes, or both not, is invalid; nothing
    is raised and no property is evaluated. *)
Theorem iterator_relationship_needs_one_iterator doc r nodes new s d :
  NoDup (map cn_id nodes) ->
  In s nodes -> cn_id s = rd_sourceNode r ->
  In d nodes -> cn_id d = rd_destinationNode r ->
  is_iterator s = is_iterator d ->
  exists rel, _gen_iterative_relationship doc r nodes new = Ok (rel, false).
Proof.
  intros Hnd Hs Hsid Hd Hdid Hsame. unfold _gen_iterative_relationship.
  rewrite (scan_nodes_found _ _ 0 None s Hnd Hs Hsid).
  rewrite (scan_nodes_found _ _ _ _ d Hnd Hd Hdid).
  rewrite Hsame. destruct (is_iterator d); eexists; reflexivity.
Qed.

Lemma iterator_relationship_needs_one_iterator_witness :
  exists rel,
    _gen_iterative_relationship (VDict ann) knows_iterator_def [ann_person; ann_tags]
      (blank_relationship knows_iterator_def) = Ok (rel, false).
Proof.
  apply (iterator_relationship_needs_one_iterator (VDict ann) knows_iterator_def
           [ann_person; ann_tags] (blank_relationship knows_iterator_def)
           ann_person ann_person).
  - constructor; [simpl; intros [E|[]]; discriminate|].
    constructor; [intros []|constructor].
  - left; reflexivity.
  - reflexivity.
  - left; reflexivity.
  - reflexivity.
  - reflexivity.
Defined.

Lemma relationship_loop_copies doc r props st st' :
  copies_listed (rd_uniqueProperties r) st ->
  for_each (relationship_property doc r) props st = Ok st' ->
  copies_listed (rd_uniqueProperties r) st'.
Proof.
  intros Hst H.
  refine (for_each_invariant (copies_listed (rd_uniqueProperties r))
            (relationship_property doc r) props _ st st' Hst H).
  intros [[p u] v] [key pd] step _ Hinv Hbody.
  unfold relationship_property in Hbody. bind_split Hbody as present Hpresent.
  bind_split Hbody as stored Hstored.
  assert (forall p1, (p1 = p \/ exists pv, p1 = dict_set key pv p) ->
            forall step',
              (if listed key (rd_uniqueProperties r)
               then pv <- dict_get key p1 ;;
                    Ok (Next (p1, dict_set key pv u, v))
               else Ok (Next (p1, u, v))) = Ok step' ->
              copies_listed (rd_uniqueProperties r) (ctl_state step')) as Hcopy.
  { intros p1 Hp1 step' Hs k pv' Hk.
    destruct (listed key (rd_uniqueProperties r)) eqn:Hl.
    - bind_split Hs as pv Hpv. injection Hs as <-. simpl in *.
      unfold dict_get in Hpv. destruct (dict_lookup key p1) as [pv0|] eqn:L;
        [injection Hpv as ->|discriminate].
      rewrite dict_lookup_set in Hk. destruct (String.eqb_spec k key) as [->|Hne].
      + injection Hk as <-. split; [exact Hl|exact L].
      + destruct (Hinv k pv' Hk) as [Hlk Hp]. split; [exact Hlk|]. simpl in Hp.
        destruct Hp1 as [->|(pv1 & ->)]; [exact Hp|].
        rewrite dict_lookup_set. destruct (String.eqb_spec k key); [contradiction|exact Hp].
    - injection Hs as <-. simpl in *. destruct (Hinv k pv' Hk) as [Hlk Hp].
      split; [exact Hlk|]. simpl in Hp.
      destruct Hp1 as [->|(pv1 & ->)]; [exact Hp|].
      rewrite dict_lookup_set. destruct (String.eqb_spec k key) as [->|_];
        [congruence|exact Hp]. }
  destruct present.
  - bind_split Hstored as pv Hpv. injection Hstored as <-.
    apply (Hcopy _ (or_intror (ex_intro _ pv eq_refl)) _ Hbody).
  - destruct (listed key (rd_requiredProperties r)); injection Hstored as <-.
    + injection Hbody as <-. simpl. apply (copies_listed_flag _ _ _ _ _ Hinv).
    + apply (Hcopy _ (or_introl eq_refl) _ Hbody).
Qed.

Lemma relationship_properties_copies doc r p u v :
  relationship_properties doc r = Ok (p, u, v) ->
  copies_listed (rd_uniqueProperties r) (p, u, v).
Proof.
  unfold relationship_properties. destruct (rd_properties r) as [props|].
  - apply relationship_loop_copies, copies_listed_empty.
  - intros [= <- <- <-]. apply copies_listed_empty.
Qed.

Lemma gen_relationships_body_cases doc nodes rs vd r step :
  gen_relationships_body doc nodes (rs, vd) r = Ok step ->
  exists rel v,
    (if String.eqb (rd_relationshipType r) "standard" then
       _gen_standard_relationship doc r nodes (blank_relationship r)
     else if String.eqb (rd_relationshipType r) "iterator" then
       _gen_iterative_relationship doc r nodes (blank_relationship r)
     else Ok (blank_relationship r, false)) = Ok (rel, v) /\
    step = if v then Next (rs ++ [rel], vd)
           else if rd_required r then Break (rs, false) else Next (rs, vd).
Proof.
  unfold gen_relationships_body. intros H. bind_split H as compiled Hcompiled.
  destruct compiled as [rel v]. exists rel, v. split; [exact Hcompiled|].
  destruct v; [|destruct (rd_required r)]; injection H as <-; reflexivity.
Qed.

(** X14.  In every relationship [_gen_relationships] returns, and in every
    instance of an iterator relationship among them, each entry of
    [uniqueProperties] is an entry of [properties], with the same value and
    type. *)
Theorem compiled_relationships_unique_within mapping doc nodes rels valid :
  _gen_relationships mapping doc nodes = Ok (rels, valid) ->
  forall r, In r rels -> relationship_unique_within r.
Proof.
  unfold _gen_relationships. intros H.
  refine (for_each_invariant
            (fun st => forall r, In r (fst st) -> relationship_unique_within r)
            (gen_relationships_body doc nodes) (m_relationships mapping) _
            ([], true) (rels, valid) _ H).
  - intros [rs vd] r step _ Hinv Hbody.
    destruct (gen_relationships_body_cases _ _ _ _ _ _ Hbody) as (rel & v & Hc & ->).
    destruct v; [|destruct (rd_required r); exact Hinv].
    simpl. intros r' Hr'. apply in_app_or in Hr'.
    destruct Hr' as [Hr'|[<-|[]]]; [apply Hinv; exact Hr'|].
    destruct (String.eqb (rd_relationshipType r) "standard").
    + unfold _gen_standard_relationship in Hc.
      destruct (find_node (rd_sourceNode r) nodes); [|discriminate].
      destruct (find_node (rd_destinationNode r) nodes); [|discriminate].
      bind_split Hc as st Hst. destruct st as [[p u] [|]]; [|discriminate].
      injection Hc as <-. split; [|intros i []]. simpl.
      pose proof (copies_listed_within _ _ _ _ (relationship_properties_copies _ _ _ _ _ Hst))
        as Hw.
      destruct p, u; exact Hw.
    + destruct (String.eqb (rd_relationshipType r) "iterator"); [|discriminate].
      destruct (iterative_instances_shape _ _ _ _ _ Hc)
        as (p & u & instances & Hp & Hi & Hall).
      split.
      * unfold _gen_iterative_relationship in Hc.
        destruct (scan_nodes (rd_sourceNode r) nodes 0 None) as [[src c0] it0].
        destruct (scan_nodes (rd_destinationNode r) nodes c0 it0) as [[dst c1] it1].
        bind_split Hc as is0 His. destruct is0; injection Hc as <- _;
          intros k pv Hk; discriminate.
      * rewrite Hi. simpl. intros i Hin. rewrite (Hall i Hin). simpl.
        apply (copies_listed_within _ _ _ _ (relationship_properties_copies _ _ _ _ _ Hp)).
  - intros r [].
Qed.

Lemma compiled_relationships_unique_within_witness :
  cr_uniqueProperties ann_knows <> None /\
  relationship_unique_within ann_knows /\
  cr_instances ann_tagged_by = Some [tagged_by_instance; tagged_by_instance] /\
  ri_uniqueProperties tagged_by_instance <> None /\
  relationship_unique_within ann_tagged_by.
Proof.
  pose proof (compiled_relationships_unique_within acquaintance_mapping
                (VDict ann_tagging) [ann_person; ann_tags]
                [ann_knows; ann_tagged_by] true eq_refl) as Hall.
  split; [discriminate|]. split; [apply Hall; left; reflexivity|].
  split; [reflexivity|]. split; [discriminate|].
  apply Hall; right; left; reflexivity.
Defined.

(* ===================================================================== *)
(** * Positional correlation of iterator relationships *)
(* ===================================================================== *)












(* ===================================================================== *)
(** * Further properties: statement generator *)
(* ===================================================================== *)

Lemma prefix_append (a b : string) : String.prefix a (a ++ b)%string = true.
Proof.
  induction a as [|c a IH]; simpl; [destruct b; reflexivity|].
  destruct (Ascii.ascii_dec c c) as [_|Hne]; [exact IH|contradiction Hne; reflexivity].
Qed.

Lemma prefix_append_more (a b c : string) :
  String.prefix a b = true -> String.prefix a (b ++ c)%string = true.
Proof.
  revert b; induction a as [|x a IH]; intros b H.
  - destruct (b ++ c)%string; reflexivity.
  - destruct b as [|y b]; [discriminate|]. simpl in *.
    destruct (Ascii.ascii_dec x y); [apply IH; exact H|discriminate].
Qed.

Lemma plain_node_statement_opening str_other e :
  ep_uniqueProperties e = None ->
  String.prefix (opening e) (plain_node_statement str_other e) = true.
Proof.
  intros Hu. unfold opening, uses_merge, plain_node_statement. rewrite Hu.
  destruct (ep_uniqueLabels e); apply prefix_append_more, prefix_append.
Qed.

Lemma merge_node_statement_opening str_other e up need :
  ep_uniqueProperties e = Some up ->
  String.prefix (opening e) (merge_node_statement str_other e up need) = true.
Proof.
  intros Hu. unfold opening, uses_merge, merge_node_statement. rewrite Hu.
  apply prefix_append.
Qed.

(** X15.  A standard node gives exactly one statement; it opens with MERGE
    when the node carries [uniqueProperties] or [uniqueLabels], and with
    CREATE otherwise. *)
Theorem standard_node_statement_opening str_other node statements :
  _gen_standard_node_statements str_other node = Ok statements ->
  exists statement,
    statements = [statement] /\
    String.prefix (opening (endpoint_of_node node)) statement = true.
Proof.
  unfold _gen_standard_node_statements.
  destruct (cn_uniqueProperties node) as [up|] eqn:Eu; intros H.
  - bind_split H as ps Hps. injection H as <-. eexists. split; [reflexivity|].
    apply merge_node_statement_opening. exact Eu.
  - injection H as <-. eexists. split; [reflexivity|].
    apply plain_node_statement_opening. exact Eu.
Qed.

Lemma standard_node_statement_opening_witness :
  exists statement,
    [("MERGE (n:Person {name: " ++ dquote ++ "Ann" ++ dquote ++
      "})SET n:Employee")%string] = [statement] /\
    String.prefix (opening (endpoint_of_node labelled_person)) statement = true.
Proof.
  exact (standard_node_statement_opening str_scalar labelled_person _ eq_refl).
Defined.

Lemma iterator_node_statement_never_breaks str_other statements instance s' :
  iterator_node_statement str_other statements instance <> Ok (Break s').
Proof.
  unfold iterator_node_statement. destruct (ni_uniqueProperties instance).
  - destruct (field "properties" (ni_properties instance)); [|discriminate]. simpl.
    destruct (iterator_need_to_set a p); discriminate.
  - discriminate.
Qed.

Lemma iterator_statements_loop str_other instances acc final :
  for_each (iterator_node_statement str_other) instances acc = Ok final ->
  exists added,
    final = acc ++ added /\
    Forall2
      (fun instance statement =>
         String.prefix (opening (endpoint_of_instance instance)) statement = true)
      instances added.
Proof.
  revert acc; induction instances as [|i instances IH]; intros acc H; simpl in H.
  - injection H as <-. exists []. rewrite app_nil_r. split; constructor.
  - bind_split H as step Hstep. unfold iterator_node_statement in Hstep.
    destruct (ni_uniqueProperties i) as [up|] eqn:Eu.
    + bind_split Hstep as ps Hps. bind_split Hstep as need Hneed.
      injection Hstep as <-. destruct (IH _ H) as (added & -> & Hf).
      eexists. rewrite <- app_assoc. split; [reflexivity|]. simpl.
      constructor; [|exact Hf]. apply merge_node_statement_opening. exact Eu.
    + injection Hstep as <-. destruct (IH _ H) as (added & -> & Hf).
      eexists. rewrite <- app_assoc. split; [reflexivity|]. simpl.
      constructor; [|exact Hf]. apply plain_node_statement_opening. exact Eu.
Qed.

(** X16.  When statement generation for an iterator node returns, it gives
    one statement per instance, in order; the statement of an instance opens
    with MERGE when the instance carries [uniqueProperties] or
    [uniqueLabels], and with CREATE otherwise. *)
Theorem iterator_node_statement_per_instance str_other node statements :
  _gen_iterator_node_statements str_other node = Ok statements ->
  exists instances,
    cn_instances node = Some instances /\
    Forall2
      (fun instance statement =>
         String.prefix (opening (endpoint_of_instance instance)) statement = true)
      instances statements.
Proof.
  unfold _gen_iterator_node_statements. intros H. bind_split H as instances Hi.
  exists instances. split; [destruct (cn_instances node); [injection Hi as ->; reflexivity|discriminate]|].
  destruct (iterator_statements_loop _ _ _ _ H) as (added & -> & Hf). exact Hf.
Qed.

Lemma iterator_node_statement_per_instance_witness :
  exists instances,
    cn_instances ann_tags = Some instances /\
    Forall2
      (fun instance statement =>
         String.prefix (opening (endpoint_of_instance instance)) statement = true)
      instances
      [("MERGE (n:Tag {tag: " ++ dquote ++ "x" ++ dquote ++ "})")%string;
       ("MERGE (n:Tag {tag: " ++ dquote ++ "y" ++ dquote ++ "})")%string].
Proof.
  exact (iterator_node_statement_per_instance str_scalar ann_tags _ eq_refl).
Defined.

(** X17.  A standard relationship that is unique by its [unique] flag and
    has no [uniqueProperties] gets the statement it would get without any
    property: its properties are neither in the pattern nor in a SET
    clause. *)
Theorem flagged_relationship_drops_properties str_other rel :
  cr_unique rel = Some true ->
  cr_uniqueProperties rel = None ->
  _gen_standard_relationship_statements str_other rel =
  _gen_standard_relationship_statements str_other (without_properties rel).
Proof.
  intros Hu Hup. unfold _gen_standard_relationship_statements. simpl.
  destruct (cr_sourceNode rel) as [s|]; [|reflexivity].
  destruct (cr_destinationNode rel) as [d|]; [|reflexivity].
  destruct (cr_directionality rel) as [dir|]; [|reflexivity]. cbn [field bind].
  unfold relationship_statement, edge_clause. simpl. rewrite Hu, Hup. reflexivity.
Qed.

Lemma flagged_relationship_drops_properties_witness :
  _gen_standard_relationship_statements str_scalar flagged_knows =
  _gen_standard_relationship_statements str_scalar (without_properties flagged_knows).
Proof.
  apply (flagged_relationship_drops_properties str_scalar flagged_knows);
    reflexivity.
Defined.

(** A loop that appends what each element gives can be run from the empty
    list. *)
Lemma for_each_appending {A B : Type} (f : A -> Result (list B)) l acc :
  for_each (fun acc a => x <- f a ;; Ok (Next (acc ++ x))) l acc =
  (r <- for_each (fun acc a => x <- f a ;; Ok (Next (acc ++ x))) l [] ;;
   Ok (acc ++ r)).
Proof.
  revert acc; induction l as [|a l IH]; intros acc; simpl.
  - rewrite app_nil_r. reflexivity.
  - destruct (f a) as [x|e]; simpl; [|reflexivity].
    rewrite (IH (acc ++ x)), (IH x).
    destruct (for_each _ l []); simpl; [|reflexivity].
    rewrite app_assoc. reflexivity.
Qed.

Lemma for_each_appending_app {A B : Type} (f : A -> Result (list B)) l1 l2 :
  for_each (fun acc a => x <- f a ;; Ok (Next (acc ++ x))) (l1 ++ l2) [] =
  (r1 <- for_each (fun acc a => x <- f a ;; Ok (Next (acc ++ x))) l1 [] ;;
   r2 <- for_each (fun acc a => x <- f a ;; Ok (Next (acc ++ x))) l2 [] ;;
   Ok (r1 ++ r2)).
Proof.
  rewrite for_each_app_Next.
  - destruct (for_each _ l1 []) as [r1|e]; simpl; [|reflexivity].
    apply for_each_appending.
  - intros s a _ s'. destruct (f a); discriminate.
Qed.

(** X18.  The statements of a list of nodes followed by another are the
    statements of the first followed by those of the second; likewise for
    relationships.  If either part raises, so does the whole. *)
Theorem statements_of_appended_lists str_other :
  (forall nodes1 nodes2,
      _gen_node_statements str_other (nodes1 ++ nodes2) =
      (s1 <- _gen_node_statements str_other nodes1 ;;
       s2 <- _gen_node_statements str_other nodes2 ;;
       Ok (s1 ++ s2))) /\
  (forall rels1 rels2,
      _gen_relationship_statements str_other (rels1 ++ rels2) =
      (s1 <- _gen_relationship_statements str_other rels1 ;;
       s2 <- _gen_relationship_statements str_other rels2 ;;
       Ok (s1 ++ s2))).
Proof.
  split; intros l1 l2.
  - apply (for_each_appending_app
             (fun node => if String.eqb (cn_nodeType node) "iterator"
                          then _gen_iterator_node_statements str_other node
                          else _gen_standard_node_statements str_other node)).
  - apply (for_each_appending_app
             (fun r => if String.eqb (cr_relationshipType r) "iterator"
                       then _gen_iterative_relationship_statements str_other r
                       else _gen_standard_relationship_statements str_other r)).
Qed.

(* ===================================================================== *)
(** * Further properties: pipeline, build and executor *)
(* ===================================================================== *)

Lemma for_each_raises {A S : Type} (body : S -> A -> Result (ctl S)) l a :
  In a l ->
  (forall s, exists e, body s a = Raise e) ->
  (forall s x s', body s x <> Ok (Break s')) ->
  forall s, exists e, for_each body l s = Raise e.
Proof.
  intros Hin Hraise Hnb. induction l as [|x l IH]; [contradiction|].
  intros s. simpl. destruct Hin as [->|Hin].
  - destruct (Hraise s) as (e & ->). exists e. reflexivity.
  - destruct (body s x) as [[s1|s1]|e] eqn:E; simpl.
    + apply (IH Hin).
    + exfalso. apply (Hnb _ _ _ E).
    + exists e. reflexivity.
Qed.

Section BatchFacts.

Variable mapping : Mapping.
Variable pre_modules : list (Value -> Result Value).
Variable post_node_modules :
  list (list CompiledNode -> Result (list CompiledNode)).
Variable post_relationship_modules :
  list (list CompiledRelationship -> Result (list CompiledRelationship)).

Local Notation "'process_one'" :=
  (process_doc mapping pre_modules post_node_modules post_relationship_modules).
Local Notation "'process_all'" :=
  (_process mapping pre_modules post_node_modules post_relationship_modules).

Lemma process_doc_never_breaks st hit s' : process_one st hit <> Ok (Break s').
Proof.
  destruct st as [a b]. unfold process_doc.
  destruct (py_getitem hit "_source"); [|discriminate]. cbn [bind].
  destruct (_pre_process_doc pre_modules a0); [|discriminate]. cbn [bind].
  destruct (_gen_nodes mapping a1) as [[ns [|]]|]; cbn [bind]; try discriminate.
  destruct (_post_process_nodes post_node_modules ns); [|discriminate]. cbn [bind].
  destruct (_gen_relationships mapping a1 a2) as [[rs [|]]|]; cbn [bind];
    try discriminate.
  destruct (_post_process_relationships post_relationship_modules rs); discriminate.
Qed.

(** What a document adds does not depend on what was accumulated. *)
Lemma process_doc_shift a b hit :
  process_one (a, b) hit =
  (step <- process_one ([], []) hit ;;
   Ok (Next (a ++ fst (ctl_state step), b ++ snd (ctl_state step)))).
Proof.
  unfold process_doc.
  destruct (py_getitem hit "_source"); [|reflexivity]. cbn [bind].
  destruct (_pre_process_doc pre_modules a0); [|reflexivity]. cbn [bind].
  destruct (_gen_nodes mapping a1) as [[ns [|]]|]; cbn [bind];
    try rewrite !app_nil_r; try reflexivity.
  destruct (_post_process_nodes post_node_modules ns); [|reflexivity]. cbn [bind].
  destruct (_gen_relationships mapping a1 a2) as [[rs [|]]|]; cbn [bind];
    try rewrite !app_nil_r; try reflexivity.
  destruct (_post_process_relationships post_relationship_modules rs);
    reflexivity.
Qed.

Lemma process_loop_shift data a b :
  for_each process_one data (a, b) =
  (r <- for_each process_one data ([], []) ;; Ok (a ++ fst r, b ++ snd r)).
Proof.
  revert a b; induction data as [|hit data IH]; intros a b; cbn [for_each].
  - cbn [bind fst snd]. rewrite !app_nil_r. reflexivity.
  - rewrite (process_doc_shift a b).
    destruct (process_one ([], []) hit) as [step|e] eqn:E; cbn [bind];
      [|reflexivity].
    destruct step as [[x y]|s']; [|exfalso; apply (process_doc_never_breaks _ _ _ E)].
    cbn [ctl_state fst snd]. rewrite (IH (a ++ x) (b ++ y)), (IH x y).
    destruct (for_each _ data ([], [])) as [[rn rr]|e]; simpl; [|reflexivity].
    rewrite !app_assoc. reflexivity.
Qed.

Lemma process_app data1 data2 :
  process_all (data1 ++ data2) =
  (r1 <- process_all data1 ;;
   r2 <- process_all data2 ;;
   Ok (fst r1 ++ fst r2, snd r1 ++ snd r2)).
Proof.
  unfold _process. rewrite for_each_app_Next.
  - destruct (for_each _ data1 ([], [])) as [[n1 r1]|e]; cbn [bind]; [|reflexivity].
    apply process_loop_shift.
  - intros s hit _ s'. apply process_doc_never_breaks.
Qed.

(** X19.  Processing a batch made of two parts gives the nodes of the first
    part followed by those of the second, and likewise the relationships:
    what a document contributes does not depend on the documents around
    it. *)
Theorem process_of_appended_batches data1 data2 :
  _process mapping pre_modules post_node_modules post_relationship_modules
    (data1 ++ data2) =
  (r1 <- _process mapping pre_modules post_node_modules post_relationship_modules data1 ;;
   r2 <- _process mapping pre_modules post_node_modules post_relationship_modules data2 ;;
   Ok (fst r1 ++ fst r2, snd r1 ++ snd r2)).
Proof. apply process_app. Qed.

(** X20.  One document on which processing raises loses the whole batch:
    the exception leaves [_process], and the nodes and relationships of the
    documents before it are not returned. *)
Theorem raising_document_loses_batch before hit after compiled e :
  _process mapping pre_modules post_node_modules post_relationship_modules before = Ok compiled ->
  _process mapping pre_modules post_node_modules post_relationship_modules [hit] = Raise e ->
  _process mapping pre_modules post_node_modules post_relationship_modules
    (before ++ hit :: after) = Raise e.
Proof.
  intros Hb Hh. rewrite process_app, Hb. cbn [bind].
  change (hit :: after) with ([hit] ++ after). rewrite process_app, Hh. reflexivity.
Qed.

Variable str_other : Value -> string.
Variable Sink : Type.
Variable Row : Type.
Variable write_transaction : Sink -> string -> Sink * Result Row.

Lemma node_statements_raise nodes node instances instance ps up :
  In node nodes ->
  is_iterator node = true ->
  cn_instances node = Some instances ->
  In instance instances ->
  ni_properties instance = Some ps ->
  ni_uniqueProperties instance = Some up ->
  non_unique ps up <> [] ->
  exists e, _gen_node_statements str_other nodes = Raise e.
Proof.
  intros Hnode Hit Hinst Hin Hps Hup Hnon. unfold _gen_node_statements.
  apply (for_each_raises _ nodes node Hnode).
  - intros s. unfold is_iterator in Hit. rewrite Hit.
    unfold _gen_iterator_node_statements. rewrite Hinst. cbn [field bind].
    destruct (for_each_raises (iterator_node_statement str_other) instances instance Hin)
      with (s := @nil string) as (e & He).
    + intros s0. unfold iterator_node_statement. rewrite Hup, Hps. cbn [field bind].
      destruct (non_unique ps up) as [|[k v] rest] eqn:E; [contradiction Hnon; reflexivity|].
      rewrite (iterator_need_to_set_raises _ _ _ _ _ E). eexists. reflexivity.
    + intros s0 x s'. apply iterator_node_statement_never_breaks.
    + rewrite He. eexists. reflexivity.
  - intros s x s'.
    destruct (if String.eqb (cn_nodeType x) "iterator"
              then _gen_iterator_node_statements str_other x
              else _gen_standard_node_statements str_other x); discriminate.
Qed.

(** X21.  If any iterator node of a batch has an instance carrying
    [uniqueProperties] together with a property that is not unique, [build]
    raises before anything is executed: no statement of the batch reaches
    the sink, and the executor logs nothing. *)
Theorem unsettable_instance_blocks_batch data docs nodes rels node instances
    instance ps up execute st :
  py_iter data = Ok docs ->
  process_all docs = Ok (nodes, rels) ->
  In node nodes ->
  is_iterator node = true ->
  cn_instances node = Some instances ->
  In instance instances ->
  ni_properties instance = Some ps ->
  ni_uniqueProperties instance = Some up ->
  non_unique ps up <> [] ->
  exists e,
    build mapping pre_modules post_node_modules post_relationship_modules
      str_other write_transaction data execute st = (st, Raise e).
Proof.
  intros Hd Hp Hnode Hit Hinst Hin Hps Hup Hnon.
  destruct (node_statements_raise nodes node instances instance ps up
              Hnode Hit Hinst Hin Hps Hup Hnon) as (e & He).
  exists e. unfold build, batch_statements. rewrite Hd. cbn [bind]. rewrite Hp.
  cbn [bind]. unfold _gen_statements. rewrite He. reflexivity.
Qed.

End BatchFacts.

Lemma raising_document_loses_batch_witness :
  _process tags_mapping [] [] [] ([hit ann] ++ hit nameless_flat_address :: [hit bob])
    = Raise TypeError.
Proof.
  apply (raising_document_loses_batch tags_mapping [] [] [] [hit ann]
           (hit nameless_flat_address) [hit bob]
           ([ann_person; ann_tags], [ann_tagged])); reflexivity.
Defined.

Section SinkFacts.

Variable Sink : Type.
Variable Row : Type.
Variable write_transaction : Sink -> string -> Sink * Result Row.

Lemma execute_loop_succeeds (l : list string) (st : ExecState Sink Row) :
  (forall sk s, exists sk' row, write_transaction sk s = (sk', Ok row)) ->
  exists st', execute_loop write_transaction l st = (st', Ok tt).
Proof.
  intros Hok. revert st; induction l as [|s l IH]; intros st; simpl.
  - exists st. reflexivity.
  - destruct (Hok (sink st) s) as (sk' & row & ->). apply IH.
Qed.

(** X22.  When the sink accepts every statement, [_execute_statements]
    returns normally having handed over every node statement and then every
    relationship statement, each once and in order, and logs nothing at
    level ERROR. *)
Theorem accepted_statements_all_executed node_statements relationship_statements st :
  (forall sk s, exists sk' row, write_transaction sk s = (sk', Ok row)) ->
  exists st',
    _execute_statements write_transaction node_statements relationship_statements st
      = (st', Ok tt) /\
    submitted (log st') =
      submitted (log st) ++ node_statements ++ relationship_statements /\
    reported (log st') = reported (log st).
Proof.
  intros Hok. rewrite execute_statements_as_one_loop.
  destruct (execute_loop_succeeds (node_statements ++ relationship_statements)
              (logger INFO
                 (Executing (length node_statements) (length relationship_statements))
                 st) Hok) as (st' & H).
  exists st'. split; [exact H|].
  apply execute_loop_completed in H. destruct H as [Hs Hr].
  simpl in Hs, Hr. rewrite submitted_app in Hs. rewrite reported_app in Hr.
  simpl in Hs, Hr. rewrite app_nil_r in Hs. rewrite orb_false_r in Hr.
  split; assumption.
Qed.

End SinkFacts.

Lemma accepted_statements_all_executed_witness :
  exists st',
    _execute_statements accepting_sink ["A"; "B"] ["C"] {| sink := []; log := [] |}
      = (st', Ok tt) /\
    submitted (log st') =
      submitted (@nil (Level * Message unit)) ++ ["A"; "B"] ++ ["C"] /\
    reported (log st') = reported (@nil (Level * Message unit)).
Proof.
  apply (accepted_statements_all_executed (list string) unit accepting_sink
           ["A"; "B"] ["C"] {| sink := []; log := [] |}).
  intros sk s. exists (sk ++ [s]), tt. reflexivity.
Defined.

Lemma unsettable_instance_blocks_batch_witness :
  exists e,
    build owned_tags_mapping [] [] [] str_scalar accepting_sink
      (VList [hit ann]) true {| sink := []; log := [] |}
    = ({| sink := []; log := [] |}, Raise e).
Proof.
  apply (unsettable_instance_blocks_batch owned_tags_mapping [] [] [] str_scalar
           (list string) unit accepting_sink (VList [hit ann]) [hit ann]
           [ann_owned_tags] [] ann_owned_tags
           [owned_tag_instance "x"; owned_tag_instance "y"] (owned_tag_instance "x")
           [("tag", text "x"); ("owner", text "Ann")] [("tag", text "x")]).
  - reflexivity.
  - reflexivity.
  - left; reflexivity.
  - reflexivity.
  - reflexivity.
  - left; reflexivity.
  - reflexivity.
  - reflexivity.
  - discriminate.
Defined.

(* ===================================================================== *)
(** * Further properties: the index scroller *)
(* ===================================================================== *)

Section ScrollerFacts.

Variable Es : Type.
Variable indices_exists : Es -> string -> Es * Result bool.
Variable search : Es -> string -> option Value -> Value -> Value -> Es * Result Value.
Variable scroll_api : Es -> Value -> Es * Result Value.

Local Notation "'scroll_here'" := (scroll indices_exists search scroll_api).
Local Notation "'fetch_here'" := (fetch indices_exists search scroll_api).

Lemma scroll_after_fetch (st : ScrollState Es) :
  scroll_here st =
  let (st, response) := fetch_here st in
  match response with
  | Raise e => (st, Raise e)
  | Ok data =>
      match py_in "_scroll_id" data with
      | Raise e => (st, Raise e)
      | Ok true =>
          match py_getitem data "_scroll_id" with
          | Raise e => (st, Raise e)
          | Ok sid =>
              let st := with_sid sid st in
              match (outer <- py_getitem data "hits" ;;
                     hits <- py_getitem outer "hits" ;;
                     n <- py_len hits ;;
                     Ok (hits, n)) with
              | Raise e => (st, Raise e)
              | Ok (hits, n) =>
                  (scroll_logger DEBUG (HitsOnScroll n (es_index (scroller st))) st,
                   Ok hits)
              end
          end
      | Ok false =>
          (with_sid VNone
             (scroll_logger DEBUG (LoggedResponse data)
                (scroll_logger ERROR NoScrollId st)),
           Ok VNone)
      end
  end.
Proof. reflexivity. Qed.

(** X23.  With no scroll id stored, scrolling an index that does not exist
    logs the error and then raises [TypeError]: the [None] that
    [_init_scroll] returns is tested for ['_scroll_id'].  No search is
    issued and no scroll id is stored. *)
Theorem scroll_of_missing_index_raises (st : ScrollState Es) c :
  py_truthy (es_sid (scroller st)) = false ->
  indices_exists (client st) (es_index (scroller st)) = (c, Ok false) ->
  scroll_here st =
    (scroll_logger ERROR (IndexDoesNotExist (es_index (scroller st)))
       (with_client c st),
     Raise TypeError).
Proof.
  intros Hsid Hex. unfold scroll. rewrite Hsid. simpl negb. cbv iota.
  unfold _init_scroll. rewrite Hex. reflexivity.
Qed.

(** X24.  On a record response that carries ['_scroll_id'] and a list under
    ['hits']['hits'], [scroll] returns that list and stores the scroll id,
    logging the number of hits. *)
Theorem scroll_returns_hits_and_keeps_id (st st1 : ScrollState Es) d sid inner hits :
  fetch_here st = (st1, Ok (VDict d)) ->
  dict_lookup "_scroll_id" d = Some sid ->
  dict_lookup "hits" d = Some (VDict inner) ->
  dict_lookup "hits" inner = Some (VList hits) ->
  scroll_here st =
    (scroll_logger DEBUG (HitsOnScroll (length hits) (es_index (scroller st1)))
       (with_sid sid st1),
     Ok (VList hits)).
Proof.
  intros Hf Hsid Hh Hhh. rewrite scroll_after_fetch, Hf. simpl.
  unfold dict_mem, dict_get. rewrite Hsid, Hh. simpl.
  unfold dict_get. rewrite Hhh. reflexivity.
Qed.

(** X25.  On a record response without ['_scroll_id'], [scroll] returns
    [None] whatever hits the response carries, logs an error and forgets the
    stored scroll id, so that the next call starts a new search. *)
Theorem scroll_without_id_returns_none (st st1 : ScrollState Es) d :
  fetch_here st = (st1, Ok (VDict d)) ->
  dict_lookup "_scroll_id" d = None ->
  exists st2,
    scroll_here st = (st2, Ok VNone) /\
    es_sid (scroller st2) = VNone /\
    client st2 = client st1 /\
    scroll_log st2 =
      scroll_log st1 ++ [(ERROR, NoScrollId); (DEBUG, LoggedResponse (VDict d))] /\
    fetch_here st2 = _init_scroll indices_exists search st2.
Proof.
  intros Hf Hsid. rewrite scroll_after_fetch, Hf. simpl.
  unfold dict_mem. rewrite Hsid. eexists. split; [reflexivity|]. simpl.
  rewrite <- app_assoc. repeat split; reflexivity.
Qed.

End ScrollerFacts.

Lemma scroll_of_missing_index_raises_witness :
  scroll no_index (canned_search first_page) (canned_scroll first_page) fresh_scroll =
    (scroll_logger ERROR (IndexDoesNotExist "people")
       (with_client ["exists"] fresh_scroll),
     Raise TypeError).
Proof.
  apply (scroll_of_missing_index_raises (list string) no_index
           (canned_search first_page) (canned_scroll first_page) fresh_scroll
           ["exists"]); reflexivity.
Defined.

Lemma scroll_returns_hits_and_keeps_id_witness :
  scroll (fun calls _ => (calls ++ ["exists"], Ok true))
    (canned_search first_page) (canned_scroll first_page) fresh_scroll =
    (scroll_logger DEBUG (HitsOnScroll 1 "people")
       (with_sid (VStr "c2Nyb2xs") (with_client ["exists"; "search"] fresh_scroll)),
     Ok (VList [hit ann])).
Proof.
  apply (scroll_returns_hits_and_keeps_id (list string)
           (fun calls _ => (calls ++ ["exists"], Ok true))
           (canned_search first_page) (canned_scroll first_page) fresh_scroll
           (with_client ["exists"; "search"] fresh_scroll)
           [("_scroll_id", VStr "c2Nyb2xs");
            ("hits", VDict [("hits", VList [hit ann])])]
           (VStr "c2Nyb2xs") [("hits", VList [hit ann])] [hit ann]); reflexivity.
Defined.

Lemma scroll_without_id_returns_none_witness :
  exists st2,
    scroll (fun calls _ => (calls ++ ["exists"], Ok true))
      (canned_search page_without_id) (canned_scroll first_page) fresh_scroll
      = (st2, Ok VNone) /\
    es_sid (scroller st2) = VNone /\
    client st2 = ["exists"; "search"] /\
    scroll_log st2 =
      [] ++ [(ERROR, NoScrollId); (DEBUG, LoggedResponse page_without_id)] /\
    fetch (fun calls _ => (calls ++ ["exists"], Ok true))
      (canned_search page_without_id) (canned_scroll first_page) st2 =
    _init_scroll (fun calls _ => (calls ++ ["exists"], Ok true))
      (canned_search page_without_id) st2.
Proof.
  apply (scroll_without_id_returns_none (list string)
           (fun calls _ => (calls ++ ["exists"], Ok true))
           (canned_search page_without_id) (canned_scroll first_page) fresh_scroll
           (with_client ["exists"; "search"] fresh_scroll)
           [("hits", VDict [("hits", VList [hit ann])])]); reflexivity.
Defined.

(* ===================================================================== *)
(** * Further properties: the polling loop and start-up *)
(* ===================================================================== *)

Section ExecuteFacts.

Variable mapping : Mapping.
Variable pre_modules : list (Value -> Result Value).
Variable post_node_modules :
  list (list CompiledNode -> Result (list CompiledNode)).
Variable post_relationship_modules :
  list (list CompiledRelationship -> Result (list CompiledRelationship)).
Variable str_other : Value -> string.
Variable Sink : Type.
Variable Row : Type.
Variable write_transaction : Sink -> string -> Sink * Result Row.
Variable close_driver : Sink -> Sink.
Variable Es : Type.
Variable indices_exists : Es -> string -> Es * Result bool.
Variable search : Es -> string -> option Value -> Value -> Value -> Es * Result Value.
Variable scroll_api : Es -> Value -> Es * Result Value.

Local Notation "'execute_here'" :=
  (_execute mapping pre_modules post_node_modules post_relationship_modules
     str_other write_transaction close_driver indices_exists search scroll_api).

(** X26.  When the first scroll raises, or returns [None] (no scroll id in
    the response), [_execute] ends with that exception ([TypeError] for
    [None], from [len(data)] or from iterating the batch), in polling mode
    and in one-shot mode alike: nothing was built, the driver is closed and
    [complete] is the last thing logged. *)
Theorem failed_first_scroll_ends_run fuel forever execute sleep_delay ends
    (r : Run Sink Row Es) s' outcome e :
  scroll indices_exists search scroll_api (run_scroller r) = (s', outcome) ->
  outcome = Raise e \/ (outcome = Ok VNone /\ e = TypeError) ->
  exists r',
    execute_here (S fuel) forever execute sleep_delay ends r
      = Some (finally close_driver r', Raise e) /\
    run_scroller r' = s' /\
    run_builder r' = run_builder r.
Proof.
  intros Hs Hout. unfold _execute.
  destruct forever; simpl; unfold scroller_scroll; simpl; rewrite Hs.
  - destruct Hout as [->|[-> ->]]; simpl; eexists; repeat split; reflexivity.
  - destruct Hout as [->|[-> ->]]; simpl.
    + eexists; repeat split; reflexivity.
    + unfold builder_build, build, batch_statements. simpl.
      eexists; repeat split; reflexivity.
Qed.

End ExecuteFacts.

Lemma failed_first_scroll_ends_run_witness :
  exists r',
    _execute tags_mapping [] [] [] str_scalar accepting_sink (fun ran => ran ++ ["closed"])
      no_index (canned_search first_page) (canned_scroll first_page)
      1 true true 15 false
      {| run_scroller := fresh_scroll; run_builder := {| sink := []; log := [] |};
         run_events := [] |}
      = Some (finally (fun ran => ran ++ ["closed"]) r', Raise TypeError) /\
    run_scroller r' =
      scroll_logger ERROR (IndexDoesNotExist "people")
        (with_client ["exists"] fresh_scroll) /\
    run_builder r' = {| sink := []; log := [] |}.
Proof.
  apply (failed_first_scroll_ends_run tags_mapping [] [] [] str_scalar
           (list string) unit accepting_sink (fun ran => ran ++ ["closed"])
           (list string) no_index (canned_search first_page)
           (canned_scroll first_page) 0 true true 15 false
           {| run_scroller := fresh_scroll; run_builder := {| sink := []; log := [] |};
              run_events := [] |}
           (scroll_logger ERROR (IndexDoesNotExist "people")
              (with_client ["exists"] fresh_scroll))
           (Raise TypeError) TypeError).
  - reflexivity.
  - left; reflexivity.
Defined.

Lemma all_in_record names d :
  all_in names (VDict d) = Ok (has_all names d).
Proof.
  induction names as [|k names IH]; simpl; [reflexivity|].
  destruct (dict_mem k d); simpl; [exact IH|reflexivity].
Qed.

Lemma has_all_get names d k :
  has_all names d = true -> In k names ->
  exists v, py_getitem (VDict d) k = Ok v.
Proof.
  unfold has_all. intros H Hin. rewrite forallb_forall in H.
  specialize (H k Hin). unfold dict_mem in H. simpl. unfold dict_get.
  destruct (dict_lookup k d) as [v|]; [exists v; reflexivity|discriminate].
Qed.

(** X27.  On a configuration whose [elastic] and [neo] sections are
    records, reading the configuration never raises.  With a required key
    missing from [elastic], [_setup_objects] exits with code 1 before it
    looks at the mapping or calls a constructor.  When it returns, both
    sections hold their required keys and the objects are what the two
    constructors returned for the index and document type read from the
    mapping, the mapping and the [execute] flag, with [https] exactly when
    the protocol is the string [https] and credentials exactly when
    [elastic] holds both [user] and [password].  When it exits, the code is
    1 and a required key is missing.  When it raises, the exception is that
    of [mapping['index']], of [mapping['docType']] or of a constructor. *)
Theorem setup_objects_on_records str_other (S B : Type)
    (new_scroller : ScrollerArgs -> Result S)
    (new_builder : BuilderArgs -> Result B) c elastic neo mapping execute :
  dict_lookup "elastic" c = Some (VDict elastic) ->
  dict_lookup "neo" c = Some (VDict neo) ->
  (has_all REQUIRED_ES_CONFIG_VALUES elastic = false ->
   _setup_objects str_other new_scroller new_builder (VDict c) mapping execute
     = SystemExit 1) /\
  match
    _setup_objects str_other new_scroller new_builder (VDict c) mapping execute
  with
  | Objects scroller builder =>
      has_all REQUIRED_ES_CONFIG_VALUES elastic = true /\
      has_all REQUIRED_NEO_CONFIG_VALUES neo = true /\
      exists sa ba,
        new_scroller sa = Ok scroller /\ new_builder ba = Ok builder /\
        py_getitem mapping "index" = Ok (sa_index sa) /\
        py_getitem mapping "docType" = Ok (sa_doc_type sa) /\
        ba_mapping ba = mapping /\ ba_execute ba = execute /\
        sa_https sa =
          match dict_lookup "protocol" elastic with
          | Some v => is_str "https" v
          | None => false
          end /\
        (match sa_http_auth sa with Some _ => true | None => false end) =
          has_all ["user"; "password"] elastic
  | SystemExit code =>
      code = 1%Z /\
      (has_all REQUIRED_ES_CONFIG_VALUES elastic = false \/
       has_all REQUIRED_NEO_CONFIG_VALUES neo = false)
  | SetupRaised e =>
      has_all REQUIRED_ES_CONFIG_VALUES elastic = true /\
      (py_getitem mapping "index" = Raise e \/
       py_getitem mapping "docType" = Raise e \/
       (exists sa, new_scroller sa = Raise e) \/
       (exists ba, new_builder ba = Raise e))
  end.
Proof.
  intros He Hn. unfold _setup_objects.
  assert (all_in REQUIRED_CONFIG_VALUES (VDict c) = Ok true) as ->.
  { simpl. unfold dict_mem. rewrite He, Hn. reflexivity. }
  assert (py_getitem (VDict c) "elastic" = Ok (VDict elastic)) as Hge
    by (simpl; unfold dict_get; rewrite He; reflexivity).
  assert (py_getitem (VDict c) "neo" = Ok (VDict neo)) as Hgn
    by (simpl; unfold dict_get; rewrite Hn; reflexivity).
  cbn [setup_bind]. rewrite Hge. cbn [setup_bind]. rewrite !all_in_record.
  destruct (has_all REQUIRED_ES_CONFIG_VALUES elastic) eqn:Hes; cbn [setup_bind];
    [split; [discriminate|]|split; [reflexivity|split; [reflexivity|left; reflexivity]]].
  destruct (has_all_get _ _ "protocol" Hes) as (proto & Hproto); [simpl; auto|].
  destruct (has_all_get _ _ "host" Hes) as (host & Hhost); [simpl; auto|].
  destruct (has_all_get _ _ "port" Hes) as (port & Hport); [simpl; auto|].
  destruct (has_all_get _ _ "scrollSize" Hes) as (size & Hsize); [simpl; auto 6|].
  assert (dict_lookup "protocol" elastic = Some proto) as Hlp.
  { simpl in Hproto. unfold dict_get in Hproto.
    destruct (dict_lookup "protocol" elastic); [congruence|discriminate]. }
  rewrite Hproto. cbn [setup_bind].
  rewrite Hhost. cbn [setup_bind]. rewrite Hport. cbn [setup_bind].
  destruct (py_getitem mapping "index") as [index|e] eqn:Hindex;
    cbn [setup_bind]; [|split; [reflexivity|left; reflexivity]].
  destruct (py_getitem mapping "docType") as [doc_type|e] eqn:Hdoc;
    cbn [setup_bind]; [|split; [reflexivity|right; left; reflexivity]].
  assert (exists http_auth,
             (if has_all ["user"; "password"] elastic
              then user <- py_getitem (VDict elastic) "user" ;;
                   password <- py_getitem (VDict elastic) "password" ;;
                   Ok (Some (user, password))
              else Ok None) = Ok http_auth /\
             (match http_auth with Some _ => true | None => false end) =
               has_all ["user"; "password"] elastic) as (http_auth & -> & Hauth).
  { destruct (has_all ["user"; "password"] elastic) eqn:Hup.
    - destruct (has_all_get _ _ "user" Hup) as (user & Huser); [simpl; auto|].
      destruct (has_all_get _ _ "password" Hup) as (pw & Hpw); [simpl; auto|].
      rewrite Huser. cbn [bind]. rewrite Hpw. cbn [bind].
      eexists. split; reflexivity.
    - eexists. split; reflexivity. }
  cbn [setup_bind]. rewrite Hsize. cbn [setup_bind].
  match goal with
  | |- context [new_scroller ?args] =>
      destruct (new_scroller args) as [scroller|e] eqn:Hscroller
  end; cbn [setup_bind];
    [|split; [reflexivity|right; right; left; eexists; exact Hscroller]].
  rewrite Hgn. cbn [setup_bind]. rewrite all_in_record.
  destruct (has_all REQUIRED_NEO_CONFIG_VALUES neo) eqn:Hneo; cbn [setup_bind];
    [|split; [reflexivity|right; reflexivity]].
  destruct (has_all_get _ _ "protocol" Hneo) as (np & Hnp); [simpl; auto|].
  destruct (has_all_get _ _ "host" Hneo) as (nh & Hnh); [simpl; auto|].
  destruct (has_all_get _ _ "port" Hneo) as (npo & Hnpo); [simpl; auto|].
  destruct (has_all_get _ _ "user" Hneo) as (nu & Hnu); [simpl; auto 6|].
  destruct (has_all_get _ _ "password" Hneo) as (npw & Hnpw); [simpl; auto 6|].
  rewrite Hnp. cbn [setup_bind]. rewrite Hnh. cbn [setup_bind].
  rewrite Hnpo. cbn [setup_bind]. rewrite Hnu. cbn [setup_bind].
  rewrite Hnpw. cbn [setup_bind].
  match goal with
  | |- context [new_builder ?args] =>
      destruct (new_builder args) as [builder|e] eqn:Hbuilder
  end; cbn [setup_bind];
    [|split; [reflexivity|right; right; right; eexists; exact Hbuilder]].
  split; [reflexivity|]. split; [reflexivity|].
  do 2 eexists. split; [exact Hscroller|]. split; [exact Hbuilder|].
  cbn [sa_index sa_doc_type ba_mapping ba_execute sa_https sa_http_auth].
  rewrite Hlp. repeat split; try reflexivity. exact Hauth.
Qed.

Lemma setup_objects_on_records_witness :
  exists scroller builder,
    _setup_objects str_scalar (fun args => Ok args) (fun args => Ok args)
      full_config people_mapping_file true = Objects scroller builder /\
    sa_index scroller = VStr "people" /\ sa_doc_type scroller = VStr "_doc" /\
    sa_https scroller = true /\ sa_http_auth scroller = None /\
    ba_mapping builder = people_mapping_file /\ ba_execute builder = true.
Proof.
  pose proof (setup_objects_on_records str_scalar ScrollerArgs BuilderArgs
                (fun args => Ok args) (fun args => Ok args)
                [("elastic",
                  VDict [("host", VStr "es"); ("port", VInt 9200);
                         ("protocol", VStr "https");
                         ("scrollSize", VInt 500); ("sleepMin", VInt 15)]);
                 ("neo",
                  VDict [("host", VStr "db"); ("port", VInt 7687);
                         ("protocol", VStr "bolt");
                         ("user", VStr "neo4j"); ("password", VStr "secret")])]
                _ _ people_mapping_file true eq_refl eq_refl) as [_ H].
  change (VDict _) with full_config in H.
  destruct (_setup_objects str_scalar (fun args => Ok args) (fun args => Ok args)
              full_config people_mapping_file true) as [scroller builder|code|e].
  - destruct H as (_ & _ & sa & ba & Hs & Hb & Hi & Hd & Hm & He & Hh & Ha).
    injection Hs as <-. injection Hb as <-.
    exists sa, ba. split; [reflexivity|].
    injection Hi as <-. injection Hd as <-.
    repeat split; try assumption.
    destruct (sa_http_auth sa); [discriminate|reflexivity].
  - exfalso. destruct H as [_ [H|H]]; discriminate.
  - exfalso. destruct H as [_ [H|[H|[[sa H]|[ba H]]]]]; discriminate.
Defined.

Lemma read_option_keeps_log_file s opt arg s' :
  read_option s opt arg = Settled s' -> log_file s' = log_file s.
Proof.
  unfold read_option.
  repeat match goal with
         | |- context [if ?b then _ else _] => destruct b
         end; intros H; try discriminate; injection H as <-; reflexivity.
Qed.

(** X28.  Whatever options [main] reads, the log file stays the one it
    started with ([e2n.log] by default): no option changes it, [-F] changes
    the mapping file. *)
Theorem options_never_change_log_file opts s s' :
  read_options opts s = Settled s' -> log_file s' = log_file s.
Proof.
  revert s; induction opts as [|[opt arg] opts IH]; intros s H; simpl in H.
  - injection H as <-. reflexivity.
  - destruct (read_option s opt arg) as [s1|code] eqn:E; [|discriminate].
    rewrite (IH _ H). apply (read_option_keeps_log_file _ _ _ _ E).
Qed.

Lemma options_never_change_log_file_witness :
  log_file
    {| debug := false; enable_file := true; log_file := "e2n.log";
       config_file := "config.yaml"; mapping_file := "run.log";
       scroll_forever := true; execute_statements := true;
       end_after_empty := false |}
  = log_file default_settings.
Proof.
  apply (options_never_change_log_file [("-f", EmptyString); ("-F", "run.log")]).
  reflexivity.
Defined.

Lemma read_option_keeps_end_after_empty s opt arg s' :
  In opt (short_options MAIN_SHORT_OPTIONS) ->
  read_option s opt arg = Settled s' -> end_after_empty s' = end_after_empty s.
Proof.
  intros Hin. unfold read_option.
  repeat match goal with
         | |- context [if String.eqb opt ?k then _ else _] =>
             destruct (String.eqb_spec opt k)
         | |- context [if enable_file s then _ else _] => destruct (enable_file s)
         end; intros H; try discriminate; try (injection H as <-; reflexivity).
  exfalso. subst opt. simpl in Hin. intuition discriminate.
Qed.

(** X29.  On options [getopt] can return for the option string of [main],
    [end_after_empty] keeps its starting value ([False] by default): the
    [-e] branch of the option loop is never taken, because [e] is not in
    the option string. *)
Theorem end_after_empty_never_set opts s s' :
  Forall (fun oa => In (fst oa) (short_options MAIN_SHORT_OPTIONS)) opts ->
  read_options opts s = Settled s' ->
  end_after_empty s' = end_after_empty s.
Proof.
  intros Hall. revert s; induction Hall as [|[opt arg] opts Hopt Hall IH];
    intros s H; simpl in H.
  - injection H as <-. reflexivity.
  - destruct (read_option s opt arg) as [s1|code] eqn:E; [|discriminate].
    rewrite (IH _ H). apply (read_option_keeps_end_after_empty _ _ _ _ Hopt E).
Qed.

Lemma end_after_empty_never_set_witness :
  end_after_empty
    {| debug := true; enable_file := false; log_file := "e2n.log";
       config_file := "config.yaml"; mapping_file := "mapping.yaml";
       scroll_forever := false; execute_statements := true;
       end_after_empty := false |}
  = end_after_empty default_settings.
Proof.
  apply (end_after_empty_never_set [("-d", EmptyString); ("-o", EmptyString)]).
  - constructor; [simpl; repeat (first [left; reflexivity | right])|].
    constructor; [simpl; repeat (first [left; reflexivity | right])|constructor].
  - reflexivity.
Defined.
